(** * eigentools: the Eigenproblem class of [eigentools/eigenproblem.py]

    A shallow embedding of the dual-resolution eigenvalue rejection
    ([_discard_spurious_eigenvalues]), of [solve], [growth_rate] and of the
    pseudospectrum loop [_pseudo], with the properties the specification
    states about them; of the mode selection ([_set_eigenmode],
    [eigenmode]), of [spectrum] and [plot_drift_ratios], and of the file
    name computed by [examples/rayleigh_benard_2d.py], with further
    properties read off the code.

    Numbers are IEEE 754 binary64 values ([spec_float] at precision 53,
    exponent bound 1024), complex numbers are pairs of them, Python
    exceptions are results of type [res], and the attributes of the
    [Eigenproblem] instance together with the module logger form the state
    that methods thread. *)

From Stdlib Require Import ZArith List Bool Lia String Permutation.
From Stdlib Require Import SpecFloat.
Import ListNotations.
Local Open Scope string_scope.
Local Open Scope list_scope.
Local Open Scope Z_scope.

(** ** Python results and exceptions *)

Module Py.

Inductive exn : Type :=
| IndexError
| ValueError
| TypeError
| AttributeError
| NameError
| LinAlgError
| ArpackError
| ArpackNoConvergence.

Inductive res (A : Type) : Type :=
| Ok (a : A)
| Raise (e : exn).

Arguments Ok {A} a.
Arguments Raise {A} e.

Definition bind {A B : Type} (c : res A) (k : A -> res B) : res B :=
  match c with
  | Ok a => k a
  | Raise e => Raise e
  end.

Fixpoint mapM {A B : Type} (f : A -> res B) (xs : list A) : res (list B) :=
  match xs with
  | [] => Ok []
  | x :: xs' =>
      bind (f x) (fun y => bind (mapM f xs') (fun ys => Ok (y :: ys)))
  end.

(** [isinstance e cls]: [ArpackNoConvergence] derives from [ArpackError];
    the other classes modelled here are unrelated to each other. *)
Definition isinstance (e cls : exn) : bool :=
  match e, cls with
  | IndexError, IndexError => true
  | ValueError, ValueError => true
  | TypeError, TypeError => true
  | AttributeError, AttributeError => true
  | NameError, NameError => true
  | LinAlgError, LinAlgError => true
  | ArpackError, ArpackError => true
  | ArpackNoConvergence, ArpackNoConvergence => true
  | ArpackNoConvergence, ArpackError => true
  | _, _ => false
  end.

End Py.

Export Py.

Declare Scope res_scope.
Delimit Scope res_scope with res.
Notation "x <- c ;; k" := (Py.bind c (fun x => k))
  (at level 61, c at next level, right associativity) : res_scope.
Local Open Scope res_scope.

(** ** binary64 arithmetic *)

Module F64.

Definition prec : Z := 53.
Definition emax : Z := 1024.

Definition float : Type := spec_float.

Definition add : float -> float -> float := SFadd prec emax.
Definition sub : float -> float -> float := SFsub prec emax.
Definition mul : float -> float -> float := SFmul prec emax.
Definition div : float -> float -> float := SFdiv prec emax.
Definition sqrt : float -> float := SFsqrt prec emax.
Definition abs : float -> float := SFabs.
Definition ltb : float -> float -> bool := SFltb.
Definition leb : float -> float -> bool := SFleb.
Definition eqb : float -> float -> bool := SFeqb.

Definition is_nan (x : float) : bool :=
  match x with
  | S754_nan => true
  | _ => false
  end.

Definition is_inf (x : float) : bool :=
  match x with
  | S754_infinity _ => true
  | _ => false
  end.

Definition is_zero (x : float) : bool :=
  match x with
  | S754_zero _ => true
  | _ => false
  end.

Definition is_finite (x : float) : bool :=
  match x with
  | S754_zero _ | S754_finite _ _ _ => true
  | S754_infinity _ | S754_nan => false
  end.

(** Conversion of an integer, round to nearest even ([(double) i] in C). *)
Definition of_Z (z : Z) : float := binary_normalize prec emax z 0 false.

Definition int64_min : Z := - 2 ^ 63.

(** [ndarray.astype(int)] on one double: truncation towards zero; a NaN,
    an infinity or a value outside the int64 range gives the smallest
    int64, as the x86-64 conversion does. *)
Definition to_int (x : float) : Z :=
  match x with
  | S754_zero _ => 0
  | S754_finite s m e =>
      let a :=
        match e with
        | Z0 => Zpos m
        | Zpos p => Zpos m * 2 ^ Zpos p
        | Zneg p => Zpos m / 2 ^ Zpos p
        end in
      let v := if s then - a else a in
      if (int64_min <=? v) && (v <? 2 ^ 63) then v else int64_min
  | S754_infinity _ | S754_nan => int64_min
  end.

Definition zero : float := S754_zero false.
Definition nan : float := S754_nan.
Definition inf : float := S754_infinity false.
Definition one : float := Eval vm_compute in of_Z 1.
Definition half : float := Eval vm_compute in div (of_Z 1) (of_Z 2).

End F64.

Abbreviation float := F64.float.

(** ** complex128 *)

Record complex : Type := mkC { re : float; im : float }.

Definition csub (a b : complex) : complex :=
  mkC (F64.sub (re a) (re b)) (F64.sub (im a) (im b)).

Definition cadd (a b : complex) : complex :=
  mkC (F64.add (re a) (re b)) (F64.add (im a) (im b)).

Definition cmul (a b : complex) : complex :=
  mkC (F64.sub (F64.mul (re a) (re b)) (F64.mul (im a) (im b)))
      (F64.add (F64.mul (re a) (im b)) (F64.mul (im a) (re b))).

(** A real number promoted to complex128, and an integer promoted to it. *)
Definition c_of_float (x : float) : complex := mkC x F64.zero.
Definition c_of_Z (i : Z) : complex := c_of_float (F64.of_Z i).

(** ** Python sequences and NumPy arrays *)

Module Np.

(** An index [i] into a sequence of length [n]: negative indices count
    from the end; [None] is out of range. *)
Definition norm_index (n i : Z) : option nat :=
  let k := if i <? 0 then i + n else i in
  if (0 <=? k) && (k <? n) then Some (Z.to_nat k) else None.

Definition len {A : Type} (a : list A) : Z := Z.of_nat (List.length a).

Definition getitem {A : Type} (a : list A) (i : Z) : res A :=
  match norm_index (len a) i with
  | Some k =>
      match nth_error a k with
      | Some x => Ok x
      | None => Raise IndexError
      end
  | None => Raise IndexError
  end.

Fixpoint update {A : Type} (a : list A) (k : nat) (x : A) : list A :=
  match a, k with
  | [], _ => []
  | _ :: t, O => x :: t
  | h :: t, S k' => h :: update t k' x
  end.

Definition setitem {A : Type} (a : list A) (i : Z) (x : A) : res (list A) :=
  match norm_index (len a) i with
  | Some k => Ok (update a k x)
  | None => Raise IndexError
  end.

(** Bounds of the slice [start:stop] (step 1) of a sequence of length [n]. *)
Definition clamp (n i : Z) : Z :=
  let k := if i <? 0 then i + n else i in
  Z.max 0 (Z.min n k).

Definition slice_bounds (n start stop : Z) : nat * nat :=
  let lo := clamp n start in
  let hi := Z.max lo (clamp n stop) in
  (Z.to_nat lo, Z.to_nat hi).

(** [a[start:stop] = vals] on an ndarray: the shapes must agree, a single
    value is broadcast, anything else cannot be broadcast. *)
Definition setslice {A : Type} (a : list A) (start stop : Z) (vals : list A)
  : res (list A) :=
  let '(lo, hi) := slice_bounds (len a) start stop in
  let n := (hi - lo)%nat in
  if Nat.eqb (List.length vals) n then
    Ok (firstn lo a ++ vals ++ skipn hi a)
  else
    match vals with
    | [v] => Ok (firstn lo a ++ repeat v n ++ skipn hi a)
    | _ => Raise ValueError
    end.

(** [range(a, b)] and [np.arange(n)]. *)
Definition range (a b : Z) : list Z :=
  map (fun k => a + Z.of_nat k) (seq 0 (Z.to_nat (b - a))).

Definition arange (n : Z) : list Z := range 0 n.

Definition zeros (n : Z) : list float := repeat F64.zero (Z.to_nat n).

(** [np.isfinite] on complex128: both parts finite. *)
Definition isfinite (z : complex) : bool :=
  F64.is_finite (re z) && F64.is_finite (im z).

(** [np.where(mask)[0]]: the positions of the true entries, ascending. *)
Fixpoint where_from (k : Z) (mask : list bool) : list Z :=
  match mask with
  | [] => []
  | b :: mask' =>
      if b then k :: where_from (k + 1) mask' else where_from (k + 1) mask'
  end.

Definition where_ (mask : list bool) : list Z := where_from 0 mask.

(** Selection by a boolean mask along the first axis. *)
Fixpoint compress {A : Type} (mask : list bool) (a : list A) : list A :=
  match mask, a with
  | b :: mask', x :: a' =>
      if b then x :: compress mask' a' else compress mask' a'
  | _, _ => []
  end.

(** [np.fmin.reduce] step and [np.nanmin]: NaN entries are ignored, the
    result is NaN only when every entry is; an empty array has no minimum. *)
Definition fmin (x y : float) : float :=
  if F64.leb x y || F64.is_nan y then x else y.

Definition nanmin (a : list float) : res float :=
  match a with
  | [] => Raise ValueError
  | x :: a' => Ok (fold_left fmin a' x)
  end.

(** [np.maximum.reduce] step and [np.max]: a NaN entry propagates. *)
Definition maximum (x y : float) : float :=
  if F64.leb y x || F64.is_nan x then x else y.

Definition amax (a : list float) : res float :=
  match a with
  | [] => Raise ValueError
  | x :: a' => Ok (fold_left maximum a' x)
  end.

End Np.

(** ** The eigenvalue array tagged with positions

    [np.asarray(list(zip(ev, idx)))] is a complex128 array of shape [(n, 2)]:
    row [k] holds the eigenvalue and its position, the position stored as a
    complex number.  Zipping nothing gives an array with one axis only. *)

Definition row : Type := (complex * complex)%type.

Inductive ndarray : Type :=
| Arr1 (xs : list complex)
| Arr2 (rows : list row).

Definition asarray_zip (ev : list complex) (ix : list Z) : ndarray :=
  match combine ev ix with
  | [] => Arr1 []
  | ps => Arr2 (map (fun p => (fst p, c_of_Z (snd p))) ps)
  end.

(** [a[mask]]: the mask must be as long as the first axis. *)
Definition getitem_mask (a : ndarray) (mask : list bool) : res ndarray :=
  match a with
  | Arr1 xs =>
      if Nat.eqb (List.length mask) (List.length xs)
      then Ok (Arr1 (Np.compress mask xs)) else Raise IndexError
  | Arr2 rows =>
      if Nat.eqb (List.length mask) (List.length rows)
      then Ok (Arr2 (Np.compress mask rows)) else Raise IndexError
  end.

(** [a[ix]] for an integer index array: rows along the first axis. *)
Definition take (a : ndarray) (ix : list Z) : res ndarray :=
  match a with
  | Arr1 xs => r <- mapM (Np.getitem xs) ix ;; Ok (Arr1 r)
  | Arr2 rows => r <- mapM (Np.getitem rows) ix ;; Ok (Arr2 r)
  end.

(** [a[:, k]]: needs the second axis. *)
Definition column (a : ndarray) (k : Z) : res (list complex) :=
  match a with
  | Arr1 _ => Raise IndexError
  | Arr2 rows =>
      match k with
      | 0 => Ok (map fst rows)
      | 1 => Ok (map snd rows)
      | _ => Raise IndexError
      end
  end.

(** ** The instance and the logger

    The attributes of an [Eigenproblem] instance are its [__dict__]: names
    bound to values, the latest binding of a name first. *)

Inductive value : Type :=
| VNone
| VBool (b : bool)
| VInt (z : Z)
| VFloat (x : float)
| VComplexArray (a : list complex)
| VFloatArray (a : list float)
| VIntArray (a : list Z)
| VArrayFun (f : list complex -> list float)
| VScalarFun (f : complex -> float)
| VObject (name : string).

Record state : Type := mkState {
  obj : list (string * value);
  logged : list string
}.

Fixpoint lookup (name : string) (d : list (string * value)) : option value :=
  match d with
  | [] => None
  | (k, v) :: d' => if String.eqb name k then Some v else lookup name d'
  end.

Definition M (A : Type) : Type := state -> res A * state.

Definition ret {A : Type} (a : A) : M A := fun s => (Ok a, s).

Definition raise {A : Type} (e : exn) : M A := fun s => (Raise e, s).

Definition bindM {A B : Type} (c : M A) (k : A -> M B) : M B :=
  fun s =>
    match c s with
    | (Ok a, s') => k a s'
    | (Raise e, s') => (Raise e, s')
    end.

Definition lift {A : Type} (c : res A) : M A := fun s => (c, s).

Declare Scope m_scope.
Delimit Scope m_scope with M.
Notation "x <~ c ;; k" := (bindM c (fun x => k))
  (at level 61, c at next level, right associativity) : m_scope.
Notation "c ;;; k" := (bindM c (fun _ => k))
  (at level 61, right associativity) : m_scope.
Local Open Scope m_scope.

Definition getattr (name : string) : M value :=
  fun s =>
    match lookup name (obj s) with
    | Some v => (Ok v, s)
    | None => (Raise AttributeError, s)
    end.

Definition setattr (name : string) (v : value) : M unit :=
  fun s => (Ok tt, mkState ((name, v) :: obj s) (logged s)).

(** [logger.warning(msg)] *)
Definition warning (msg : string) : M unit :=
  fun s => (Ok tt, mkState (obj s) (logged s ++ [msg])).

(** What the methods expect of the values they read. *)
Definition as_complex_array (v : value) : res (list complex) :=
  match v with
  | VComplexArray a => Ok a
  | _ => Raise TypeError
  end.

Definition as_float_array (v : value) : res (list float) :=
  match v with
  | VFloatArray a => Ok a
  | _ => Raise TypeError
  end.

Definition as_float (v : value) : res float :=
  match v with
  | VFloat x => Ok x
  | VInt z => Ok (F64.of_Z z)
  | VBool b => Ok (if b then F64.one else F64.zero)
  | _ => Raise TypeError
  end.

(** Truth value of an object in an [if]. *)
Definition truthy (v : value) : res bool :=
  match v with
  | VNone => Ok false
  | VBool b => Ok b
  | VInt z => Ok (negb (z =? 0))
  | VFloat x => Ok (negb (F64.is_zero x))
  | VComplexArray [] | VFloatArray [] | VIntArray [] => Ok false
  | VComplexArray [z] => Ok (negb (F64.is_zero (re z) && F64.is_zero (im z)))
  | VFloatArray [x] => Ok (negb (F64.is_zero x))
  | VIntArray [z] => Ok (negb (z =? 0))
  | VComplexArray _ | VFloatArray _ | VIntArray _ => Raise ValueError
  | VArrayFun _ | VScalarFun _ | VObject _ => Ok true
  end.

(** ** The rejection engine: [_discard_spurious_eigenvalues]

    Two NumPy routines are taken as they are: [np.abs] on a complex128 (the
    C library's [hypot]) and [np.argsort] with its default [kind]. *)

Section Rejection.

Variable np_abs : complex -> float.
Variable np_argsort : list float -> list nat.

(** [a[np.argsort(a[:, 0].real)]] *)
Definition sort_by_real (a : ndarray) : res ndarray :=
  c0 <- column a 0 ;;
  take a (map Z.of_nat (np_argsort (map re c0))).

(** [np.abs(ev[i] - ev[j])] *)
Definition spacing (ev : list complex) (i j : Z) : res float :=
  a <- Np.getitem ev i ;;
  b <- Np.getitem ev j ;;
  Ok (np_abs (csub a b)).

(** Lines 352-355: the local spacings. *)
Definition compute_sigmas (eval_low_sorted : list complex) : res (list float) :=
  let sigmas := Np.zeros (Np.len eval_low_sorted) in
  s0 <- spacing eval_low_sorted 0 1 ;;
  sigmas <- Np.setitem sigmas 0 s0 ;;
  mid <- mapM (fun j =>
                 a <- spacing eval_low_sorted j (j - 1) ;;
                 b <- spacing eval_low_sorted (j + 1) j ;;
                 Ok (F64.mul F64.half (F64.add a b)))
              (Np.range 1 (Np.len eval_low_sorted - 1)) ;;
  sigmas <- Np.setslice sigmas 1 (-1) mid ;;
  sl <- spacing eval_low_sorted (-2) (-1) ;;
  Np.setitem sigmas (-1) sl.

(** Line 361: the ordinal delta, position by position. *)
Definition ordinal_delta (eval_low_sorted eval_hi_sorted : list complex)
           (sigmas : list float) : res (list float) :=
  mapM (fun j =>
          a <- Np.getitem eval_low_sorted j ;;
          b <- Np.getitem eval_hi_sorted j ;;
          s <- Np.getitem sigmas j ;;
          Ok (F64.div (np_abs (csub a b)) s))
       (Np.range 0 (Np.len eval_low_sorted)).

(** Line 364: the nearest delta, a minimum over the high-resolution values. *)
Definition nearest_delta (eval_low_sorted eval_hi_sorted : list complex)
           (sigmas : list float) : res (list float) :=
  mapM (fun j =>
          a <- Np.getitem eval_low_sorted j ;;
          s <- Np.getitem sigmas j ;;
          Np.nanmin (map (fun h => F64.div (np_abs (csub a h)) s) eval_hi_sorted))
       (Np.range 0 (Np.len eval_low_sorted)).

Definition sigma_warning : string :=
  "At least one eigenvalue spacings (sigmas) is non-finite (np.inf or np.nan)!".

Definition _discard_spurious_eigenvalues : M (list complex * list Z) :=
  v_low <~ getattr "evalues_low" ;;
  v_hi <~ getattr "evalues_high" ;;
  eval_low <~ lift (as_complex_array v_low) ;;
  let reverse_eval_low_indx := Np.arange (Np.len eval_low) in
  eval_hi <~ lift (as_complex_array v_hi) ;;
  let reverse_eval_hi_indx := Np.arange (Np.len eval_hi) in
  let eval_low_and_indx := asarray_zip eval_low reverse_eval_low_indx in
  let eval_hi_and_indx := asarray_zip eval_hi reverse_eval_hi_indx in
  eval_low_and_indx <~ lift (getitem_mask eval_low_and_indx (map Np.isfinite eval_low)) ;;
  eval_hi_and_indx <~ lift (getitem_mask eval_hi_and_indx (map Np.isfinite eval_hi)) ;;
  eval_low_and_indx <~ lift (sort_by_real eval_low_and_indx) ;;
  eval_hi_and_indx <~ lift (sort_by_real eval_hi_and_indx) ;;
  eval_low_sorted <~ lift (column eval_low_and_indx 0) ;;
  eval_hi_sorted <~ lift (column eval_hi_and_indx 0) ;;
  sigmas <~ lift (compute_sigmas eval_low_sorted) ;;
  (if negb (forallb F64.is_finite sigmas) then warning sigma_warning else ret tt) ;;;
  d_ord <~ lift (ordinal_delta eval_low_sorted eval_hi_sorted sigmas) ;;
  setattr "delta_ordinal" (VFloatArray d_ord) ;;;
  d_near <~ lift (nearest_delta eval_low_sorted eval_hi_sorted sigmas) ;;
  setattr "delta_near" (VFloatArray d_near) ;;;
  v_uo <~ getattr "use_ordinal" ;;
  use_ordinal <~ lift (truthy v_uo) ;;
  v_delta <~ getattr (if use_ordinal then "delta_ordinal" else "delta_near") ;;
  delta <~ lift (as_float_array v_delta) ;;
  let inverse_drift := map (F64.div F64.one) delta in
  v_thr <~ getattr "drift_threshold" ;;
  drift_threshold <~ lift (as_float v_thr) ;;
  let accept := map (fun x => F64.ltb drift_threshold x) inverse_drift in
  eval_low_and_indx <~ lift (take eval_low_and_indx (Np.where_ accept)) ;;
  eval_low <~ lift (column eval_low_and_indx 0) ;;
  c1 <~ lift (column eval_low_and_indx 1) ;;
  let indx := map (fun c => F64.to_int (re c)) c1 in
  ret (eval_low, indx).

(** [_reject_spurious] *)
Definition _reject_spurious : M unit :=
  r <~ _discard_spurious_eigenvalues ;;
  let '(evg, indx) := r in
  setattr "evalues_good" (VComplexArray evg) ;;;
  setattr "evalues_index" (VIntArray indx) ;;;
  v <~ getattr "evalues_good" ;;
  setattr "evalues" v.

End Rejection.

(** ** [Eigenproblem]: construction, [solve] and [growth_rate]

    The Dedalus solvers and [tools.update_EVP_params] are outside the class:
    [run name sparse] is what [solve_sparse] or [solve_dense] leaves in
    [solver.eigenvalues] for the solver bound to attribute [name], or the
    exception it raises; [update_EVP_params] is the outcome of one parameter
    update. *)

Section Eigenproblem.

Variable np_abs : complex -> float.
Variable np_argsort : list float -> list nat.
Variable run : string -> bool -> res (list complex).
Variable update_EVP_params : string -> string -> value -> res unit.

(** [_build_hires] leaves the shadow problem and its solver on the instance. *)
Definition _build_hires : M unit :=
  setattr "EVP_hires" (VObject "EVP_hires") ;;;
  setattr "hires_solver" (VObject "hires_solver").

Definition __init__ (reject : value) (factor scales drift_threshold : value)
           (use_ordinal : value) (grow_func freq_func : value) : M unit :=
  setattr "reject" reject ;;;
  setattr "factor" factor ;;;
  setattr "EVP" (VObject "EVP") ;;;
  setattr "solver" (VObject "solver") ;;;
  v <~ getattr "reject" ;;
  b <~ lift (truthy v) ;;
  (if b then _build_hires else ret tt) ;;;
  setattr "grid_name" (VObject "grid_name") ;;;
  setattr "evalues" VNone ;;;
  setattr "evalues_low" VNone ;;;
  setattr "evalues_high" VNone ;;;
  setattr "drift_threshold" drift_threshold ;;;
  setattr "use_ordinal" use_ordinal ;;;
  setattr "scales" scales ;;;
  setattr "grow_func" grow_func ;;;
  setattr "freq_func" freq_func.

(** The defaults of the constructor. *)
Definition f_1_5 : float := Eval vm_compute in F64.div (F64.of_Z 3) (F64.of_Z 2).
Definition f_1e6 : float := Eval vm_compute in F64.of_Z 1000000.
Definition default_factor : value := VFloat f_1_5.
Definition default_scales : value := VInt 1.
Definition default_drift_threshold : value := VFloat f_1e6.
Definition default_grow_func : value := VArrayFun (map re).
Definition default_freq_func : value := VScalarFun im.

Definition empty_state : state := mkState [] [].

(** The instance a constructor call leaves behind. *)
Definition new (reject : value) (factor scales drift_threshold : value)
           (use_ordinal : value) (grow_func freq_func : value) : state :=
  snd (__init__ reject factor scales drift_threshold use_ordinal
                grow_func freq_func empty_state).

Fixpoint _set_parameters (parameters : list (string * value)) : M unit :=
  match parameters with
  | [] => ret tt
  | (k, v) :: rest =>
      lift (update_EVP_params "EVP" k v) ;;;
      r <~ getattr "reject" ;;
      b <~ lift (truthy r) ;;
      (if b then lift (update_EVP_params "EVP_hires" k v) else ret tt) ;;;
      _set_parameters rest
  end.

(** [_run_solver(solver, sparse)] for the solver bound to attribute [name]. *)
Definition _run_solver (name : string) (sparse : bool) : M unit :=
  getattr name ;;;
  ev <~ lift (run name sparse) ;;
  setattr (name ++ ".eigenvalues") (VComplexArray ev).

Definition array_len (v : value) : res Z :=
  match v with
  | VComplexArray a => Ok (Np.len a)
  | VFloatArray a => Ok (Np.len a)
  | VIntArray a => Ok (Np.len a)
  | _ => Raise TypeError
  end.

Definition solve (sparse : bool) (parameters : option (list (string * value)))
           (pencil N target : value) : M unit :=
  (match parameters with
   | Some (p :: ps) => _set_parameters (p :: ps)
   | _ => ret tt
   end) ;;;
  setattr "pencil" pencil ;;;
  setattr "N" N ;;;
  setattr "target" target ;;;
  setattr "solver_kwargs" (VObject "kwargs") ;;;
  _run_solver "solver" sparse ;;;
  ev <~ getattr "solver.eigenvalues" ;;
  setattr "evalues_low" ev ;;;
  r <~ getattr "reject" ;;
  reject <~ lift (truthy r) ;;
  if reject then
    _run_solver "hires_solver" sparse ;;;
    ev <~ getattr "hires_solver.eigenvalues" ;;
    setattr "evalues_high" ev ;;;
    _reject_spurious np_abs np_argsort
  else
    v <~ getattr "evalues_lowres" ;;
    setattr "evalues" v ;;;
    v <~ getattr "evalues" ;;
    n <~ lift (array_len v) ;;
    setattr "evalues_index" (VIntArray (Np.arange n)).

(** [try: body except classes_1: h_1 except classes_2: h_2 ...] *)
Definition try_except {A : Type} (body : M A)
           (handlers : list (list exn * M A)) : M A :=
  fun s =>
    match body s with
    | (Ok a, s') => (Ok a, s')
    | (Raise e, s') =>
        match find (fun h => existsb (Py.isinstance e) (fst h)) handlers with
        | Some h => snd h s'
        | None => (Raise e, s')
        end
    end.

(** Names visible in the body of [growth_rate]: its parameters and the
    names bound at module level.  No builtin is called [params]. *)
Definition growth_rate_locals : list string := ["self"; "parameters"; "kwargs"].

Definition module_globals : list string :=
  ["CachedAttribute"; "logging"; "Field"; "Evaluator"; "FieldSystem";
   "merge_process_files"; "de"; "plt"; "np"; "interp1d"; "scipy"; "tools";
   "logger"; "Eigenproblem"].

Definition load_name (scope : list string) (name : string) : M value :=
  if existsb (String.eqb name) scope then ret (VObject name) else raise NameError.

Definition as_array_fun (v : value) : res (list complex -> list float) :=
  match v with
  | VArrayFun f => Ok f
  | _ => Raise TypeError
  end.

Definition as_scalar_fun (v : value) : res (complex -> float) :=
  match v with
  | VScalarFun f => Ok f
  | _ => Raise TypeError
  end.

(** [grow_func] applied to [self.evalues]. *)
Definition grow_of_evalues : M (list float) :=
  g <~ getattr "grow_func" ;;
  ev <~ getattr "evalues" ;;
  f <~ lift (as_array_fun g) ;;
  a <~ lift (as_complex_array ev) ;;
  ret (f a).

Definition nan3 : value * value * value :=
  (VFloat F64.nan, VFloat F64.nan, VFloat F64.nan).

(** The two handlers log a message built from the name [params]. *)
Definition failure_handler (msg : string) : M (value * value * value) :=
  load_name (growth_rate_locals ++ module_globals) "params" ;;;
  warning msg ;;;
  ret nan3.

Definition growth_rate (sparse : bool) (parameters : option (list (string * value)))
           (pencil N target : value) : M (value * value * value) :=
  try_except
    (solve sparse parameters pencil N target ;;;
     g <~ grow_of_evalues ;;
     gr_rate <~ lift (Np.amax g) ;;
     g <~ grow_of_evalues ;;
     let gr_indx := Np.where_ (map (fun x => F64.eqb x gr_rate) g) in
     ff <~ getattr "freq_func" ;;
     ev <~ getattr "evalues" ;;
     i0 <~ lift (Np.getitem gr_indx 0) ;;
     a <~ lift (as_complex_array ev) ;;
     e <~ lift (Np.getitem a i0) ;;
     f <~ lift (as_scalar_fun ff) ;;
     let freq := f e in
     i0 <~ lift (Np.getitem gr_indx 0) ;;
     ret (VFloat gr_rate, VInt i0, VFloat freq))
    [([LinAlgError],
      failure_handler "Dense eigenvalue solver failed for parameters {}");
     ([ArpackNoConvergence; ArpackError],
      failure_handler "Sparse eigenvalue solver failed to converge for parameters {}")].

End Eigenproblem.

(** ** Mode selection: [_set_eigenmode] and [eigenmode]

    [solver.set_state] and the fields' [set_scales] belong to Dedalus:
    [set_state i] is the effect of [self.solver.set_state(i)],
    [set_scales f s] the effect of [f.set_scales(s, keep_data=True)] on the
    field named [f], and [fields] lists [self.solver.state.fields]. *)

Definition as_int_array (v : value) : res (list Z) :=
  match v with
  | VIntArray a => Ok a
  | _ => Raise TypeError
  end.

Section Modes.

Variable set_state : Z -> M unit.
Variable fields : list string.
Variable set_scales : string -> value -> M unit.

Definition _set_eigenmode (index : Z) (all_modes : bool) : M unit :=
  good_index <~ (if all_modes then ret index
                 else
                   v <~ getattr "evalues_index" ;;
                   a <~ lift (as_int_array v) ;;
                   lift (Np.getitem a index)) ;;
  getattr "solver" ;;;
  set_state good_index.

(** [for f in self.solver.state.fields: f.set_scales(self.scales, keep_data=True)] *)
Fixpoint rescale_fields (fs : list string) : M unit :=
  match fs with
  | [] => ret tt
  | f :: fs' =>
      s <~ getattr "scales" ;;
      set_scales f s ;;;
      rescale_fields fs'
  end.

(** [scales] is [VNone] when the argument is left out. *)
Definition eigenmode (index : Z) (scales : value) (all_modes : bool) : M value :=
  _set_eigenmode index all_modes ;;;
  (match scales with
   | VNone => ret tt
   | _ => setattr "scales" scales
   end) ;;;
  getattr "solver" ;;;
  rescale_fields fields ;;;
  getattr "solver" ;;;
  ret (VObject "solver.state").

End Modes.

(** ** The pseudospectrum loop: [_pseudo]

    [np.linalg.norm(A, ord)] is taken as it is.  [L] is a square matrix (so
    says the docstring); a row of another length is reported as a
    [ValueError] here, broadcasting is not modelled. *)

Definition matrix : Type := list (list complex).

Definition enumerate {A : Type} (xs : list A) : list (Z * A) :=
  combine (Np.arange (Np.len xs)) xs.

Fixpoint foldM {A S : Type} (f : S -> A -> res S) (xs : list A) (s : S) : res S :=
  match xs with
  | [] => Ok s
  | x :: xs' => s' <- f s x ;; foldM f xs' s'
  end.

(** [np.eye(n)], [z*E] for a complex scalar and a real matrix, [A - B]. *)
Definition eye (n : Z) : list (list float) :=
  map (fun r => map (fun c => if r =? c then F64.one else F64.zero) (Np.arange n))
      (Np.arange n).

Definition scale (z : complex) (E : list (list float)) : matrix :=
  map (map (fun e => cmul z (c_of_float e))) E.

Definition sub_rows (a b : list complex) : res (list complex) :=
  if Nat.eqb (List.length a) (List.length b)
  then Ok (map (fun p => csub (fst p) (snd p)) (combine a b))
  else Raise ValueError.

Definition sub_matrix (A B : matrix) : res matrix :=
  if Nat.eqb (List.length A) (List.length B)
  then mapM (fun p => sub_rows (fst p) (snd p)) (combine A B)
  else Raise ValueError.

(** [R[j, i] = v] *)
Definition setitem2 (R : list (list float)) (j i : Z) (v : float)
  : res (list (list float)) :=
  r <- Np.getitem R j ;;
  r' <- Np.setitem r i v ;;
  Np.setitem R j r'.

(** [x + 1j*y] *)
Definition grid_point (x y : float) : complex :=
  cadd (c_of_float x) (cmul (mkC F64.zero F64.one) (c_of_float y)).

Section Pseudo.

Variable linalg_norm : matrix -> Z -> float.

(** The loop, with the assignments [R[j, i] = ...] it performs listed in
    the order of execution next to the array. *)
Definition pseudo_loop (L : matrix) (zgrid : list float * list float) (norm : Z)
  : res (list (list float) * list (Z * Z)) :=
  let xx := fst zgrid in
  let yy := snd zgrid in
  let R := repeat (Np.zeros (Np.len yy)) (Z.to_nat (Np.len xx)) in
  let matsize := Np.len L in
  foldM (fun st jy =>
           foldM (fun st ix =>
                    let z := grid_point (snd ix) (snd jy) in
                    A <- sub_matrix (scale z (eye matsize)) L ;;
                    R' <- setitem2 (fst st) (fst jy) (fst ix) (linalg_norm A norm) ;;
                    Ok (R', snd st ++ [(fst jy, fst ix)]))
                 (enumerate xx) st)
        (enumerate yy) (R, []).

Definition _pseudo (L : matrix) (zgrid : list float * list float) (norm : Z)
  : res (list (list float)) :=
  r <- pseudo_loop L zgrid norm ;; Ok (fst r).

(** The default of the [norm] parameter, used by [calc_ps]. *)
Definition norm_default : Z := -2.

(** The last step of [calc_ps]: [R = self._pseudo(Gmu, zgrid)]. *)
Definition calc_ps_grid (Gmu : matrix) (zgrid : list float * list float)
  : res (list (list float)) :=
  _pseudo Gmu zgrid norm_default.

End Pseudo.

(** ** Figures: [spectrum] and [plot_drift_ratios]

    A matplotlib figure is the list of the calls made on it and on its
    axes, in order. *)

Inductive draw : Type :=
| Scatter (x y : list float)
| Semilogy (x : list Z) (y : list float) (fmt : string) (label : option string)
| Axhline (y : float)
| SetXscale (s : string)
| SetYscale (s : string)
| SetXlabel (s : string)
| SetYlabel (s : string)
| SetPropCycle
| Legend
| TightLayout
| Savefig (fname : string).

Definition figure : Type := list draw.

(** [v.real] and [v.imag] of an attribute value; [None] has neither. *)
Definition real_imag (v : value) : res (list float * list float) :=
  match v with
  | VComplexArray a => Ok (map re a, map im a)
  | VFloatArray a => Ok (a, map (fun _ => F64.zero) a)
  | VIntArray a => Ok (map F64.of_Z a, map (fun _ => F64.zero) a)
  | VFloat x => Ok ([x], [F64.zero])
  | VInt z => Ok ([F64.of_Z z], [F64.zero])
  | VBool b => Ok ([if b then F64.one else F64.zero], [F64.zero])
  | VNone | VArrayFun _ | VScalarFun _ | VObject _ => Raise AttributeError
  end.

Definition spectrum (figtitle spectype : string) (xlog ylog : bool)
           (real_label imag_label : string) : M figure :=
  ev <~ (if String.eqb spectype "low" then getattr "evalues_low"
         else if String.eqb spectype "high" then getattr "evalues_high"
         else if String.eqb spectype "good" then getattr "evalues_good"
         else raise ValueError) ;;
  ri <~ lift (real_imag ev) ;;
  ret ([Scatter (fst ri) (snd ri)]
       ++ (if xlog then [SetXscale "symlog"] else [])
       ++ (if ylog then [SetYscale "symlog"] else [])
       ++ [SetXlabel real_label; SetYlabel imag_label; TightLayout;
           Savefig (figtitle ++ "_spectrum_" ++ spectype ++ ".png")]).

(** What a call of [plot_drift_ratios] does: it returns, it raises one of
    the exceptions of [Py.exn], or it raises [NotImplementedError]. *)
Inductive outcome (A : Type) : Type :=
| Returns (a : A)
| Raises (e : exn)
| RaisesNotImplementedError.

Arguments Returns {A} a.
Arguments Raises {A} e.
Arguments RaisesNotImplementedError {A}.

(** [v is False] *)
Definition is_False (v : value) : bool :=
  match v with
  | VBool false => true
  | _ => false
  end.

(** [a[mask]] on an array with one axis. *)
Definition getitem_mask1 {A : Type} (a : list A) (mask : list bool) : res (list A) :=
  if Nat.eqb (List.length mask) (List.length a)
  then Ok (Np.compress mask a) else Raise IndexError.

(** [ax.semilogy(x, y, fmt, label=label)]: [x] and [y] must agree in length. *)
Definition semilogy (x : list Z) (y : list float) (fmt : string) (label : option string)
  : res draw :=
  if Nat.eqb (List.length x) (List.length y)
  then Ok (Semilogy x y fmt label) else Raise ValueError.

(** [1/self.<name>] and [1/self.<name> > self.drift_threshold] *)
Definition inverse_of (name : string) : M (list float) :=
  v <~ getattr name ;;
  d <~ lift (as_float_array v) ;;
  ret (map (F64.div F64.one) d).

Definition good_of (name : string) : M (list bool) :=
  inv <~ inverse_of name ;;
  v <~ getattr "drift_threshold" ;;
  thr <~ lift (as_float v) ;;
  ret (map (fun x => F64.ltb thr x) inv).

(** [ax.semilogy(mode_numbers[good], 1/self.<name>[good], fmt, label=label)] *)
Definition highlighted (mode_numbers : list Z) (good : list bool) (name : string)
           (fmt label : string) : M draw :=
  x <~ lift (getitem_mask1 mode_numbers good) ;;
  v <~ getattr name ;;
  d <~ lift (as_float_array v) ;;
  dg <~ lift (getitem_mask1 d good) ;;
  lift (semilogy x (map (F64.div F64.one) dg) fmt (Some label)).

(** Lines 387-403. *)
Definition plot_drift_ratios_body : M figure :=
  v <~ getattr "delta_near" ;;
  n <~ lift (array_len v) ;;
  let mode_numbers := Np.arange n in
  y1 <~ inverse_of "delta_near" ;;
  s1 <~ lift (semilogy mode_numbers y1 "o" None) ;;
  y2 <~ inverse_of "delta_ordinal" ;;
  s2 <~ lift (semilogy mode_numbers y2 "x" None) ;;
  good_near <~ good_of "delta_near" ;;
  good_ordinal <~ good_of "delta_ordinal" ;;
  s3 <~ highlighted mode_numbers good_near "delta_near" "o" "nearest" ;;
  s4 <~ highlighted mode_numbers good_ordinal "delta_ordinal" "x" "ordinal" ;;
  v <~ getattr "drift_threshold" ;;
  thr <~ lift (as_float v) ;;
  ret [s1; s2; SetPropCycle; s3; s4; Axhline thr;
       SetXlabel "mode number"; SetYlabel "$1/\delta$"; Legend].

Definition plot_drift_ratios (st : state) : outcome figure :=
  match getattr "reject" st with
  | (Raise e, _) => Raises e
  | (Ok r, _) =>
      if is_False r then RaisesNotImplementedError
      else
        match plot_drift_ratios_body st with
        | (Ok fig, _) => Returns fig
        | (Raise e, _) => Raises e
        end
  end.

(** * The example script [examples/rayleigh_benard_2d.py]

    Lines 22-28: the name under which the grid of growth rates is loaded
    and saved, computed from the path of the script. *)

Module Example.

(** [c in chars] *)
Fixpoint mem (c : Ascii.ascii) (chars : string) : bool :=
  match chars with
  | EmptyString => false
  | String d chars' => Ascii.eqb c d || mem c chars'
  end.

(** [s.lstrip(chars)], [s.rstrip(chars)] and [s.strip(chars)]: the leading
    and the trailing characters that occur in [chars] are removed. *)
Fixpoint lstrip (chars s : string) : string :=
  match s with
  | EmptyString => EmptyString
  | String c s' => if mem c chars then lstrip chars s' else s
  end.

Fixpoint rstrip (chars s : string) : string :=
  match s with
  | EmptyString => EmptyString
  | String c s' =>
      match rstrip chars s' with
      | EmptyString => if mem c chars then EmptyString else String c EmptyString
      | r => String c r
      end
  end.

Definition strip (chars s : string) : string := rstrip chars (lstrip chars s).

Definition no_slip : bool := false.
Definition stress_free : bool := true.

(** [file_name] once line 28 has run, for [sys.argv[0] = argv0]. *)
Definition file_name (argv0 : string) : string :=
  let file_name := strip ".py" argv0 in
  if no_slip then file_name ++ "_no_slip"
  else if stress_free then file_name ++ "_stress_free"
  else file_name.

(** Every character of [s] occurs in [chars]. *)
Fixpoint all_in (chars s : string) : bool :=
  match s with
  | EmptyString => true
  | String c s' => mem c chars && all_in chars s'
  end.

(** [s] is not empty and its first character does not occur in [chars];
    the same of its last character. *)
Definition first_out (chars s : string) : bool :=
  match s with
  | EmptyString => false
  | String c _ => negb (mem c chars)
  end.

Fixpoint last_out (chars s : string) : bool :=
  match s with
  | EmptyString => false
  | String c EmptyString => negb (mem c chars)
  | String _ s' => last_out chars s'
  end.

End Example.

(** ** Instances of the NumPy routines, for evaluation

    [hypot]: the square root of the sum of the two squares, the sum being
    exact and the root rounded once, so that no square overflows or
    underflows on the way; an infinite part gives [+inf] even beside a
    NaN, as C99 asks; [hypot(x, 0) = |x|]. *)
Definition hypot (x y : float) : float :=
  match x, y with
  | S754_infinity _, _ | _, S754_infinity _ => F64.inf
  | S754_nan, _ | _, S754_nan => F64.nan
  | S754_zero _, _ => F64.abs y
  | _, S754_zero _ => F64.abs x
  | S754_finite _ mx ex, S754_finite _ my ey =>
      let e := Z.min ex ey in
      F64.sqrt (S754_finite false
                  (Z.to_pos (Z.pos mx ^ 2 * 2 ^ (2 * (ex - e))
                             + Z.pos my ^ 2 * 2 ^ (2 * (ey - e))))
                  (2 * e))
  end.

Definition cabs (z : complex) : float := hypot (re z) (im z).

(** The norms of a diagonal matrix: its singular values are the moduli of
    the diagonal entries, [ord=2] is the largest of them and [ord=-2] the
    smallest.  Other matrices and orders are not evaluated (NaN). *)
Definition is_diagonal (A : matrix) : bool :=
  forallb (fun p =>
             forallb (fun q => (fst p =? fst q) || (F64.is_zero (cabs (snd q))))
                     (enumerate (snd p)))
          (enumerate A).

Definition diagonal (A : matrix) : list complex :=
  map (fun p => nth (Z.to_nat (fst p)) (snd p) (c_of_float F64.zero)) (enumerate A).

Definition fmax2 (x y : float) : float := if F64.leb y x then x else y.
Definition fmin2 (x y : float) : float := if F64.leb x y then x else y.

Definition diag_norm (A : matrix) (ord : Z) : float :=
  if is_diagonal A then
    match map cabs (diagonal A), ord with
    | s :: ss, 2 => fold_left fmax2 ss s
    | s :: ss, -2 => fold_left fmin2 ss s
    | _, _ => F64.nan
    end
  else F64.nan.

(** [np.argsort] of a float64 array with the default [kind] ('quicksort'):
    NumPy's [aquicksort] on an index array, an introsort that partitions
    around a median of three while a range holds more than 16 entries and
    finishes each range by insertion.  The fall-back to heapsort once the
    depth limit is used up is left out: [None] is returned there, as it is
    when the fuel runs out. *)

Module NpySort.

Definition SMALL_QUICKSORT : nat := 15.

(** The order on doubles that puts NaN last. *)
Definition less (a b : float) : bool :=
  F64.ltb a b || (F64.is_nan b && negb (F64.is_nan a)).

Definition key (v : list float) (tosort : list nat) (p : nat) : float :=
  nth (nth p tosort O) v F64.nan.

Definition swap (tosort : list nat) (a b : nat) : list nat :=
  Np.update (Np.update tosort a (nth b tosort O)) b (nth a tosort O).

(** Swap the entries at [a] and [b] when the key at [a] is less than the
    key at [b]. *)
Definition swap_if_less (v : list float) (tosort : list nat) (a b : nat) : list nat :=
  if less (key v tosort a) (key v tosort b) then swap tosort a b else tosort.

(** [do ++pi; while] the key at [pi] is less than [vp]. *)
Fixpoint scan_up (fuel : nat) (v : list float) (tosort : list nat)
         (vp : float) (pi : nat) : nat :=
  match fuel with
  | O => pi
  | S fuel' =>
      let pi' := S pi in
      if less (key v tosort pi') vp then scan_up fuel' v tosort vp pi' else pi'
  end.

(** [do --pj; while] [vp] is less than the key at [pj]. *)
Fixpoint scan_down (fuel : nat) (v : list float) (tosort : list nat)
         (vp : float) (pj : nat) : nat :=
  match fuel with
  | O => pj
  | S fuel' =>
      let pj' := Nat.pred pj in
      if less vp (key v tosort pj') then scan_down fuel' v tosort vp pj' else pj'
  end.

(** The [for (;;)] of the partition: the permuted indices and the final [pi]. *)
Fixpoint partition_loop (fuel : nat) (v : list float) (tosort : list nat)
         (vp : float) (pi pj : nat) : list nat * nat :=
  match fuel with
  | O => (tosort, pi)
  | S fuel' =>
      let pi' := scan_up (List.length tosort) v tosort vp pi in
      let pj' := scan_down (List.length tosort) v tosort vp pj in
      if Nat.leb pj' pi' then (tosort, pi')
      else partition_loop fuel' v (swap tosort pi' pj') vp pi' pj'
  end.

Definition partition (v : list float) (tosort : list nat) (pl pr : nat)
  : list nat * nat :=
  let pm := (pl + Nat.div2 (pr - pl))%nat in
  let t := swap_if_less v tosort pm pl in
  let t := swap_if_less v t pr pm in
  let t := swap_if_less v t pm pl in
  let vp := key v t pm in
  let t := swap t pm (pr - 1) in
  let '(t, pi) := partition_loop (List.length t) v t vp pl (pr - 1) in
  (swap t pi (pr - 1), pi).

(** While [pj > pl] and [vp] is less than the key at [pj - 1], the entry
    at [pj - 1] moves up to [pj]; then [vi] is stored at [pj]. *)
Fixpoint insert_at (fuel : nat) (v : list float) (tosort : list nat)
         (vp : float) (vi : nat) (pl pj : nat) : list nat :=
  match fuel with
  | O => Np.update tosort pj vi
  | S fuel' =>
      if Nat.ltb pl pj && less vp (key v tosort (pj - 1))
      then insert_at fuel' v (Np.update tosort pj (nth (pj - 1) tosort O)) vp vi pl (pj - 1)
      else Np.update tosort pj vi
  end.

(** [for (pi = pl + 1; pi <= pr; ++pi)], [count] iterations from [pi]. *)
Fixpoint insertion (count : nat) (v : list float) (tosort : list nat)
         (pl pi : nat) : list nat :=
  match count with
  | O => tosort
  | S count' =>
      let vi := nth pi tosort O in
      let t := insert_at (List.length tosort) v tosort (nth vi v F64.nan) vi pl pi in
      insertion count' v t pl (S pi)
  end.

(** The inner [while ((pr - pl) > SMALL_QUICKSORT)]: the smaller part is
    continued with, the larger one is pushed with the depth left. *)
Fixpoint partition_while (fuel : nat) (v : list float) (tosort : list nat)
         (pl pr : nat) (cdepth : Z) (stack : list (nat * nat * Z))
  : list nat * nat * nat * Z * list (nat * nat * Z) :=
  match fuel with
  | O => (tosort, pl, pr, cdepth, stack)
  | S fuel' =>
      if Nat.ltb SMALL_QUICKSORT (pr - pl) then
        let '(t, pi) := partition v tosort pl pr in
        let cdepth' := cdepth - 1 in
        if Nat.ltb (pi - pl) (pr - pi)
        then partition_while fuel' v t pl (pi - 1) cdepth'
                             ((S pi, pr, cdepth') :: stack)
        else partition_while fuel' v t (S pi) pr cdepth'
                             ((pl, (pi - 1)%nat, cdepth') :: stack)
      else (tosort, pl, pr, cdepth, stack)
  end.

(** The outer [while (1)] with its stack of pending ranges. *)
Fixpoint sort_loop (fuel : nat) (v : list float) (tosort : list nat)
         (pl pr : nat) (cdepth : Z) (stack : list (nat * nat * Z))
  : option (list nat) :=
  match fuel with
  | O => None
  | S fuel' =>
      if cdepth <? 0 then None
      else
        let '(t, pl', pr', _, stack') :=
          partition_while (List.length tosort) v tosort pl pr cdepth stack in
        let t := insertion (S pr' - S pl') v t pl' (S pl') in
        match stack' with
        | [] => Some t
        | (pl'', pr'', cdepth'') :: rest => sort_loop fuel' v t pl'' pr'' cdepth'' rest
        end
  end.

Definition aquicksort (v : list float) : option (list nat) :=
  let num := List.length v in
  match num with
  | O => Some []
  | _ =>
      sort_loop (S num) v (seq 0 num) 0 (num - 1)
                (2 * Z.log2 (Z.of_nat num)) []
  end.

Definition argsort (v : list float) : list nat :=
  match aquicksort v with
  | Some t => t
  | None => []
  end.

End NpySort.

(** * Quantities the statements speak of *)

Definition czero : complex := mkC F64.zero F64.zero.

(** [ev[k]] for a position known to be in range. *)
Definition item (ev : list complex) (k : nat) : complex := nth k ev czero.

Definition drow : row := (czero, czero).

(** The rows of the tagged array, the ones with a finite eigenvalue, and
    how many of those there are. *)
Definition tag (p : complex * Z) : row := (fst p, c_of_Z (snd p)).

Definition tagged (ev : list complex) : list row :=
  map tag (combine ev (Np.arange (Np.len ev))).

Definition finite_rows (ev : list complex) : list row :=
  Np.compress (map Np.isfinite ev) (tagged ev).

Definition n_finite (ev : list complex) : nat :=
  List.length (filter Np.isfinite ev).

(** [p] lists every position below [n] once. *)
Definition is_permutation (p : list nat) (n : nat) : bool :=
  Nat.eqb (List.length p) n && forallb (fun k => existsb (Nat.eqb k) p) (seq 0 n).

(** No key is less than the key before it. *)
Fixpoint ascending (keys : list float) : bool :=
  match keys with
  | [] => true
  | x :: rest =>
      match rest with
      | [] => true
      | y :: _ => negb (F64.ltb y x) && ascending rest
      end
  end.

(** The attributes the engine reads. *)
Definition holds (st : state) (low hi : list complex) (uo : bool) (thr : float)
  : Prop :=
  lookup "evalues_low" (obj st) = Some (VComplexArray low) /\
  lookup "evalues_high" (obj st) = Some (VComplexArray hi) /\
  lookup "use_ordinal" (obj st) = Some (VBool uo) /\
  lookup "drift_threshold" (obj st) = Some (VFloat thr).

Definition inf_or_nan (x : float) : bool := F64.is_inf x || F64.is_nan x.
Definition zero_or_nan (x : float) : bool := F64.is_zero x || F64.is_nan x.

Section Quantities.

Variable np_abs : complex -> float.
Variable np_argsort : list float -> list nat.

(** The spacing of the specification, by position. *)
Definition sigma_spec (low : list complex) (j : nat) : float :=
  let n := List.length low in
  if Nat.eqb j 0 then np_abs (csub (item low 0) (item low 1))
  else if Nat.eqb j (n - 1) then np_abs (csub (item low (n - 2)) (item low (n - 1)))
  else F64.mul F64.half
         (F64.add (np_abs (csub (item low j) (item low (j - 1))))
                  (np_abs (csub (item low (j + 1)) (item low j)))).

Definition sort_keys (rows : list row) : list float := map re (map fst rows).

(** What [np.argsort] promises on the keys of [rows]: a permutation of
    the positions, and for the second one keys in ascending order. *)
Definition argsort_ok (rows : list row) : Prop :=
  is_permutation (np_argsort (sort_keys rows)) (List.length rows) = true.

Definition argsort_ascending (rows : list row) : Prop :=
  ascending (map (fun k => nth k (sort_keys rows) F64.nan)
                 (np_argsort (sort_keys rows))) = true.

Definition sort_rows (rows : list row) : list row :=
  map (fun k => nth k rows drow) (np_argsort (sort_keys rows)).

Definition sorted_rows (ev : list complex) : list row :=
  sort_rows (finite_rows ev).

Definition sorted_values (ev : list complex) : list complex :=
  map fst (sorted_rows ev).

Definition sigmas_of (low : list complex) : list float :=
  map (sigma_spec (sorted_values low))
      (seq 0 (List.length (sorted_values low))).

(** The drift ratios at sorted position [j]. *)
Definition ordinal_at (low_s hi_s : list complex) (sigmas : list float) (j : nat)
  : float :=
  F64.div (np_abs (csub (item low_s j) (item hi_s j))) (nth j sigmas F64.nan).

Definition ratios (low_s hi_s : list complex) (sigmas : list float) (j : nat)
  : list float :=
  map (fun h => F64.div (np_abs (csub (item low_s j) h)) (nth j sigmas F64.nan)) hi_s.

Definition fold_fmin (a : list float) : float :=
  match a with
  | [] => F64.nan
  | x :: a' => fold_left Np.fmin a' x
  end.

Definition nearest_at (low_s hi_s : list complex) (sigmas : list float) (j : nat)
  : float :=
  fold_fmin (ratios low_s hi_s sigmas j).

Definition delta_ordinal_of (low hi : list complex) : list float :=
  map (ordinal_at (sorted_values low) (sorted_values hi) (sigmas_of low))
      (seq 0 (List.length (sorted_values low))).

Definition delta_near_of (low hi : list complex) : list float :=
  map (nearest_at (sorted_values low) (sorted_values hi) (sigmas_of low))
      (seq 0 (List.length (sorted_values low))).

Definition inverse_drift (low hi : list complex) (use_ordinal : bool) : list float :=
  map (F64.div F64.one)
      (if use_ordinal then delta_ordinal_of low hi else delta_near_of low hi).

Definition accept_mask (low hi : list complex) (use_ordinal : bool) (thr : float)
  : list bool :=
  map (fun x => F64.ltb thr x) (inverse_drift low hi use_ordinal).

Definition kept_rows (low hi : list complex) (use_ordinal : bool) (thr : float)
  : list row :=
  Np.compress (accept_mask low hi use_ordinal thr) (sorted_rows low).

Definition sigma_log (low : list complex) : list string :=
  if forallb F64.is_finite (sigmas_of low) then [] else [sigma_warning].

(** The state a completed run of the engine leaves. *)
Definition final_state (st : state) (low hi : list complex) : state :=
  mkState (("delta_near", VFloatArray (delta_near_of low hi))
             :: ("delta_ordinal", VFloatArray (delta_ordinal_of low hi))
             :: obj st)
          (logged st ++ sigma_log low).

End Quantities.


(** ** The array of the pseudospectrum *)

(** [R[j][i]] *)
Definition get2 (R : list (list float)) (j i : nat) : option float :=
  match nth_error R j with
  | Some r => nth_error r i
  | None => None
  end.

(** [R] has [a] rows of [b] entries. *)
Definition rect (R : list (list float)) (a b : nat) : Prop :=
  List.length R = a /\ Forall (fun r => List.length r = b) R.

(** [z*np.eye(n) - L] for a square [L]. *)
Definition shift_matrix (z : complex) (L : matrix) : matrix :=
  map (fun p => map (fun q => csub (fst q) (snd q)) (combine (fst p) (snd p)))
      (combine (scale z (eye (Np.len L))) L).

Definition square (L : matrix) : Prop :=
  Forall (fun r => List.length r = List.length L) L.

(** The value the loop stores for the grid point [(x, y)]. *)
Definition stored (linalg_norm : matrix -> Z -> float) (L : matrix) (norm : Z)
           (x y : float) : float :=
  linalg_norm (shift_matrix (grid_point x y) L) norm.


(** ** Quantities of the further properties *)

(** The position column of the tagged array, read back as an integer. *)
Definition position (r : row) : Z := F64.to_int (re (snd r)).

(** The values a run of the engine returns, its exception otherwise. *)
Definition accepted_values (r : res (list complex * list Z)) : res (list complex) :=
  x <- r ;; Ok (fst x).

(** The sign bit is clear, or the value is a NaN. *)
Definition sign_clear (x : float) : bool :=
  match x with
  | S754_zero s | S754_infinity s | S754_finite s _ _ => negb s
  | S754_nan => true
  end.

(** [s'] binds every attribute outside [names] as [s] does; a computation
    that writes within [names]; one that, when it raises from a state
    satisfying [I], has written within [names]. *)
Definition same_except (names : list string) (s s' : state) : Prop :=
  forall n, ~ In n names -> lookup n (obj s') = lookup n (obj s).

Definition writes_within {A : Type} (names : list string) (c : M A) : Prop :=
  forall s, same_except names s (snd (c s)).

Definition raise_within {A : Type} (I : state -> Prop) (names : list string) (c : M A)
  : Prop :=
  forall s e, I s -> fst (c s) = Raise e -> same_except names s (snd (c s)).

(** The attributes [solve] binds before the rejection publishes its result. *)
Definition solve_scratch : list string :=
  ["pencil"; "N"; "target"; "solver_kwargs"; "solver.eigenvalues"; "evalues_low";
   "hires_solver.eigenvalues"; "evalues_high"; "delta_ordinal"; "delta_near"].

(** An instance on which [solve] runs the rejection. *)
Definition rejecting (st : state) (uo : bool) (thr : float) : Prop :=
  (exists r, lookup "reject" (obj st) = Some r /\ truthy r = Ok true) /\
  (exists s, lookup "solver" (obj st) = Some s) /\
  (exists s, lookup "hires_solver" (obj st) = Some s) /\
  lookup "use_ordinal" (obj st) = Some (VBool uo) /\
  lookup "drift_threshold" (obj st) = Some (VFloat thr).

(** The attributes of an instance fresh from the constructor, [b] being
    the truth value of [reject]. *)
Definition fresh_obj (reject : value) (b : bool)
           (factor scales drift_threshold use_ordinal grow_func freq_func : value)
  : list (string * value) :=
  [("freq_func", freq_func); ("grow_func", grow_func); ("scales", scales);
   ("use_ordinal", use_ordinal); ("drift_threshold", drift_threshold);
   ("evalues_high", VNone); ("evalues_low", VNone); ("evalues", VNone);
   ("grid_name", VObject "grid_name")]
  ++ (if b then [("hires_solver", VObject "hires_solver");
                 ("EVP_hires", VObject "EVP_hires")] else [])
  ++ [("solver", VObject "solver"); ("EVP", VObject "EVP");
      ("factor", factor); ("reject", reject)].

(** The instance after a [solve] that ran the rejection to its end. *)
Definition solved_state (np_abs : complex -> float) (np_argsort : list float -> list nat)
           (st : state) (low hi : list complex) (uo : bool) (thr : float)
           (pencil N target : value) : state :=
  let kept := kept_rows np_abs np_argsort low hi uo thr in
  mkState
    (("evalues", VComplexArray (map fst kept))
     :: ("evalues_index", VIntArray (map position kept))
     :: ("evalues_good", VComplexArray (map fst kept))
     :: ("delta_near", VFloatArray (delta_near_of np_abs np_argsort low hi))
     :: ("delta_ordinal", VFloatArray (delta_ordinal_of np_abs np_argsort low hi))
     :: ("evalues_high", VComplexArray hi)
     :: ("hires_solver.eigenvalues", VComplexArray hi)
     :: ("evalues_low", VComplexArray low)
     :: ("solver.eigenvalues", VComplexArray low)
     :: ("solver_kwargs", VObject "kwargs")
     :: ("target", target) :: ("N", N) :: ("pencil", pencil)
     :: obj st)
    (logged st ++ sigma_log np_abs np_argsort low).

(** The figure [plot_drift_ratios] draws from the two drift ratios and the
    threshold, and the series drawn under a label. *)
Definition drift_figure (dn dor : list float) (thr : float) : figure :=
  let modes := Np.arange (Np.len dn) in
  let inv := map (F64.div F64.one) in
  let good d := map (fun x => F64.ltb thr x) (inv d) in
  [Semilogy modes (inv dn) "o" None;
   Semilogy modes (inv dor) "x" None;
   SetPropCycle;
   Semilogy (Np.compress (good dn) modes) (inv (Np.compress (good dn) dn))
            "o" (Some "nearest");
   Semilogy (Np.compress (good dor) modes) (inv (Np.compress (good dor) dor))
            "x" (Some "ordinal");
   Axhline thr; SetXlabel "mode number"; SetYlabel "$1/\delta$"; Legend].

Fixpoint series (label : string) (fig : figure) : option (list Z * list float) :=
  match fig with
  | [] => None
  | Semilogy x y _ (Some l) :: rest =>
      if String.eqb l label then Some (x, y) else series label rest
  | _ :: rest => series label rest
  end.

(** * Concrete inputs *)

(** A state with the four attributes the engine reads and nothing logged. *)
Definition engine_state (low hi : list complex) (uo : bool) (thr : float) : state :=
  mkState [("evalues_low", VComplexArray low);
           ("evalues_high", VComplexArray hi);
           ("use_ordinal", VBool uo);
           ("drift_threshold", VFloat thr)] [].

Definition c_nan : complex := mkC F64.nan F64.zero.

Definition f_minus_1 : float := Eval vm_compute in F64.of_Z (-1).

(** Eighteen eigenvalues on the imaginary axis, [0j, 1j, ..., 17j]. *)
Definition ties18 : list complex :=
  map (fun k => mkC F64.zero (F64.of_Z k)) (Np.arange 18).

(** The constructor's defaults, with rejection on. *)
Definition default_instance : state :=
  new (VBool true) default_factor default_scales default_drift_threshold
      (VBool false) default_grow_func default_freq_func.

Definition updates_ok : string -> string -> value -> res unit :=
  fun _ _ _ => Ok tt.

(** A dense solve that fails, and a pair of solves whose low-resolution
    eigenvalues all drift. *)
Definition dense_failure : string -> bool -> res (list complex) :=
  fun _ _ => Raise LinAlgError.

Definition drifting_solves : string -> bool -> res (list complex) :=
  fun name _ =>
    if String.eqb name "solver" then Ok [c_of_Z 1; c_of_Z 2]
    else Ok [c_of_Z 10; c_of_Z 20].

(** The reduced operator [diag(1, 2)] of the specification's scenario. *)
Definition diag_1_2 : matrix :=
  [[c_of_Z 1; c_of_Z 0]; [c_of_Z 0; c_of_Z 2]].

(** Solves whose low-resolution eigenvalues [1] and [2] are reproduced at
    high resolution; solves that reproduce [-1], [1] and [2]; and a
    high-resolution solve that does not converge. *)
Definition matching_solves : string -> bool -> res (list complex) :=
  fun name _ =>
    if String.eqb name "solver" then Ok [c_of_Z 4; c_of_Z 1; c_of_Z 2]
    else Ok [c_of_Z 5; c_of_Z 2; c_of_Z 1].

Definition reproduced_solves : string -> bool -> res (list complex) :=
  fun _ _ => Ok [c_of_Z (-1); c_of_Z 1; c_of_Z 2].

Definition hires_failure : string -> bool -> res (list complex) :=
  fun name _ =>
    if String.eqb name "solver" then Ok [c_of_Z 4; c_of_Z 1; c_of_Z 2]
    else Raise ArpackNoConvergence.

(** An instance whose growth function masks the decaying modes with NaN. *)
Definition masked_growth : list complex -> list float :=
  map (fun z => if F64.ltb (re z) F64.zero then F64.nan else re z).

Definition masked_growth_instance : state :=
  new (VBool true) default_factor default_scales default_drift_threshold
      (VBool false) (VArrayFun masked_growth) default_freq_func.

(** Low- and high-resolution eigenvalues of the examples below, with and
    without a NaN; a solve that returns a single eigenvalue; an instance
    built with [reject=0]; and a solver whose [set_state] is recorded on
    the instance. *)
Definition low_412 : list complex := [c_of_Z 4; c_of_Z 1; c_of_Z 2].
Definition high_521 : list complex := [c_of_Z 5; c_of_Z 2; c_of_Z 1].
Definition low_4n12 : list complex := [c_of_Z 4; c_nan; c_of_Z 1; c_of_Z 2].
Definition high_5n21 : list complex := [c_of_Z 5; c_nan; c_of_Z 2; c_of_Z 1].

Definition single_solves : string -> bool -> res (list complex) :=
  fun _ _ => Ok [c_of_Z 1].

Definition record_state : Z -> M unit :=
  fun i => setattr "solver.state" (VInt i).

Definition keep_scales : string -> value -> M unit :=
  fun _ _ => ret tt.

(** * Sequences, indices and the result monad *)

Lemma norm_index_nonneg n i : 0 <= i < n -> Np.norm_index n i = Some (Z.to_nat i).
Proof.
  intros H. unfold Np.norm_index.
  destruct (i <? 0) eqn:E; [apply Z.ltb_lt in E; lia|].
  destruct (0 <=? i) eqn:E1; [|apply Z.leb_gt in E1; lia].
  destruct (i <? n) eqn:E2; [|apply Z.ltb_ge in E2; lia].
  reflexivity.
Qed.

Lemma norm_index_neg n i : - n <= i < 0 -> Np.norm_index n i = Some (Z.to_nat (i + n)).
Proof.
  intros H. unfold Np.norm_index.
  destruct (i <? 0) eqn:E; [|apply Z.ltb_ge in E; lia].
  destruct (0 <=? i + n) eqn:E1; [|apply Z.leb_gt in E1; lia].
  destruct (i + n <? n) eqn:E2; [|apply Z.ltb_ge in E2; lia].
  reflexivity.
Qed.

Lemma norm_index_out n i : n <= i \/ i < - n -> Np.norm_index n i = None.
Proof.
  intros H. unfold Np.norm_index.
  destruct (i <? 0) eqn:E.
  - apply Z.ltb_lt in E.
    destruct (0 <=? i + n) eqn:E1; [apply Z.leb_le in E1; lia|reflexivity].
  - apply Z.ltb_ge in E.
    destruct (i <? n) eqn:E2; [apply Z.ltb_lt in E2; lia|].
    now rewrite andb_false_r.
Qed.

Section Lists.
Context {A : Type}.
Implicit Types (a : list A).

Lemma getitem_nth a i d :
  0 <= i < Np.len a -> Np.getitem a i = Ok (nth (Z.to_nat i) a d).
Proof.
  intros H. unfold Np.getitem. rewrite norm_index_nonneg by exact H.
  destruct (nth_error a (Z.to_nat i)) eqn:E.
  - now rewrite (nth_error_nth _ _ d E).
  - apply nth_error_None in E. unfold Np.len in H. lia.
Qed.

Lemma getitem_nth_neg a i d :
  - Np.len a <= i < 0 -> Np.getitem a i = Ok (nth (Z.to_nat (i + Np.len a)) a d).
Proof.
  intros H. unfold Np.getitem. rewrite norm_index_neg by exact H.
  destruct (nth_error a (Z.to_nat (i + Np.len a))) eqn:E.
  - now rewrite (nth_error_nth _ _ d E).
  - apply nth_error_None in E. unfold Np.len in *. lia.
Qed.

Lemma getitem_out a i :
  Np.len a <= i \/ i < - Np.len a -> Np.getitem a i = Raise IndexError.
Proof.
  intros H. unfold Np.getitem. now rewrite norm_index_out.
Qed.

Lemma getitem_raise a i e : Np.getitem a i = Raise e -> e = IndexError.
Proof.
  unfold Np.getitem.
  destruct (Np.norm_index (Np.len a) i) as [k|]; [|now intros [= <-]].
  destruct (nth_error a k); [discriminate|now intros [= <-]].
Qed.

Lemma length_update a k x : List.length (Np.update a k x) = List.length a.
Proof.
  revert k; induction a as [|h t IH]; intros [|k]; simpl; auto.
Qed.

Lemma nth_error_update_eq a k x :
  (k < List.length a)%nat -> nth_error (Np.update a k x) k = Some x.
Proof.
  revert k; induction a as [|h t IH]; intros [|k]; simpl; intros H; try lia; auto.
  apply IH. lia.
Qed.

Lemma nth_error_update_neq a k j x :
  j <> k -> nth_error (Np.update a k x) j = nth_error a j.
Proof.
  revert k j; induction a as [|h t IH]; intros [|k] [|j]; simpl; intros H;
    try congruence; auto.
Qed.

Lemma update_app_last a (y z : A) :
  Np.update (a ++ [y]) (List.length a) z = a ++ [z].
Proof. induction a as [|x xs IH]; simpl; [reflexivity|now rewrite IH]. Qed.

Lemma skipn_repeat (x : A) n k : skipn k (repeat x n) = repeat x (n - k).
Proof.
  revert k; induction n as [|n IH]; intros [|k]; simpl; auto.
Qed.
End Lists.

Lemma bind_ok {A B} (a : A) (k : A -> res B) : Py.bind (Ok a) k = k a.
Proof. reflexivity. Qed.

Lemma mapM_ok {A B} (f : A -> res B) (g : A -> B) xs :
  (forall x, In x xs -> f x = Ok (g x)) -> mapM f xs = Ok (map g xs).
Proof.
  induction xs as [|x xs IH]; intros H; simpl; [reflexivity|].
  rewrite H by (now left). simpl. rewrite IH; [reflexivity|].
  intros y Hy. apply H. now right.
Qed.

Lemma mapM_ok_inv {A B} (f : A -> res B) xs ys :
  mapM f xs = Ok ys -> forall x, In x xs -> exists y, f x = Ok y.
Proof.
  revert ys; induction xs as [|x xs IH]; intros ys H z Hz; [destruct Hz|].
  simpl in H. destruct (f x) eqn:E; simpl in H; [|discriminate].
  destruct (mapM f xs) eqn:E'; simpl in H; [|discriminate].
  destruct Hz as [<-|Hz]; eauto.
Qed.

Lemma mapM_raise_inv {A B} (f : A -> res B) xs e :
  mapM f xs = Raise e -> exists x, In x xs /\ f x = Raise e.
Proof.
  induction xs as [|x xs IH]; simpl; [discriminate|].
  destruct (f x) eqn:E; simpl.
  - destruct (mapM f xs) eqn:E'; simpl; [discriminate|].
    intros [= <-]. destruct (IH eq_refl) as (y & Hy & Ey). exists y. auto.
  - intros [= <-]. exists x. auto.
Qed.

Lemma length_range a b : List.length (Np.range a b) = Z.to_nat (b - a).
Proof. unfold Np.range. now rewrite length_map, length_seq. Qed.

Lemma in_range a b x : In x (Np.range a b) <-> a <= x < b.
Proof.
  unfold Np.range. rewrite in_map_iff. split.
  - intros (k & <- & Hk). apply in_seq in Hk. lia.
  - intros H. exists (Z.to_nat (x - a)). split; [lia|]. apply in_seq. lia.
Qed.

Lemma map_range_seq {B} (g : Z -> B) (n : nat) :
  map g (Np.range 0 (Z.of_nat n)) = map (fun k => g (Z.of_nat k)) (seq 0 n).
Proof.
  unfold Np.range. rewrite map_map. rewrite Z.sub_0_r, Nat2Z.id. reflexivity.
Qed.

Lemma length_arange n : List.length (Np.arange n) = Z.to_nat n.
Proof. unfold Np.arange. rewrite length_range. f_equal. lia. Qed.

Lemma is_permutation_spec p n :
  is_permutation p n = true -> Permutation (seq 0 n) p.
Proof.
  unfold is_permutation. intros H. apply andb_prop in H as [Hl Hall].
  apply Nat.eqb_eq in Hl.
  apply NoDup_Permutation_bis.
  - apply seq_NoDup.
  - rewrite length_seq. lia.
  - intros k Hk. rewrite forallb_forall in Hall. specialize (Hall k Hk).
    apply existsb_exists in Hall as (k' & Hin & E). apply Nat.eqb_eq in E. now subst.
Qed.

Lemma is_permutation_length p n : is_permutation p n = true -> List.length p = n.
Proof.
  unfold is_permutation. intros H. apply andb_prop in H as [Hl _]. now apply Nat.eqb_eq.
Qed.

Lemma is_permutation_bound p n k :
  is_permutation p n = true -> In k p -> (k < n)%nat.
Proof.
  intros H Hk. apply is_permutation_spec in H.
  apply Permutation_sym in H. apply (Permutation_in _ H) in Hk.
  apply in_seq in Hk. lia.
Qed.

Lemma nth_error_map_seq {B} (f : nat -> B) n j :
  (j < n)%nat -> nth_error (map f (seq 0 n)) j = Some (f j).
Proof.
  intros H. rewrite nth_error_map.
  rewrite (nth_error_nth' (seq 0 n) O) by (rewrite length_seq; lia).
  rewrite seq_nth by lia. reflexivity.
Qed.

Lemma nth_map_seq {B} (f : nat -> B) n j d :
  (j < n)%nat -> nth j (map f (seq 0 n)) d = f j.
Proof.
  intros H. apply nth_error_nth. now apply nth_error_map_seq.
Qed.

(** * The local spacings *)

Section SigmaTheory.

Variable np_abs : complex -> float.

Lemma spacing_nonneg low i j :
  0 <= i < Np.len low -> 0 <= j < Np.len low ->
  spacing np_abs low i j
  = Ok (np_abs (csub (item low (Z.to_nat i)) (item low (Z.to_nat j)))).
Proof.
  intros Hi Hj. unfold spacing.
  rewrite (getitem_nth low i czero Hi). simpl.
  rewrite (getitem_nth low j czero Hj). reflexivity.
Qed.

Lemma spacing_neg low i j :
  - Np.len low <= i < 0 -> - Np.len low <= j < 0 ->
  spacing np_abs low i j
  = Ok (np_abs (csub (item low (Z.to_nat (i + Np.len low)))
                     (item low (Z.to_nat (j + Np.len low))))).
Proof.
  intros Hi Hj. unfold spacing.
  rewrite (getitem_nth_neg low i czero Hi). simpl.
  rewrite (getitem_nth_neg low j czero Hj). reflexivity.
Qed.

(** The array the four assignments build, entry by entry. *)
Lemma compute_sigmas_closed low :
  (2 <= List.length low)%nat ->
  compute_sigmas np_abs low
  = Ok (map (sigma_spec np_abs low) (seq 0 (List.length low))).
Proof.
  intros Hn.
  destruct low as [|a [|b rest]]; simpl in Hn; try lia.
  set (low := a :: b :: rest) in *.
  set (m := List.length rest).
  assert (Hlen : List.length low = S (S m)) by reflexivity.
  assert (HL : Np.len low = Z.of_nat m + 2) by (unfold Np.len; rewrite Hlen; lia).
  unfold compute_sigmas.
  rewrite spacing_nonneg by lia. rewrite bind_ok.
  unfold Np.zeros. rewrite HL.
  replace (Z.to_nat (Z.of_nat m + 2)) with (S (S m)) by lia.
  unfold Np.setitem at 1. unfold Np.len at 1. rewrite repeat_length.
  rewrite norm_index_nonneg by lia. rewrite bind_ok.
  rewrite (mapM_ok _ (fun j =>
     F64.mul F64.half
       (F64.add (np_abs (csub (item low (Z.to_nat j)) (item low (Z.to_nat (j - 1)))))
                (np_abs (csub (item low (Z.to_nat (j + 1))) (item low (Z.to_nat j))))))).
  2:{ intros j Hj. apply in_range in Hj.
      rewrite spacing_nonneg by lia. rewrite bind_ok.
      rewrite spacing_nonneg by lia. reflexivity. }
  rewrite bind_ok.
  unfold Np.setslice. unfold Np.len at 1. rewrite length_update, repeat_length.
  unfold Np.slice_bounds, Np.clamp.
  replace (1 <? 0) with false by reflexivity.
  replace (-1 <? 0) with true by reflexivity.
  replace (Z.to_nat (Z.max 0 (Z.min (Z.of_nat (S (S m))) 1))) with 1%nat by lia.
  replace (Z.to_nat (Z.max (Z.max 0 (Z.min (Z.of_nat (S (S m))) 1))
                 (Z.max 0 (Z.min (Z.of_nat (S (S m))) (-1 + Z.of_nat (S (S m)))))))
    with (S m) by lia.
  rewrite length_map, length_range.
  replace (Z.to_nat (Z.of_nat m + 2 - 1 - 1)) with m by lia.
  replace (S m - 1)%nat with m by lia. rewrite Nat.eqb_refl.
  rewrite bind_ok.
  rewrite spacing_neg by lia. rewrite bind_ok.
  set (s0 := np_abs (csub (item low (Z.to_nat 0)) (item low (Z.to_nat 1)))).
  assert (E1 : Np.update (repeat F64.zero (S (S m))) (Z.to_nat 0) s0
               = s0 :: F64.zero :: repeat F64.zero m) by reflexivity.
  rewrite E1.
  assert (E2 : skipn (S m) (s0 :: F64.zero :: repeat F64.zero m) = [F64.zero]).
  { change (skipn (S m) (s0 :: F64.zero :: repeat F64.zero m))
      with (skipn m (repeat F64.zero (S m))).
    rewrite skipn_repeat. replace (S m - m)%nat with 1%nat by lia. reflexivity. }
  rewrite E2.
  change (firstn 1 (s0 :: F64.zero :: repeat F64.zero m)) with [s0].
  set (mid := map _ (Np.range 1 (Z.of_nat m + 2 - 1))).
  assert (Hmid : List.length mid = m).
  { unfold mid. rewrite length_map, length_range. lia. }
  unfold Np.setitem, Np.len.
  rewrite norm_index_neg.
  2:{ rewrite !length_app, Hmid. cbn [List.length]. lia. }
  f_equal.
  replace (Z.to_nat (-1 + Z.of_nat (List.length ([s0] ++ mid ++ [F64.zero]))))
    with (S (List.length mid)).
  2:{ rewrite !length_app, Hmid. cbn [List.length]. lia. }
  cbn [app Np.update]. rewrite update_app_last.
  rewrite Hlen.
  change (seq 0 (S (S m))) with (0%nat :: seq 1 (S m)).
  rewrite seq_S. rewrite map_cons, map_app. f_equal.
  f_equal.
  - unfold mid, Np.range.
    replace (Z.to_nat (Z.of_nat m + 2 - 1 - 1)) with m by lia.
    rewrite <- seq_shift. rewrite !map_map.
    apply map_ext_in. intros k Hk. apply in_seq in Hk.
    unfold sigma_spec. rewrite Hlen.
    replace (Nat.eqb (S k) 0) with false by reflexivity.
    replace (Nat.eqb (S k) (S (S m) - 1)) with false
      by (symmetry; apply Nat.eqb_neq; lia).
    replace (Z.to_nat (1 + Z.of_nat k)) with (S k) by lia.
    replace (Z.to_nat (1 + Z.of_nat k - 1)) with (S k - 1)%nat by lia.
    replace (Z.to_nat (1 + Z.of_nat k + 1)) with (S k + 1)%nat by lia.
    reflexivity.
  - cbn [map]. unfold sigma_spec. rewrite Hlen.
    replace (Nat.eqb (1 + m) 0) with false by reflexivity.
    replace (Nat.eqb (1 + m) (S (S m) - 1)) with true
      by (symmetry; apply Nat.eqb_eq; lia).
    replace (Z.to_nat (-2 + Z.of_nat (S (S m)))) with (S (S m) - 2)%nat by lia.
    replace (Z.to_nat (-1 + Z.of_nat (S (S m)))) with (S (S m) - 1)%nat by lia.
    reflexivity.
Qed.

Lemma compute_sigmas_few low :
  (List.length low < 2)%nat -> compute_sigmas np_abs low = Raise IndexError.
Proof.
  destruct low as [|a [|b rest]]; simpl; intros H; try lia; reflexivity.
Qed.

(** C2: on an array [low] of [n >= 2] sorted eigenvalues the engine's
    spacing array has [n] entries, [sigma[0] = |low[0] - low[1]|],
    [sigma[n-1] = |low[n-2] - low[n-1]|] and, at every interior position
    [j], [sigma[j] = 0.5*(|low[j] - low[j-1]| + |low[j+1] - low[j]|)]. *)
Theorem sigma_spacing_formula (low : list complex) :
  (2 <= List.length low)%nat ->
  exists sigmas,
    compute_sigmas np_abs low = Ok sigmas /\
    List.length sigmas = List.length low /\
    nth_error sigmas 0 = Some (np_abs (csub (item low 0) (item low 1))) /\
    nth_error sigmas (List.length low - 1)
    = Some (np_abs (csub (item low (List.length low - 2))
                         (item low (List.length low - 1)))) /\
    forall j, (1 <= j < List.length low - 1)%nat ->
      nth_error sigmas j
      = Some (F64.mul F64.half
                (F64.add (np_abs (csub (item low j) (item low (j - 1))))
                         (np_abs (csub (item low (j + 1)) (item low j))))).
Proof.
  intros Hn. eexists. split; [apply compute_sigmas_closed; exact Hn|].
  split; [now rewrite length_map, length_seq|].
  split; [|split].
  - rewrite nth_error_map_seq by lia. reflexivity.
  - rewrite nth_error_map_seq by lia. unfold sigma_spec.
    destruct (Nat.eqb (List.length low - 1) 0) eqn:E.
    + apply Nat.eqb_eq in E. lia.
    + now rewrite Nat.eqb_refl.
  - intros j Hj. rewrite nth_error_map_seq by lia. unfold sigma_spec.
    replace (Nat.eqb j 0) with false by (symmetry; apply Nat.eqb_neq; lia).
    replace (Nat.eqb j (List.length low - 1)) with false
      by (symmetry; apply Nat.eqb_neq; lia).
    reflexivity.
Qed.

End SigmaTheory.

(** An array of three eigenvalues with the spacings it gets. *)
Lemma sigma_spacing_formula_witness :
  (2 <= List.length [c_of_Z 1; c_of_Z 2; c_of_Z 4])%nat /\
  exists sigmas,
    compute_sigmas cabs [c_of_Z 1; c_of_Z 2; c_of_Z 4] = Ok sigmas /\
    nth_error sigmas 1 = Some (F64.div (F64.of_Z 3) (F64.of_Z 2)).
Proof.
  split; [simpl; lia|].
  destruct (sigma_spacing_formula cabs [c_of_Z 1; c_of_Z 2; c_of_Z 4])
    as (sigmas & E & _ & _ & _ & Hmid); [simpl; lia|].
  exists sigmas. split; [exact E|].
  rewrite (Hmid 1%nat) by (simpl; lia). vm_compute. reflexivity.
Defined.

(** * Tagging, filtering and sorting *)

Lemma length_tagged ev : List.length (tagged ev) = List.length ev.
Proof.
  unfold tagged. rewrite length_map, length_combine, length_arange.
  unfold Np.len. lia.
Qed.

Lemma asarray_zip_tagged ev :
  ev <> [] -> asarray_zip ev (Np.arange (Np.len ev)) = Arr2 (tagged ev).
Proof.
  intros H. unfold asarray_zip, tagged.
  destruct (combine ev (Np.arange (Np.len ev))) eqn:E; [|reflexivity].
  apply (f_equal (@List.length _)) in E.
  rewrite length_combine, length_arange in E. unfold Np.len in E.
  destruct ev; [congruence|]. cbn [List.length] in E. lia.
Qed.

Lemma length_compress {A} (f : A -> bool) (xs : list A) {B} (ys : list B) :
  List.length ys = List.length xs ->
  List.length (Np.compress (map f xs) ys) = List.length (filter f xs).
Proof.
  revert ys; induction xs as [|x xs IH]; intros [|y ys]; simpl; intros H; try lia; auto.
  destruct (f x); simpl; rewrite IH; auto.
Qed.

Lemma compress_incl {A} (mask : list bool) (xs : list A) x :
  In x (Np.compress mask xs) -> In x xs.
Proof.
  revert xs; induction mask as [|b mask IH]; intros [|y ys]; simpl; try tauto.
  destruct b; simpl; intros H.
  - destruct H as [H|H]; [now left|right; now apply IH].
  - right. now apply IH.
Qed.

Lemma compress_filter {A} (mask : list bool) (xs : list A) :
  Np.compress mask xs = map snd (filter fst (combine mask xs)).
Proof.
  revert xs; induction mask as [|b mask IH]; intros [|y ys]; simpl; try reflexivity.
  destruct b; simpl; now rewrite IH.
Qed.

Lemma length_finite_rows ev : List.length (finite_rows ev) = n_finite ev.
Proof.
  unfold finite_rows, n_finite. apply length_compress, length_tagged.
Qed.

Lemma n_finite_nonempty ev : (0 < n_finite ev)%nat -> ev <> [].
Proof. destruct ev; [unfold n_finite; simpl; lia|discriminate]. Qed.

Lemma getitem_mask_tagged ev :
  getitem_mask (Arr2 (tagged ev)) (map Np.isfinite ev) = Ok (Arr2 (finite_rows ev)).
Proof.
  unfold getitem_mask. rewrite length_map, length_tagged, Nat.eqb_refl. reflexivity.
Qed.

Lemma getitem_mask_zip ev :
  exists a, getitem_mask (asarray_zip ev (Np.arange (Np.len ev))) (map Np.isfinite ev)
            = Ok a.
Proof.
  destruct ev as [|e ev']; [now eexists|].
  rewrite asarray_zip_tagged by discriminate. rewrite getitem_mask_tagged. now eexists.
Qed.

Lemma take_raise a ix e : take a ix = Raise e -> e = IndexError.
Proof.
  assert (G : forall A (xs : list A) e,
             mapM (Np.getitem xs) ix = Raise e -> e = IndexError).
  { intros A xs e0 H. apply mapM_raise_inv in H as (i & _ & Hi).
    eapply getitem_raise; eauto. }
  destruct a as [xs|rows]; simpl.
  - destruct (mapM (Np.getitem xs) ix) eqn:E; simpl; [discriminate|].
    intros [= <-]. eapply G; eauto.
  - destruct (mapM (Np.getitem rows) ix) eqn:E; simpl; [discriminate|].
    intros [= <-]. eapply G; eauto.
Qed.

Lemma column_raise a k e : column a k = Raise e -> e = IndexError.
Proof.
  destruct a; simpl; [now intros [= <-]|].
  destruct k as [|[p|p|]|]; try discriminate; now intros [= <-].
Qed.

Lemma take_rows_ok (rows : list row) (p : list nat) :
  (forall k, In k p -> (k < List.length rows)%nat) ->
  take (Arr2 rows) (map Z.of_nat p) = Ok (Arr2 (map (fun k => nth k rows drow) p)).
Proof.
  intros H. unfold take.
  rewrite (mapM_ok _ (fun i => nth (Z.to_nat i) rows drow)).
  - simpl. rewrite map_map. f_equal. f_equal.
    apply map_ext. intros k. now rewrite Nat2Z.id.
  - intros i Hi. apply in_map_iff in Hi as (k & <- & Hk).
    apply getitem_nth. unfold Np.len. specialize (H k Hk). lia.
Qed.

(** Rows picked by [np.where] of a mask are the rows the mask selects. *)
Lemma take_where (rows : list row) (mask : list bool) :
  List.length mask = List.length rows ->
  take (Arr2 rows) (Np.where_ mask) = Ok (Arr2 (Np.compress mask rows)).
Proof.
  intros H. unfold take, Np.where_.
  enough (G : forall (pre : list row),
             mapM (Np.getitem (pre ++ rows)) (Np.where_from (Np.len pre) mask)
             = Ok (Np.compress mask rows)).
  { specialize (G []). cbn [app] in G. change (Np.len (@nil row)) with 0 in G.
    now rewrite G. }
  revert mask H. induction rows as [|r rows IH]; intros [|b mask] H pre;
    simpl in H; try lia; try reflexivity.
  assert (E : mapM (Np.getitem (pre ++ r :: rows)) (Np.where_from (Np.len pre + 1) mask)
              = Ok (Np.compress mask rows)).
  { specialize (IH mask ltac:(lia) (pre ++ [r])).
    rewrite <- app_assoc in IH. simpl in IH.
    replace (Np.len (pre ++ [r])) with (Np.len pre + 1) in IH; [exact IH|].
    unfold Np.len. rewrite length_app. simpl. lia. }
  cbn [Np.where_from Np.compress]. destruct b; [|exact E].
  cbn [mapM]. rewrite E.
  rewrite (getitem_nth _ _ drow).
  2:{ unfold Np.len. rewrite length_app. cbn [List.length]. lia. }
  cbn [Py.bind]. f_equal. f_equal.
  unfold Np.len. rewrite Nat2Z.id. rewrite app_nth2 by lia. now rewrite Nat.sub_diag.
Qed.

Section SortTheory.

Variable np_argsort : list float -> list nat.

Lemma sort_by_real_ok rows :
  argsort_ok np_argsort rows ->
  sort_by_real np_argsort (Arr2 rows) = Ok (Arr2 (sort_rows np_argsort rows)).
Proof.
  intros H. unfold sort_by_real. cbn [column]. rewrite bind_ok.
  apply take_rows_ok. intros k Hk.
  eapply is_permutation_bound; eauto.
Qed.

Lemma sort_by_real_raise a e :
  sort_by_real np_argsort a = Raise e -> e = IndexError.
Proof.
  unfold sort_by_real. destruct (column a 0) eqn:E; simpl.
  - apply take_raise.
  - intros [= <-]. eapply column_raise; eauto.
Qed.

Lemma length_sort_rows rows :
  argsort_ok np_argsort rows ->
  List.length (sort_rows np_argsort rows) = List.length rows.
Proof.
  intros H. unfold sort_rows. rewrite length_map. now apply is_permutation_length.
Qed.

Lemma map_nth_seq (rows : list row) :
  map (fun k => nth k rows drow) (seq 0 (List.length rows)) = rows.
Proof.
  enough (G : forall (pre : list row),
             map (fun k => nth k (pre ++ rows) drow)
                 (seq (List.length pre) (List.length rows)) = rows).
  { exact (G []). }
  induction rows as [|r rows' IH]; intros pre; simpl; [reflexivity|].
  f_equal.
  - rewrite app_nth2 by lia. now rewrite Nat.sub_diag.
  - specialize (IH (pre ++ [r])). rewrite <- app_assoc in IH. simpl in IH.
    rewrite length_app in IH. simpl in IH. rewrite Nat.add_1_r in IH. exact IH.
Qed.

Lemma sort_rows_perm rows :
  argsort_ok np_argsort rows -> Permutation rows (sort_rows np_argsort rows).
Proof.
  intros H. unfold sort_rows.
  apply is_permutation_spec in H.
  rewrite <- (Permutation_map _ H). now rewrite map_nth_seq.
Qed.

Lemma sort_rows_incl rows r :
  argsort_ok np_argsort rows -> In r (sort_rows np_argsort rows) -> In r rows.
Proof.
  intros H Hr. pose proof (Permutation_sym (sort_rows_perm rows H)) as P.
  exact (Permutation_in _ P Hr).
Qed.

Lemma length_sorted_values ev :
  argsort_ok np_argsort (finite_rows ev) ->
  List.length (sorted_values np_argsort ev) = n_finite ev.
Proof.
  intros H. unfold sorted_values, sorted_rows.
  rewrite length_map, length_sort_rows by exact H. apply length_finite_rows.
Qed.

End SortTheory.

(** * Running the engine *)

Lemma bindM_step {A B} (c : M A) (k : A -> M B) s a s' :
  c s = (Ok a, s') -> bindM c k s = k a s'.
Proof. intros H. unfold bindM. now rewrite H. Qed.

Lemma bindM_fail {A B} (c : M A) (k : A -> M B) s e s' :
  c s = (Raise e, s') -> bindM c k s = (Raise e, s').
Proof. intros H. unfold bindM. now rewrite H. Qed.

Lemma getattr_ok name st v :
  lookup name (obj st) = Some v -> getattr name st = (Ok v, st).
Proof. intros H. unfold getattr. now rewrite H. Qed.

Lemma getattr_missing name st :
  lookup name (obj st) = None -> getattr name st = (Raise AttributeError, st).
Proof. intros H. unfold getattr. now rewrite H. Qed.

Lemma lift_run {A} (c : res A) s : lift c s = (c, s).
Proof. reflexivity. Qed.

(** One statement of a method whose outcome is known. *)
Ltac step_with H :=
  erewrite bindM_step;
  [ | first [ apply getattr_ok; exact H | rewrite lift_run, H; reflexivity ] ];
  cbv beta zeta.

Ltac step_refl :=
  erewrite bindM_step; [ | reflexivity ]; cbv beta zeta.

Ltac step_by tac :=
  erewrite bindM_step; [ | rewrite lift_run; tac; reflexivity ]; cbv beta zeta.

Section DeltaTheory.

Variable np_abs : complex -> float.

Lemma ordinal_delta_ok low_s hi_s sigmas :
  List.length sigmas = List.length low_s ->
  (List.length low_s <= List.length hi_s)%nat ->
  ordinal_delta np_abs low_s hi_s sigmas
  = Ok (map (ordinal_at np_abs low_s hi_s sigmas) (seq 0 (List.length low_s))).
Proof.
  intros Hs Hh. unfold ordinal_delta.
  rewrite (mapM_ok _ (fun j => ordinal_at np_abs low_s hi_s sigmas (Z.to_nat j))).
  - unfold Np.len. rewrite map_range_seq. f_equal.
    apply map_ext. intros k. now rewrite Nat2Z.id.
  - intros j Hj. apply in_range in Hj. unfold Np.len in Hj.
    rewrite (getitem_nth low_s j czero) by (unfold Np.len; lia). rewrite bind_ok.
    rewrite (getitem_nth hi_s j czero) by (unfold Np.len; lia). rewrite bind_ok.
    rewrite (getitem_nth sigmas j F64.nan) by (unfold Np.len; lia). rewrite bind_ok.
    reflexivity.
Qed.

Lemma ordinal_delta_short low_s hi_s sigmas :
  List.length sigmas = List.length low_s ->
  (List.length hi_s < List.length low_s)%nat ->
  ordinal_delta np_abs low_s hi_s sigmas = Raise IndexError.
Proof.
  intros Hs Hh. unfold ordinal_delta.
  match goal with |- mapM ?f ?xs = _ => destruct (mapM f xs) as [ys|e] eqn:E end.
  - exfalso.
    destruct (mapM_ok_inv _ _ _ E (Np.len hi_s)) as (y & Hy).
    { apply in_range. unfold Np.len. lia. }
    rewrite (getitem_nth low_s _ czero) in Hy by (unfold Np.len; lia).
    rewrite bind_ok in Hy.
    rewrite getitem_out in Hy by lia. discriminate.
  - f_equal. apply mapM_raise_inv in E as (j & _ & Hj).
    destruct (Np.getitem low_s j) eqn:E1; cbn [Py.bind] in Hj;
      [|injection Hj as <-; eapply getitem_raise; eauto].
    destruct (Np.getitem hi_s j) eqn:E2; cbn [Py.bind] in Hj;
      [|injection Hj as <-; eapply getitem_raise; eauto].
    destruct (Np.getitem sigmas j) eqn:E3; cbn [Py.bind] in Hj;
      [discriminate|injection Hj as <-; eapply getitem_raise; eauto].
Qed.

Lemma nanmin_ok a : a <> [] -> Np.nanmin a = Ok (fold_fmin a).
Proof. destruct a; [congruence|reflexivity]. Qed.

Lemma nearest_delta_ok low_s hi_s sigmas :
  List.length sigmas = List.length low_s ->
  hi_s <> [] ->
  nearest_delta np_abs low_s hi_s sigmas
  = Ok (map (nearest_at np_abs low_s hi_s sigmas) (seq 0 (List.length low_s))).
Proof.
  intros Hs Hh. unfold nearest_delta.
  rewrite (mapM_ok _ (fun j => nearest_at np_abs low_s hi_s sigmas (Z.to_nat j))).
  - unfold Np.len. rewrite map_range_seq. f_equal.
    apply map_ext. intros k. now rewrite Nat2Z.id.
  - intros j Hj. apply in_range in Hj. unfold Np.len in Hj.
    rewrite (getitem_nth low_s j czero) by (unfold Np.len; lia). rewrite bind_ok.
    rewrite (getitem_nth sigmas j F64.nan) by (unfold Np.len; lia). rewrite bind_ok.
    rewrite nanmin_ok; [reflexivity|].
    destruct hi_s; [congruence|discriminate].
Qed.

End DeltaTheory.

Section EngineTheory.

Variable np_abs : complex -> float.
Variable np_argsort : list float -> list nat.

Lemma length_sigmas_of low :
  List.length (sigmas_of np_abs np_argsort low)
  = List.length (sorted_values np_argsort low).
Proof. unfold sigmas_of. now rewrite length_map, length_seq. Qed.

Lemma sigma_step st low :
  (if negb (forallb F64.is_finite (sigmas_of np_abs np_argsort low))
   then warning sigma_warning else ret tt) st
  = (Ok tt, mkState (obj st) (logged st ++ sigma_log np_abs np_argsort low)).
Proof.
  unfold sigma_log.
  destruct (forallb F64.is_finite (sigmas_of np_abs np_argsort low)); cbn [negb].
  - unfold ret. rewrite app_nil_r. now destruct st.
  - reflexivity.
Qed.

(** The run of the engine when the spacings and the ordinal look-ups are
    defined: what it returns and the state it leaves. *)
Lemma discard_run_ok st low hi uo thr :
  holds st low hi uo thr ->
  argsort_ok np_argsort (finite_rows low) ->
  argsort_ok np_argsort (finite_rows hi) ->
  (2 <= n_finite low)%nat ->
  (n_finite low <= n_finite hi)%nat ->
  _discard_spurious_eigenvalues np_abs np_argsort st
  = (Ok (map fst (kept_rows np_abs np_argsort low hi uo thr),
         map (fun c => F64.to_int (re c))
             (map snd (kept_rows np_abs np_argsort low hi uo thr))),
     final_state np_abs np_argsort st low hi).
Proof.
  intros (Hlow & Hhi & Huo & Hthr) Pl Ph Hn Hnh.
  assert (Nl : low <> []) by (apply n_finite_nonempty; lia).
  assert (Nh : hi <> []) by (apply n_finite_nonempty; lia).
  pose proof (length_sorted_values np_argsort low Pl) as Ll.
  pose proof (length_sorted_values np_argsort hi Ph) as Lh.
  unfold _discard_spurious_eigenvalues.
  step_with Hlow. step_with Hhi.
  step_refl. step_refl.
  rewrite (asarray_zip_tagged low Nl), (asarray_zip_tagged hi Nh).
  step_by ltac:(rewrite getitem_mask_tagged).
  step_by ltac:(rewrite getitem_mask_tagged).
  step_by ltac:(rewrite (sort_by_real_ok _ _ Pl)).
  step_by ltac:(rewrite (sort_by_real_ok _ _ Ph)).
  step_refl. step_refl.
  fold (sorted_rows np_argsort low) (sorted_rows np_argsort hi).
  fold (sorted_values np_argsort low) (sorted_values np_argsort hi).
  step_by ltac:(rewrite compute_sigmas_closed by lia).
  fold (sigmas_of np_abs np_argsort low).
  erewrite bindM_step by apply sigma_step. cbv beta.
  erewrite bindM_step.
  2:{ rewrite lift_run, ordinal_delta_ok; [reflexivity|apply length_sigmas_of|lia]. }
  cbv beta. fold (delta_ordinal_of np_abs np_argsort low hi).
  step_refl.
  erewrite bindM_step.
  2:{ rewrite lift_run, nearest_delta_ok; [reflexivity|apply length_sigmas_of|].
      intros E. rewrite E in Lh. simpl in Lh. lia. }
  cbv beta. fold (delta_near_of np_abs np_argsort low hi).
  step_refl. cbn [obj logged].
  erewrite bindM_step
    by (apply getattr_ok; cbn [obj lookup String.eqb Ascii.eqb Bool.eqb]; exact Huo).
  cbv beta. step_refl.
  assert (Hd : forall s,
             obj s = ("delta_near", VFloatArray (delta_near_of np_abs np_argsort low hi))
                       :: ("delta_ordinal",
                           VFloatArray (delta_ordinal_of np_abs np_argsort low hi))
                       :: obj st ->
             getattr (if uo then "delta_ordinal" else "delta_near") s
             = (Ok (VFloatArray (if uo then delta_ordinal_of np_abs np_argsort low hi
                                 else delta_near_of np_abs np_argsort low hi)), s)).
  { intros s Hs. apply getattr_ok. rewrite Hs. destruct uo; reflexivity. }
  erewrite bindM_step by (apply Hd; reflexivity). cbv beta.
  step_refl.
  erewrite bindM_step
    by (apply getattr_ok; cbn [obj lookup String.eqb Ascii.eqb Bool.eqb]; exact Hthr).
  cbv beta. step_refl.
  fold (inverse_drift np_abs np_argsort low hi uo).
  fold (accept_mask np_abs np_argsort low hi uo thr).
  erewrite bindM_step.
  2:{ rewrite lift_run, take_where; [reflexivity|].
      unfold accept_mask, inverse_drift. rewrite !length_map.
      unfold sorted_values in Ll. rewrite length_map in Ll.
      destruct uo; unfold delta_ordinal_of, delta_near_of;
        rewrite length_map, length_seq; unfold sorted_values; now rewrite length_map. }
  cbv beta. fold (kept_rows np_abs np_argsort low hi uo thr).
  step_refl. step_refl. reflexivity.
Qed.

(** With fewer than two finite low-resolution eigenvalues the first
    spacing look-up is out of range. *)
Lemma discard_few_low st low hi uo thr :
  holds st low hi uo thr ->
  argsort_ok np_argsort (finite_rows low) ->
  (n_finite low < 2)%nat ->
  _discard_spurious_eigenvalues np_abs np_argsort st = (Raise IndexError, st).
Proof.
  intros (Hlow & Hhi & Huo & Hthr) Pl Hn.
  unfold _discard_spurious_eigenvalues.
  step_with Hlow. step_with Hhi. step_refl. step_refl.
  destruct (getitem_mask_zip hi) as [ah Eh].
  destruct low as [|l0 low'].
  { step_refl. rewrite Eh. step_refl. reflexivity. }
  set (low := l0 :: low') in *.
  rewrite (asarray_zip_tagged low) by discriminate.
  step_by ltac:(rewrite getitem_mask_tagged).
  rewrite Eh. step_refl.
  step_by ltac:(rewrite (sort_by_real_ok _ _ Pl)).
  destruct (sort_by_real np_argsort ah) as [ah'|e] eqn:Es.
  2:{ apply sort_by_real_raise in Es. subst e. reflexivity. }
  step_refl. step_refl.
  destruct (column ah' 0) as [hs|e] eqn:Ec.
  2:{ apply column_raise in Ec. subst e. reflexivity. }
  step_refl.
  erewrite bindM_fail; [reflexivity|].
  rewrite lift_run, compute_sigmas_few; [reflexivity|].
  fold (sorted_rows np_argsort low). fold (sorted_values np_argsort low).
  rewrite length_sorted_values by exact Pl. exact Hn.
Qed.

(** With fewer finite high-resolution eigenvalues than low-resolution
    ones the ordinal look-up runs out of range. *)
Lemma discard_short_hi st low hi uo thr :
  holds st low hi uo thr ->
  argsort_ok np_argsort (finite_rows low) ->
  argsort_ok np_argsort (finite_rows hi) ->
  (2 <= n_finite low)%nat ->
  (n_finite hi < n_finite low)%nat ->
  fst (_discard_spurious_eigenvalues np_abs np_argsort st) = Raise IndexError.
Proof.
  intros (Hlow & Hhi & Huo & Hthr) Pl Ph Hn Hnh.
  assert (Nl : low <> []) by (apply n_finite_nonempty; lia).
  pose proof (length_sorted_values np_argsort low Pl) as Ll.
  pose proof (length_sorted_values np_argsort hi Ph) as Lh.
  unfold _discard_spurious_eigenvalues.
  step_with Hlow. step_with Hhi. step_refl. step_refl.
  rewrite (asarray_zip_tagged low Nl).
  step_by ltac:(rewrite getitem_mask_tagged).
  destruct hi as [|h0 hi'].
  { step_refl.
    step_by ltac:(rewrite (sort_by_real_ok _ _ Pl)).
    reflexivity. }
  set (hi := h0 :: hi') in *.
  rewrite (asarray_zip_tagged hi) by discriminate.
  step_by ltac:(rewrite getitem_mask_tagged).
  step_by ltac:(rewrite (sort_by_real_ok _ _ Pl)).
  step_by ltac:(rewrite (sort_by_real_ok _ _ Ph)).
  step_refl. step_refl.
  fold (sorted_rows np_argsort low) (sorted_rows np_argsort hi).
  fold (sorted_values np_argsort low) (sorted_values np_argsort hi).
  step_by ltac:(rewrite compute_sigmas_closed by lia).
  fold (sigmas_of np_abs np_argsort low).
  erewrite bindM_step by apply sigma_step. cbv beta.
  erewrite bindM_fail; [reflexivity|].
  rewrite lift_run, ordinal_delta_short; [reflexivity|apply length_sigmas_of|lia].
Qed.

End EngineTheory.

Lemma engine_state_holds low hi uo thr : holds (engine_state low hi uo thr) low hi uo thr.
Proof. repeat split. Qed.

(** * Claims about the rejection engine *)

Section EngineClaims.

Variable np_abs : complex -> float.
Variable np_argsort : list float -> list nat.

(** C3, as the code has it: when fewer than two low-resolution
    eigenvalues are finite (none, when all are NaN) the engine raises
    [IndexError], from the look-ups of the first spacing; nothing is
    returned, no attribute is set and nothing is logged. *)
Theorem few_finite_low_raises_index_error st low hi uo thr :
  holds st low hi uo thr ->
  argsort_ok np_argsort (finite_rows low) ->
  (n_finite low < 2)%nat ->
  _discard_spurious_eigenvalues np_abs np_argsort st = (Raise IndexError, st).
Proof. apply discard_few_low. Qed.

End EngineClaims.

Lemma few_finite_low_raises_index_error_witness :
  _discard_spurious_eigenvalues cabs NpySort.argsort
    (engine_state [c_nan; c_nan] [c_of_Z 1; c_of_Z 2] false f_1e6)
  = (Raise IndexError, engine_state [c_nan; c_nan] [c_of_Z 1; c_of_Z 2] false f_1e6).
Proof.
  apply (few_finite_low_raises_index_error cabs NpySort.argsort _
           [c_nan; c_nan] [c_of_Z 1; c_of_Z 2] false f_1e6).
  - apply engine_state_holds.
  - vm_compute. reflexivity.
  - vm_compute. lia.
Defined.

(** C3 as stated fails: with every low-resolution eigenvalue NaN the
    exception is an [IndexError], not a [ValueError]. *)
Lemma all_nan_low_is_not_value_error :
  fst (_discard_spurious_eigenvalues cabs NpySort.argsort
         (engine_state [c_nan; c_nan] [c_of_Z 1; c_of_Z 2] false f_1e6))
  = Raise IndexError /\
  fst (_discard_spurious_eigenvalues cabs NpySort.argsort
         (engine_state [c_nan; c_nan] [c_of_Z 1; c_of_Z 2] false f_1e6))
  <> Raise ValueError.
Proof.
  split.
  - vm_compute. reflexivity.
  - vm_compute. discriminate.
Qed.

(** * Positions stored as doubles

    A position below [2^53] survives the conversion to complex128 and the
    cast back to an integer. *)

Lemma digits2_pos_iter_xO m k :
  Zpos (digits2_pos (Pos.iter xO m k)) = Zpos (digits2_pos m) + Zpos k.
Proof.
  induction k as [|k IH] using Pos.peano_ind.
  - simpl. lia.
  - rewrite Pos.iter_succ. cbn [digits2_pos]. lia.
Qed.

Lemma Zpos_iter_xO m k : Zpos (Pos.iter xO m k) = Zpos m * 2 ^ Zpos k.
Proof.
  induction k as [|k IH] using Pos.peano_ind.
  - simpl. lia.
  - rewrite Pos.iter_succ. rewrite Pos2Z.inj_xO, IH.
    rewrite Pos2Z.inj_succ, Z.pow_succ_r by lia. lia.
Qed.

Lemma digits2_pos_lower m : 2 ^ (Zpos (digits2_pos m) - 1) <= Zpos m.
Proof.
  induction m as [m IH|m IH|]; cbn [digits2_pos].
  - rewrite Pos2Z.inj_succ.
    replace (Z.succ (Zpos (digits2_pos m)) - 1)
      with (Z.succ (Zpos (digits2_pos m) - 1)) by lia.
    rewrite Z.pow_succ_r by lia. lia.
  - rewrite Pos2Z.inj_succ.
    replace (Z.succ (Zpos (digits2_pos m)) - 1)
      with (Z.succ (Zpos (digits2_pos m) - 1)) by lia.
    rewrite Z.pow_succ_r by lia. lia.
  - simpl. lia.
Qed.

Lemma digits2_pos_bound m n : 0 <= n -> Zpos m < 2 ^ n -> Zpos (digits2_pos m) <= n.
Proof.
  intros Hn H. pose proof (digits2_pos_lower m) as L.
  destruct (Z_le_gt_dec (Zpos (digits2_pos m)) n) as [|G]; [assumption|exfalso].
  assert (2 ^ n <= 2 ^ (Zpos (digits2_pos m) - 1)) by (apply Z.pow_le_mono_r; lia).
  lia.
Qed.

(** Rounding a 53-bit mantissa with an exponent in range changes nothing. *)
Lemma binary_round_aux_exact s mz ez :
  Zpos (digits2_pos mz) = 53 -> -1074 <= ez <= 971 ->
  binary_round_aux 53 1024 s (Zpos mz) ez loc_Exact = S754_finite s mz ez.
Proof.
  intros Hd He.
  assert (Hs : shr_fexp 53 1024 (Zpos mz) ez loc_Exact
               = (Build_shr_record (Zpos mz) false false, ez)).
  { unfold shr_fexp, fexp, emin. cbn [Zdigits2]. rewrite Hd.
    replace (Z.max (53 + ez - 53) (3 - 1024 - 53) - ez) with 0 by lia.
    reflexivity. }
  unfold binary_round_aux. rewrite Hs.
  cbn [shr_m loc_of_shr_record round_nearest_even]. rewrite Hs. cbn [shr_m].
  replace (ez <=? 1024 - 53) with true by (symmetry; apply Z.leb_le; lia).
  reflexivity.
Qed.

Lemma of_Z_pos m :
  Zpos m < 2 ^ 53 ->
  exists mz ez, F64.of_Z (Zpos m) = S754_finite false mz ez /\
                -52 <= ez <= 0 /\ Zpos mz = Zpos m * 2 ^ (- ez).
Proof.
  intros H.
  pose proof (digits2_pos_bound m 53 ltac:(lia) H) as Hd.
  assert (Hd1 : 1 <= Zpos (digits2_pos m)) by lia.
  unfold F64.of_Z, F64.prec, F64.emax, binary_normalize, binary_round.
  set (d := Zpos (digits2_pos m)) in *.
  assert (Hf : fexp 53 1024 (d + 0) = d - 53) by (unfold fexp, emin; lia).
  rewrite Hf. unfold shl_align.
  destruct (d - 53 - 0) as [|p|p] eqn:E; try lia.
  - exists m, 0. split; [|split; [lia|change (2 ^ (- 0)) with 1; lia]].
    apply binary_round_aux_exact; [fold d; lia|lia].
  - exists (Pos.iter xO m p), (d - 53). split; [|split; [lia|]].
    + apply binary_round_aux_exact; [|lia].
      rewrite digits2_pos_iter_xO. fold d. lia.
    + rewrite Zpos_iter_xO. f_equal. f_equal. lia.
Qed.

(** Above [2^53] a position need not survive. *)
Lemma position_above_2_53_is_rounded :
  F64.to_int (F64.of_Z (2 ^ 53 + 1)) = 2 ^ 53.
Proof. vm_compute. reflexivity. Qed.

Lemma to_int_of_Z i : 0 <= i < 2 ^ 53 -> F64.to_int (F64.of_Z i) = i.
Proof.
  intros [H0 H1]. destruct i as [|m|m]; [reflexivity| |lia].
  destruct (of_Z_pos m H1) as (mz & ez & -> & He & Hm).
  unfold F64.to_int.
  assert (Hv : match ez with
               | 0 => Zpos mz
               | Zpos p => Zpos mz * 2 ^ Zpos p
               | Zneg p => Zpos mz / 2 ^ Zpos p
               end = Zpos m).
  { destruct ez as [|p|p]; cbv beta iota.
    - change (2 ^ (- 0)) with 1 in Hm. lia.
    - lia.
    - rewrite Hm. change (- Zneg p) with (Zpos p).
      apply Z.div_mul. apply Z.pow_nonzero; lia. }
  rewrite Hv. unfold F64.int64_min.
  change (2 ^ 53) with 9007199254740992 in H1.
  change (2 ^ 63) with 9223372036854775808.
  match goal with
  | |- (if (?a <=? ?b) && (?c <? ?d) then _ else _) = _ =>
      destruct (Z.leb_spec a b); destruct (Z.ltb_spec c d); cbn [andb];
      try reflexivity; lia
  end.
Qed.

(** Every row of the tagged array holds an eigenvalue and the position it
    has in the raw array. *)
Lemma tagged_in ev r :
  In r (tagged ev) ->
  exists k, (k < List.length ev)%nat /\ r = (nth k ev czero, c_of_Z (Z.of_nat k)).
Proof.
  unfold tagged. intros H. apply in_map_iff in H as ([v i] & <- & Hin).
  apply (In_nth _ _ (czero, 0)) in Hin as (k & Hk & E).
  rewrite length_combine, length_arange in Hk. unfold Np.len in Hk.
  rewrite combine_nth in E by (rewrite length_arange; unfold Np.len; lia).
  injection E as Ev Ei. exists k. split; [lia|].
  unfold tag. cbn [fst snd]. subst v. f_equal.
  unfold Np.arange, Np.range in Ei.
  rewrite (nth_indep _ 0 (0 + Z.of_nat 0)) in Ei
    by (rewrite length_map, length_seq; unfold Np.len; lia).
  change (0 + Z.of_nat 0) with ((fun k => 0 + Z.of_nat k) O) in Ei.
  rewrite map_nth in Ei. rewrite seq_nth in Ei by (unfold Np.len; lia).
  subst i. f_equal. 
Qed.

Lemma Forall2_map_same {A B C} (R : B -> C -> Prop) (f : A -> B) (g : A -> C) l :
  (forall x, In x l -> R (f x) (g x)) -> Forall2 R (map f l) (map g l).
Proof.
  induction l as [|x l IH]; intros H; simpl; constructor.
  - apply H. now left.
  - apply IH. intros y Hy. apply H. now right.
Qed.

Lemma finite_rows_finite ev r : In r (finite_rows ev) -> Np.isfinite (fst r) = true.
Proof.
  unfold finite_rows, tagged.
  generalize (Np.arange (Np.len ev)) as zs.
  induction ev as [|e ev IH]; intros [|z zs]; simpl; try tauto.
  destruct (Np.isfinite e) eqn:E; simpl.
  - intros [<-|H]; [exact E|eapply IH; eauto].
  - intros H. eapply IH; eauto.
Qed.

Lemma compress_map_filter {A B} (f : A -> bool) (xs : list A) (ys : list B) :
  Np.compress (map f xs) ys
  = map snd (filter (fun p => f (fst p)) (combine xs ys)).
Proof.
  revert ys; induction xs as [|x xs IH]; intros [|y ys]; simpl; try reflexivity.
  destruct (f x); simpl; now rewrite IH.
Qed.

Section AcceptanceClaims.

Variable np_abs : complex -> float.
Variable np_argsort : list float -> list nat.

(** A row the engine keeps carries the position of its eigenvalue in the
    raw low-resolution array. *)
Lemma kept_rows_index low hi uo thr r :
  argsort_ok np_argsort (finite_rows low) ->
  Z.of_nat (List.length low) <= 2 ^ 53 ->
  In r (kept_rows np_abs np_argsort low hi uo thr) ->
  0 <= F64.to_int (re (snd r)) /\
  Np.getitem low (F64.to_int (re (snd r))) = Ok (fst r).
Proof.
  intros Pl Hlen Hr.
  apply compress_incl in Hr. apply (sort_rows_incl _ _ _ Pl) in Hr.
  apply compress_incl in Hr. apply tagged_in in Hr as (k & Hk & ->).
  cbn [fst snd c_of_Z c_of_float re].
  rewrite to_int_of_Z by lia. split; [lia|].
  rewrite (getitem_nth low _ czero) by (unfold Np.len; lia).
  now rewrite Nat2Z.id.
Qed.

(** C1, with the precondition the ordinal look-up needs: when at least two
    low-resolution eigenvalues are finite and at least as many
    high-resolution ones are (arrays shorter than [2^53], so that positions
    are exact as doubles), the engine returns; the values returned are the
    sorted finite low-resolution eigenvalues whose inverse drift ([1 /
    delta_ordinal] when [use_ordinal] is set, [1 / delta_near] otherwise,
    both left on the instance) is greater than [drift_threshold], and each
    comes with an integer index at which the raw low-resolution array
    holds exactly that value. *)
Theorem accepted_by_inverse_drift_with_indices st low hi uo thr :
  holds st low hi uo thr ->
  argsort_ok np_argsort (finite_rows low) ->
  argsort_ok np_argsort (finite_rows hi) ->
  (2 <= n_finite low)%nat ->
  (n_finite low <= n_finite hi)%nat ->
  Z.of_nat (List.length low) <= 2 ^ 53 ->
  exists vals idxs st',
    _discard_spurious_eigenvalues np_abs np_argsort st = (Ok (vals, idxs), st') /\
    lookup "delta_ordinal" (obj st')
    = Some (VFloatArray (delta_ordinal_of np_abs np_argsort low hi)) /\
    lookup "delta_near" (obj st')
    = Some (VFloatArray (delta_near_of np_abs np_argsort low hi)) /\
    vals = map fst
             (map snd
                (filter (fun p => F64.ltb thr (fst p))
                        (combine (inverse_drift np_abs np_argsort low hi uo)
                                 (sorted_rows np_argsort low)))) /\
    Forall2 (fun v i => 0 <= i /\ Np.getitem low i = Ok v) vals idxs.
Proof.
  intros H Pl Ph Hn Hnh Hlen.
  eexists _, _, _. split; [apply discard_run_ok; eassumption|].
  split; [reflexivity|]. split; [reflexivity|]. split.
  - unfold kept_rows, accept_mask. now rewrite compress_map_filter.
  - rewrite map_map. apply Forall2_map_same.
    intros r Hr. eapply kept_rows_index; eauto.
Qed.

(** C10: whatever [use_ordinal] is, the engine completes exactly when at
    least two low-resolution eigenvalues are finite and at least as many
    high-resolution ones are; it raises [IndexError] when the finite
    high-resolution eigenvalues are fewer; with enough of them every
    ordinal look-up [eval_hi_sorted[j]] is in range; and the nearest delta
    raises no [IndexError] whatever the two lengths are, and is computed
    as soon as one high-resolution eigenvalue is finite. *)
Theorem ordinal_lookup_needs_enough_high st low hi uo thr :
  holds st low hi uo thr ->
  argsort_ok np_argsort (finite_rows low) ->
  argsort_ok np_argsort (finite_rows hi) ->
  ((exists r st', _discard_spurious_eigenvalues np_abs np_argsort st = (Ok r, st'))
   <-> (2 <= n_finite low <= n_finite hi)%nat) /\
  ((2 <= n_finite low)%nat -> (n_finite hi < n_finite low)%nat ->
   fst (_discard_spurious_eigenvalues np_abs np_argsort st) = Raise IndexError) /\
  ((n_finite low <= n_finite hi)%nat ->
   forall j, (j < n_finite low)%nat ->
     exists h, Np.getitem (sorted_values np_argsort hi) (Z.of_nat j) = Ok h) /\
  (forall sigmas,
     List.length sigmas = n_finite low ->
     nearest_delta np_abs (sorted_values np_argsort low)
                   (sorted_values np_argsort hi) sigmas <> Raise IndexError /\
     ((0 < n_finite hi)%nat ->
      exists d, nearest_delta np_abs (sorted_values np_argsort low)
                              (sorted_values np_argsort hi) sigmas = Ok d)).
Proof.
  intros H Pl Ph.
  pose proof (length_sorted_values np_argsort low Pl) as Ll.
  pose proof (length_sorted_values np_argsort hi Ph) as Lh.
  split; [|split; [|split]].
  - split.
    + intros (r & st' & E).
      destruct (Nat.lt_ge_cases (n_finite low) 2) as [Hlt|Hge].
      { rewrite (discard_few_low np_abs np_argsort _ _ _ _ _ H Pl Hlt) in E.
        discriminate. }
      destruct (Nat.lt_ge_cases (n_finite hi) (n_finite low)) as [Hs|Hs]; [|lia].
      pose proof (discard_short_hi np_abs np_argsort _ _ _ _ _ H Pl Ph Hge Hs) as F.
      rewrite E in F. discriminate.
    + intros [Hn Hnh]. eexists _, _. apply discard_run_ok; eassumption.
  - intros Hn Hs. eapply discard_short_hi; eassumption.
  - intros Hnh j Hj. eexists. apply (getitem_nth _ _ czero).
    unfold Np.len. lia.
  - intros sigmas Hs.
    assert (Ok_ne : (0 < n_finite hi)%nat ->
              nearest_delta np_abs (sorted_values np_argsort low)
                (sorted_values np_argsort hi) sigmas
              = Ok (map (nearest_at np_abs (sorted_values np_argsort low)
                           (sorted_values np_argsort hi) sigmas)
                        (seq 0 (List.length (sorted_values np_argsort low))))).
    { intros Hh. apply nearest_delta_ok; [lia|].
      intros E. rewrite E in Lh. simpl in Lh. lia. }
    split.
    + destruct (Nat.eq_0_gt_0_cases (n_finite hi)) as [Hz|Hp].
      * intros E. unfold nearest_delta in E.
        apply mapM_raise_inv in E as (j & Hj & Ej).
        apply in_range in Hj. unfold Np.len in Hj.
        rewrite (getitem_nth _ j czero) in Ej by (unfold Np.len; lia).
        rewrite bind_ok in Ej.
        rewrite (getitem_nth _ j F64.nan) in Ej by (unfold Np.len; lia).
        rewrite bind_ok in Ej.
        destruct (sorted_values np_argsort hi); simpl in Ej; discriminate.
      * rewrite (Ok_ne Hp). discriminate.
    + intros Hp. eexists. apply (Ok_ne Hp).
Qed.

End AcceptanceClaims.

Lemma accepted_by_inverse_drift_with_indices_witness :
  exists vals idxs st',
    _discard_spurious_eigenvalues cabs NpySort.argsort
      (engine_state [c_of_Z 4; c_of_Z 1; c_of_Z 2] [c_of_Z 5; c_of_Z 2; c_of_Z 1]
                    false f_1e6)
    = (Ok (vals, idxs), st') /\
    vals = [c_of_Z 1; c_of_Z 2] /\
    Forall2 (fun v i => 0 <= i /\ Np.getitem [c_of_Z 4; c_of_Z 1; c_of_Z 2] i = Ok v)
            vals idxs.
Proof.
  destruct (accepted_by_inverse_drift_with_indices cabs NpySort.argsort
              (engine_state [c_of_Z 4; c_of_Z 1; c_of_Z 2]
                            [c_of_Z 5; c_of_Z 2; c_of_Z 1] false f_1e6)
              [c_of_Z 4; c_of_Z 1; c_of_Z 2] [c_of_Z 5; c_of_Z 2; c_of_Z 1]
              false f_1e6)
    as (vals & idxs & st' & E & _ & _ & Ev & Hix).
  - apply engine_state_holds.
  - vm_compute. reflexivity.
  - vm_compute. reflexivity.
  - vm_compute. lia.
  - vm_compute. lia.
  - vm_compute. discriminate.
  - exists vals, idxs, st'. split; [exact E|]. split; [|exact Hix].
    rewrite Ev. vm_compute. reflexivity.
Defined.

(** C1 as stated fails: two finite low-resolution eigenvalues and a single
    high-resolution one.  The inverse nearest drift of the first eigenvalue
    is infinite, above the threshold, yet the engine raises [IndexError]
    from the ordinal look-up and accepts nothing. *)
Lemma accepted_needs_enough_high_eigenvalues :
  inverse_drift cabs NpySort.argsort [c_of_Z 1; c_of_Z 2] [c_of_Z 1] false
  = [F64.inf; F64.one] /\
  F64.ltb f_1e6 F64.inf = true /\
  fst (_discard_spurious_eigenvalues cabs NpySort.argsort
         (engine_state [c_of_Z 1; c_of_Z 2] [c_of_Z 1] false f_1e6))
  = Raise IndexError.
Proof.
  split; [|split]; vm_compute; reflexivity.
Qed.

Lemma ordinal_lookup_needs_enough_high_witness :
  (exists r st',
      _discard_spurious_eigenvalues cabs NpySort.argsort
        (engine_state [c_of_Z 1; c_of_Z 2] [c_of_Z 1; c_of_Z 2; c_of_Z 3] true f_1e6)
      = (Ok r, st'))
  <-> (2 <= n_finite [c_of_Z 1; c_of_Z 2]
       <= n_finite [c_of_Z 1; c_of_Z 2; c_of_Z 3])%nat.
Proof.
  apply (ordinal_lookup_needs_enough_high cabs NpySort.argsort
           (engine_state [c_of_Z 1; c_of_Z 2] [c_of_Z 1; c_of_Z 2; c_of_Z 3] true f_1e6)
           [c_of_Z 1; c_of_Z 2] [c_of_Z 1; c_of_Z 2; c_of_Z 3] true f_1e6).
  - apply engine_state_holds.
  - vm_compute. reflexivity.
  - vm_compute. reflexivity.
Defined.

(** * Division by a zero spacing *)

Lemma length_compress_le {A} (mask : list bool) (xs : list A) :
  (List.length (Np.compress mask xs) <= List.length xs)%nat.
Proof.
  revert xs; induction mask as [|b mask IH]; intros [|x xs]; simpl; try lia.
  specialize (IH xs). destruct b; simpl; lia.
Qed.

Lemma NoDup_compress {A} (mask : list bool) (xs : list A) :
  NoDup xs -> NoDup (Np.compress mask xs).
Proof.
  revert xs; induction mask as [|b mask IH]; intros [|x xs] H; simpl; try constructor.
  inversion H as [|? ? Hx Hxs]; subst.
  destruct b; [constructor|]; auto.
  intros Hin. apply Hx. eapply compress_incl; eauto.
Qed.

Lemma map_compress {A B} (f : A -> B) (mask : list bool) (xs : list A) :
  map f (Np.compress mask xs) = Np.compress mask (map f xs).
Proof.
  revert xs; induction mask as [|b mask IH]; intros [|x xs]; simpl; try reflexivity.
  destruct b; simpl; now rewrite IH.
Qed.

Lemma NoDup_arange n : NoDup (Np.arange n).
Proof.
  unfold Np.arange, Np.range. apply Finite.Injective_map_NoDup; [|apply seq_NoDup].
  intros a b H. lia.
Qed.

(** Below [2^53] entries the position column reads back as [0, 1, ...]. *)
Lemma positions_tagged ev :
  Z.of_nat (List.length ev) <= 2 ^ 53 ->
  map position (tagged ev) = Np.arange (Np.len ev).
Proof.
  intros Hlen. unfold tagged.
  assert (G : forall (zs : list Z),
             List.length zs = List.length ev ->
             (forall z, In z zs -> 0 <= z < 2 ^ 53) ->
             map position (map tag (combine ev zs)) = zs).
  { clear Hlen. induction ev as [|v ev IH]; intros [|z zs] Hl Hz; simpl in Hl;
      try discriminate; [reflexivity|].
    cbn [combine map]. f_equal.
    - unfold position, tag. cbn [fst snd c_of_Z c_of_float re].
      apply to_int_of_Z. apply Hz. now left.
    - apply IH; [lia|]. intros y Hy. apply Hz. now right. }
  apply G.
  - rewrite length_arange. unfold Np.len. lia.
  - intros z Hz. apply in_range in Hz. unfold Np.len in Hz. lia.
Qed.

(** An entry whose mask is false is not selected, and the selection is
    shorter than the array. *)
Lemma compress_masked_out {A B} (f : A -> B) (mask : list bool) (xs : list A) j d :
  NoDup (map f xs) -> (j < List.length xs)%nat -> nth j mask true = false ->
  ~ In (f (nth j xs d)) (map f (Np.compress mask xs)).
Proof.
  revert xs j; induction mask as [|b mask IH]; intros [|x xs] j Hnd Hj Hm;
    simpl in Hj; try lia.
  - destruct j; discriminate.
  - cbn [map] in Hnd. inversion Hnd as [|? ? Hx Hxs]; subst.
    destruct j as [|j]; cbn [nth] in *.
    + subst b. cbn [Np.compress]. intros Hin. apply Hx.
      apply in_map_iff in Hin as (y & <- & Hy). apply in_map.
      eapply compress_incl; eauto.
    + assert (Hne : f (nth j xs d) <> f x).
      { intros E. apply Hx. rewrite <- E. apply in_map, nth_In. lia. }
      cbn [Np.compress]. destruct b; cbn [map In].
      * intros [E|Hin]; [now apply Hne|]. revert Hin. apply IH; auto; lia.
      * apply IH; auto; lia.
Qed.

Lemma compress_masked_length {A} (mask : list bool) (xs : list A) j :
  (j < List.length xs)%nat -> nth j mask true = false ->
  (List.length (Np.compress mask xs) < List.length xs)%nat.
Proof.
  revert xs j; induction mask as [|b mask IH]; intros [|x xs] j Hj Hm;
    simpl in Hj; try lia.
  - destruct j; discriminate.
  - destruct j as [|j]; cbn [nth] in Hm.
    + subst b. cbn [Np.compress List.length].
      pose proof (length_compress_le mask xs). lia.
    + assert (Hlt : (j < List.length xs)%nat) by lia.
      specialize (IH xs j Hlt Hm).
      cbn [Np.compress]. destruct b; cbn [List.length]; lia.
Qed.

Lemma div_zero_inf_or_nan x s : inf_or_nan (F64.div x (S754_zero s)) = true.
Proof. destruct x as [sx|sx| |sx mx ex]; reflexivity. Qed.

Lemma div_zero_is_nan x s :
  F64.is_nan (F64.div x (S754_zero s)) = F64.is_zero x || F64.is_nan x.
Proof. destruct x as [sx|sx| |sx mx ex]; reflexivity. Qed.

Lemma div_one_zero_or_nan y :
  inf_or_nan y = true -> zero_or_nan (F64.div F64.one y) = true.
Proof. destruct y as [sy|sy| |sy my ey]; try discriminate; reflexivity. Qed.

Lemma ltb_zero_or_nan thr z :
  F64.ltb thr F64.zero = false -> zero_or_nan z = true -> F64.ltb thr z = false.
Proof.
  destruct z as [sz|sz| |sz mz ez]; try discriminate; intros H _.
  - destruct thr as [st|st| |st mt et]; try reflexivity; exact H.
  - destruct thr; reflexivity.
Qed.

Lemma fmin_cases x y : Np.fmin x y = x \/ Np.fmin x y = y.
Proof. unfold Np.fmin. destruct (F64.leb x y || F64.is_nan y); auto. Qed.

Lemma fold_left_fmin_closed (P : float -> bool) a x :
  P x = true -> (forall y, In y a -> P y = true) ->
  P (fold_left Np.fmin a x) = true.
Proof.
  revert x; induction a as [|y a IH]; intros x Hx Ha; simpl; [exact Hx|].
  apply IH.
  - destruct (fmin_cases x y) as [-> | ->]; [exact Hx|apply Ha; now left].
  - intros z Hz. apply Ha. now right.
Qed.

Lemma fold_fmin_closed (P : float -> bool) a :
  a <> [] -> (forall y, In y a -> P y = true) -> P (fold_fmin a) = true.
Proof.
  destruct a as [|x a]; [congruence|]. intros _ H. simpl.
  apply fold_left_fmin_closed; [apply H; now left|].
  intros y Hy. apply H. now right.
Qed.

Section ZeroSpacingClaims.

Variable np_abs : complex -> float.
Variable np_argsort : list float -> list nat.

(** Below [2^53] entries the rows of the sorted array carry distinct
    positions, and each position is the index at which the raw array
    holds the eigenvalue of the row. *)
Lemma sorted_positions_nodup low :
  argsort_ok np_argsort (finite_rows low) ->
  Z.of_nat (List.length low) <= 2 ^ 53 ->
  NoDup (map position (sorted_rows np_argsort low)).
Proof.
  intros Pl Hlen. unfold sorted_rows.
  apply (Permutation_NoDup (Permutation_map position (sort_rows_perm _ _ Pl))).
  unfold finite_rows. rewrite map_compress. apply NoDup_compress.
  rewrite positions_tagged by exact Hlen. apply NoDup_arange.
Qed.

Lemma sorted_row_index low j :
  argsort_ok np_argsort (finite_rows low) ->
  Z.of_nat (List.length low) <= 2 ^ 53 ->
  (j < n_finite low)%nat ->
  Np.getitem low (position (nth j (sorted_rows np_argsort low) drow))
  = Ok (item (sorted_values np_argsort low) j).
Proof.
  intros Pl Hlen Hj.
  assert (Hin : In (nth j (sorted_rows np_argsort low) drow)
                   (sorted_rows np_argsort low)).
  { apply nth_In. unfold sorted_rows.
    rewrite length_sort_rows by exact Pl. now rewrite length_finite_rows. }
  assert (Ei : item (sorted_values np_argsort low) j
               = fst (nth j (sorted_rows np_argsort low) drow)).
  { unfold item, sorted_values. change czero with (fst drow). apply map_nth. }
  rewrite Ei.
  remember (nth j (sorted_rows np_argsort low) drow) as r eqn:Er. clear Er Ei.
  apply (sort_rows_incl _ _ _ Pl) in Hin.
  apply compress_incl in Hin. apply tagged_in in Hin as (k & Hk & ->).
  unfold position. cbn [fst snd c_of_Z c_of_float re].
  rewrite to_int_of_Z by lia.
  rewrite (getitem_nth low _ czero) by (unfold Np.len; lia).
  now rewrite Nat2Z.id.
Qed.

(** C9, as the code has it.  When the spacings and the ordinal look-ups
    are defined (two finite low-resolution eigenvalues, at least as many
    high-resolution ones) the engine returns, whatever the spacings are:
    a non-finite spacing adds one warning to the log and nothing else.
    Where [sigma[j]] is zero both drift ratios are infinite or NaN (the
    ordinal one is NaN exactly when the distance is zero or NaN), the
    inverse drift is zero or NaN, and as long as [drift_threshold] is not
    negative the eigenvalue at sorted position [j] is rejected: fewer
    eigenvalues are returned than are finite and, on arrays of at most
    [2^53] entries, the index at which the raw array holds that
    eigenvalue is not among the indices returned. *)
Theorem zero_spacing_is_rejected_without_raising st low hi uo thr :
  holds st low hi uo thr ->
  argsort_ok np_argsort (finite_rows low) ->
  argsort_ok np_argsort (finite_rows hi) ->
  (2 <= n_finite low)%nat ->
  (n_finite low <= n_finite hi)%nat ->
  exists vals idxs,
    _discard_spurious_eigenvalues np_abs np_argsort st
    = (Ok (vals, idxs), final_state np_abs np_argsort st low hi) /\
    logged (final_state np_abs np_argsort st low hi)
    = logged st ++ (if forallb F64.is_finite (sigmas_of np_abs np_argsort low)
                    then [] else [sigma_warning]) /\
    forall j,
      (j < n_finite low)%nat ->
      F64.is_zero (nth j (sigmas_of np_abs np_argsort low) F64.nan) = true ->
      inf_or_nan (nth j (delta_ordinal_of np_abs np_argsort low hi) F64.nan) = true /\
      F64.is_nan (nth j (delta_ordinal_of np_abs np_argsort low hi) F64.nan)
      = (let d := np_abs (csub (item (sorted_values np_argsort low) j)
                               (item (sorted_values np_argsort hi) j)) in
         F64.is_zero d || F64.is_nan d) /\
      inf_or_nan (nth j (delta_near_of np_abs np_argsort low hi) F64.nan) = true /\
      zero_or_nan (nth j (inverse_drift np_abs np_argsort low hi uo) F64.nan) = true /\
      (F64.ltb thr F64.zero = false ->
       nth j (accept_mask np_abs np_argsort low hi uo thr) true = false /\
       (List.length vals < n_finite low)%nat /\
       (Z.of_nat (List.length low) <= 2 ^ 53 ->
        Np.getitem low (position (nth j (sorted_rows np_argsort low) drow))
        = Ok (item (sorted_values np_argsort low) j) /\
        ~ In (position (nth j (sorted_rows np_argsort low) drow)) idxs)).
Proof.
  intros H Pl Ph Hn Hnh.
  pose proof (length_sorted_values np_argsort low Pl) as Ll.
  pose proof (length_sorted_values np_argsort hi Ph) as Lh.
  assert (Lr : List.length (sorted_rows np_argsort low) = n_finite low).
  { unfold sorted_rows. rewrite length_sort_rows by exact Pl.
    apply length_finite_rows. }
  eexists _, _. split; [apply discard_run_ok; eassumption|].
  split; [reflexivity|].
  intros j Hj Hz.
  destruct (nth j (sigmas_of np_abs np_argsort low) F64.nan) as [s| | |] eqn:Es;
    try discriminate.
  assert (Eo : nth j (delta_ordinal_of np_abs np_argsort low hi) F64.nan
               = F64.div (np_abs (csub (item (sorted_values np_argsort low) j)
                                       (item (sorted_values np_argsort hi) j)))
                         (S754_zero s)).
  { unfold delta_ordinal_of. rewrite nth_map_seq by lia.
    unfold ordinal_at. now rewrite Es. }
  assert (En : inf_or_nan (nth j (delta_near_of np_abs np_argsort low hi) F64.nan)
               = true).
  { unfold delta_near_of. rewrite nth_map_seq by lia.
    unfold nearest_at. apply fold_fmin_closed.
    - unfold ratios. intros E. apply map_eq_nil in E.
      rewrite E in Lh. simpl in Lh. lia.
    - intros y Hy. unfold ratios in Hy. apply in_map_iff in Hy as (h & <- & _).
      rewrite Es. apply div_zero_inf_or_nan. }
  assert (Ei : zero_or_nan (nth j (inverse_drift np_abs np_argsort low hi uo) F64.nan)
               = true).
  { unfold inverse_drift.
    change F64.nan with (F64.div F64.one F64.nan) at 1. rewrite map_nth.
    apply div_one_zero_or_nan. destruct uo; [|exact En].
    rewrite Eo. apply div_zero_inf_or_nan. }
  split; [rewrite Eo; apply div_zero_inf_or_nan|].
  split; [rewrite Eo; apply div_zero_is_nan|].
  split; [exact En|]. split; [exact Ei|].
  intros Hthr.
  assert (Em : nth j (accept_mask np_abs np_argsort low hi uo thr) true = false).
  { unfold accept_mask.
    rewrite (nth_indep _ true (F64.ltb thr F64.nan)).
    2:{ rewrite length_map. unfold inverse_drift. rewrite length_map.
        destruct uo; unfold delta_ordinal_of, delta_near_of;
          rewrite length_map, length_seq; lia. }
    rewrite (map_nth (fun x => F64.ltb thr x)).
    apply ltb_zero_or_nan; assumption. }
  assert (Hj' : (j < List.length (sorted_rows np_argsort low))%nat)
    by (rewrite Lr; exact Hj).
  split; [exact Em|]. split.
  - rewrite length_map, <- Lr. unfold kept_rows.
    apply (compress_masked_length _ _ j); [exact Hj'|exact Em].
  - intros Hlen. split; [now apply sorted_row_index|].
    rewrite map_map. unfold kept_rows.
    apply (compress_masked_out position); [|exact Hj'|exact Em].
    now apply sorted_positions_nodup.
Qed.

End ZeroSpacingClaims.

Lemma zero_spacing_is_rejected_without_raising_witness :
  exists vals idxs,
    fst (_discard_spurious_eigenvalues cabs NpySort.argsort
           (engine_state [c_of_Z 1; c_of_Z 1] [c_of_Z 1; c_of_Z 2] false f_1e6))
    = Ok (vals, idxs) /\
    F64.is_zero (nth 0 (sigmas_of cabs NpySort.argsort [c_of_Z 1; c_of_Z 1]) F64.nan)
    = true /\
    Np.getitem [c_of_Z 1; c_of_Z 1] 0 = Ok (c_of_Z 1) /\
    ~ In 0 idxs.
Proof.
  destruct (zero_spacing_is_rejected_without_raising cabs NpySort.argsort
              (engine_state [c_of_Z 1; c_of_Z 1] [c_of_Z 1; c_of_Z 2] false f_1e6)
              [c_of_Z 1; c_of_Z 1] [c_of_Z 1; c_of_Z 2] false f_1e6)
    as (vals & idxs & E & _ & Hj).
  - apply engine_state_holds.
  - vm_compute. reflexivity.
  - vm_compute. reflexivity.
  - vm_compute. lia.
  - vm_compute. lia.
  - exists vals, idxs. split; [now rewrite E|].
    split; [vm_compute; reflexivity|]. split; [reflexivity|].
    destruct (Hj 0%nat) as (_ & _ & _ & _ & Hr).
    + vm_compute. lia.
    + vm_compute. reflexivity.
    + destruct Hr as (_ & _ & Hp); [vm_compute; reflexivity|].
      destruct Hp as (_ & Hp); [vm_compute; discriminate|].
      assert (P : position (nth 0 (sorted_rows NpySort.argsort [c_of_Z 1; c_of_Z 1])
                                drow) = 0)
        by (vm_compute; reflexivity).
      rewrite <- P. exact Hp.
Defined.

(** C9 as stated fails, on a duplicated low-resolution eigenvalue:
    with [low = [1, 1]], [high = [1, 2]], the ordinal metric and the
    threshold [-1] both spacings are zero, the first ordinal drift ratio
    is NaN and not infinite, and the second eigenvalue (infinite drift,
    inverse drift [0 > -1]) is accepted; with a single high-resolution
    eigenvalue the engine raises [IndexError]. *)
Lemma zero_spacing_nan_accepted_or_raising :
  sigmas_of cabs NpySort.argsort [c_of_Z 1; c_of_Z 1] = [F64.zero; F64.zero] /\
  delta_ordinal_of cabs NpySort.argsort [c_of_Z 1; c_of_Z 1] [c_of_Z 1; c_of_Z 2]
  = [F64.nan; F64.inf] /\
  fst (_discard_spurious_eigenvalues cabs NpySort.argsort
         (engine_state [c_of_Z 1; c_of_Z 1] [c_of_Z 1; c_of_Z 2] true f_minus_1))
  = Ok ([c_of_Z 1], [1]) /\
  fst (_discard_spurious_eigenvalues cabs NpySort.argsort
         (engine_state [c_of_Z 1; c_of_Z 1] [c_of_Z 1] true f_1e6))
  = Raise IndexError.
Proof.
  repeat split; vm_compute; reflexivity.
Qed.

(** * The order of finite doubles *)

Ltac norm_cmp :=
  repeat match goal with
         | |- context [Pos.compare_cont Eq ?a ?b] =>
             change (Pos.compare_cont Eq a b) with (Pos.compare a b)
         end.

Lemma leb_total x y :
  F64.is_finite x = true -> F64.is_finite y = true ->
  F64.ltb y x = false -> F64.leb x y = true.
Proof.
  unfold F64.ltb, F64.leb, SFltb, SFleb.
  destruct x as [sx|sx| |sx mx ex], y as [sy|sy| |sy my ey]; simpl;
    try discriminate; auto.
  - destruct sy; auto.
  - destruct sx; auto.
  - destruct sx, sy; auto; norm_cmp;
      destruct (Z.compare_spec ex ey), (Z.compare_spec ey ex);
      simpl; auto; try lia; try discriminate;
      destruct (Pos.compare_spec mx my), (Pos.compare_spec my mx);
      simpl; auto; try lia; try discriminate.
Qed.

Lemma leb_trans x y z :
  F64.is_finite x = true -> F64.is_finite y = true -> F64.is_finite z = true ->
  F64.leb x y = true -> F64.leb y z = true -> F64.leb x z = true.
Proof.
  unfold F64.leb, SFleb.
  destruct x as [sx|sx| |sx mx ex], y as [sy|sy| |sy my ey], z as [sz|sz| |sz mz ez];
    simpl; try discriminate; auto; intros _ _ _;
    repeat match goal with s : bool |- _ => destruct s end;
    simpl; try discriminate; auto;
    norm_cmp;
    repeat match goal with
           | |- context [Z.compare ?a ?b] => destruct (Z.compare_spec a b)
           end;
    simpl; try discriminate; auto; try lia; subst;
    repeat match goal with
           | |- context [Pos.compare ?a ?b] => destruct (Pos.compare_spec a b)
           end;
    simpl; try discriminate; auto; try lia.
Qed.

(** Finite keys with no descent between neighbours are in order pairwise. *)
Lemma ascending_head x rest :
  F64.is_finite x = true ->
  Forall (fun k => F64.is_finite k = true) rest ->
  ascending (x :: rest) = true ->
  forall z, In z rest -> F64.leb x z = true.
Proof.
  revert x; induction rest as [|y r IH]; intros x Fx Fr Ha z Hz; [destruct Hz|].
  inversion Fr as [|? ? Fy Fr']; subst.
  cbn [ascending] in Ha. apply andb_prop in Ha as [Hxy Hr].
  apply negb_true_iff in Hxy.
  pose proof (leb_total x y Fx Fy Hxy) as Lxy.
  destruct Hz as [<-|Hz]; [exact Lxy|].
  apply (leb_trans x y z Fx Fy); [|exact Lxy|].
  - rewrite Forall_forall in Fr'. now apply Fr'.
  - eapply IH; eauto.
Qed.

Lemma ascending_tail x rest : ascending (x :: rest) = true -> ascending rest = true.
Proof.
  destruct rest as [|y r]; [reflexivity|].
  cbn [ascending]. intros H. now apply andb_prop in H as [_ H].
Qed.

Lemma ascending_pairs keys :
  Forall (fun k => F64.is_finite k = true) keys ->
  ascending keys = true ->
  forall i j, (i < j < List.length keys)%nat ->
    F64.leb (nth i keys F64.nan) (nth j keys F64.nan) = true.
Proof.
  induction keys as [|x rest IH]; intros Fk Ha i j Hij; [simpl in Hij; lia|].
  inversion Fk as [|? ? Fx Fr]; subst.
  destruct j as [|j]; [lia|]. cbn [List.length] in Hij.
  destruct i as [|i].
  - cbn [nth]. eapply ascending_head; eauto. apply nth_In. lia.
  - cbn [nth]. apply IH; [exact Fr|eapply ascending_tail; eauto|lia].
Qed.

(** * Claims about the sort step *)

Section SortClaims.

Variable np_argsort : list float -> list nat.

Lemma sorted_keys rows :
  argsort_ok np_argsort rows ->
  map (fun r => re (fst r)) (sort_rows np_argsort rows)
  = map (fun k => nth k (sort_keys rows) F64.nan) (np_argsort (sort_keys rows)).
Proof.
  intros H. unfold sort_rows. rewrite map_map. apply map_ext_in.
  intros k Hk. pose proof (is_permutation_bound _ _ _ H Hk) as Hb.
  unfold sort_keys. rewrite map_map.
  rewrite (nth_indep _ F64.nan (re (fst drow))) by (rewrite length_map; exact Hb).
  now rewrite (map_nth (fun r => re (fst r))).
Qed.

(** C6, as the code has it: the finite entries come out as a permutation
    of themselves, each with its position tag, and in ascending order of
    the real part, whenever [np.argsort] returns what it promises (a
    permutation under which no key is less than the one before it).
    Nothing is said about entries with equal real parts. *)
Theorem sort_orders_by_real_part (ev : list complex) :
  argsort_ok np_argsort (finite_rows ev) ->
  argsort_ascending np_argsort (finite_rows ev) ->
  sort_by_real np_argsort (Arr2 (finite_rows ev))
  = Ok (Arr2 (sorted_rows np_argsort ev)) /\
  Permutation (finite_rows ev) (sorted_rows np_argsort ev) /\
  forall i j, (i < j < List.length (sorted_rows np_argsort ev))%nat ->
    F64.leb (re (fst (nth i (sorted_rows np_argsort ev) drow)))
            (re (fst (nth j (sorted_rows np_argsort ev) drow))) = true.
Proof.
  intros P Asc.
  split; [now apply sort_by_real_ok|].
  split; [now apply sort_rows_perm|].
  intros i j Hij.
  set (srt := sorted_rows np_argsort ev) in *.
  assert (Hk : forall k, nth k (map (fun r => re (fst r)) srt) F64.nan
                         = re (fst (nth k srt drow)) \/ (List.length srt <= k)%nat).
  { intros k. destruct (Nat.lt_ge_cases k (List.length srt)) as [L|G]; [left|now right].
    rewrite (nth_indep _ F64.nan (re (fst drow))) by (rewrite length_map; exact L).
    now rewrite (map_nth (fun r => re (fst r))). }
  destruct (Hk i) as [<-|]; [|lia]. destruct (Hk j) as [<-|]; [|lia].
  apply ascending_pairs.
  - apply Forall_forall. intros x Hx. apply in_map_iff in Hx as (r & <- & Hr).
    apply (sort_rows_incl _ _ _ P) in Hr. apply finite_rows_finite in Hr.
    unfold Np.isfinite in Hr. now apply andb_prop in Hr as [Hr _].
  - unfold srt, sorted_rows. rewrite sorted_keys by exact P. exact Asc.
  - now rewrite length_map.
Qed.

End SortClaims.

Lemma sort_orders_by_real_part_witness :
  Permutation (finite_rows [c_of_Z 4; c_nan; c_of_Z 1; c_of_Z 2])
              (sorted_rows NpySort.argsort [c_of_Z 4; c_nan; c_of_Z 1; c_of_Z 2]).
Proof.
  apply (sort_orders_by_real_part NpySort.argsort
           [c_of_Z 4; c_nan; c_of_Z 1; c_of_Z 2]).
  - vm_compute. reflexivity.
  - vm_compute. reflexivity.
Defined.

(** C6 as stated fails: the sort is not stable.  All eighteen real parts
    are equal, [np.argsort] keeps within its promise, and the entries
    that were at positions 1 to 15 come out in reverse order. *)
Lemma sort_by_real_is_not_stable :
  forallb (fun z => F64.eqb (re z) F64.zero) ties18 = true /\
  is_permutation (NpySort.argsort (sort_keys (finite_rows ties18))) 18 = true /\
  ascending (map (fun k => nth k (sort_keys (finite_rows ties18)) F64.nan)
                 (NpySort.argsort (sort_keys (finite_rows ties18)))) = true /\
  (r <- sort_by_real NpySort.argsort (Arr2 (finite_rows ties18)) ;;
   c1 <- column r 1 ;;
   Ok (map (fun c => F64.to_int (re c)) c1))
  = Ok [0; 15; 14; 13; 12; 11; 10; 9; 8; 7; 6; 5; 4; 3; 2; 1; 16; 17].
Proof.
  repeat split; vm_compute; reflexivity.
Qed.

(** * Claims about [solve] and [growth_rate] *)

Section SolveClaims.

Variable np_abs : complex -> float.
Variable np_argsort : list float -> list nat.
Variable update_EVP_params : string -> string -> value -> res unit.

(** Without rejection the parameter updates touch the base problem only:
    they leave the instance as it is, or the first failing one raises. *)
Lemma set_parameters_without_reject ps st :
  lookup "reject" (obj st) = Some (VBool false) ->
  _set_parameters update_EVP_params ps st = (Ok tt, st) \/
  exists e, _set_parameters update_EVP_params ps st = (Raise e, st).
Proof.
  intros Hr. induction ps as [|[k v] ps IH]; [now left|].
  assert (Eq : _set_parameters update_EVP_params ((k, v) :: ps) st
               = match update_EVP_params "EVP" k v with
                 | Ok _ => _set_parameters update_EVP_params ps st
                 | Raise e => (Raise e, st)
                 end).
  { cbn [_set_parameters].
    destruct (update_EVP_params "EVP" k v) as [[]|e]; [|reflexivity].
    erewrite bindM_step by reflexivity.
    erewrite bindM_step by (apply getattr_ok; exact Hr).
    erewrite bindM_step by reflexivity.
    erewrite bindM_step by reflexivity.
    reflexivity. }
  rewrite Eq. destruct (update_EVP_params "EVP" k v) as [[]|e]; [exact IH|].
  right. now exists e.
Qed.

(** C8, what the code does instead: on an instance constructed with
    [reject=False] no call of [solve] completes.  Whatever the base solver
    returns, [solve] raises [AttributeError] at [self.evalues_lowres], an
    attribute that nothing assigns: [evalues_low] holds the solver's
    eigenvalues, [evalues] is still [None] and [evalues_index] does not
    exist.  With parameters to set, the call raises all the same (from a
    failing update, or as before). *)
Theorem solve_without_rejection_raises_attribute_error
        (ev : list complex) (sparse : bool) (pencil N target : value)
        (factor scales drift_threshold use_ordinal grow_func freq_func : value) :
  let st := new (VBool false) factor scales drift_threshold use_ordinal
                grow_func freq_func in
  let r := solve np_abs np_argsort (fun _ _ => Ok ev) update_EVP_params
                 sparse None pencil N target st in
  lookup "evalues_lowres" (obj st) = None /\
  fst r = Raise AttributeError /\
  lookup "evalues_low" (obj (snd r)) = Some (VComplexArray ev) /\
  lookup "evalues" (obj (snd r)) = Some VNone /\
  lookup "evalues_index" (obj (snd r)) = None /\
  forall parameters,
  exists e,
    fst (solve np_abs np_argsort (fun _ _ => Ok ev) update_EVP_params
               sparse parameters pencil N target st) = Raise e.
Proof.
  cbv zeta. repeat split.
  intros [[|p ps]|]; try (exists AttributeError; reflexivity).
  set (st := new (VBool false) factor scales drift_threshold use_ordinal
                 grow_func freq_func).
  destruct (set_parameters_without_reject (p :: ps) st eq_refl) as [E|[e E]].
  - exists AttributeError. unfold solve.
    erewrite bindM_step by exact E. reflexivity.
  - exists e. unfold solve.
    erewrite bindM_fail by exact E. reflexivity.
Qed.

Variable run : string -> bool -> res (list complex).

(** C4, what the code does instead: when [solve] raises the dense failure
    ([LinAlgError]) or a sparse one ([ArpackNoConvergence], [ArpackError]),
    the handler that would return [(nan, nan, nan)] first evaluates the
    name [params], which is bound nowhere, and [growth_rate] raises
    [NameError]; nothing is logged. *)
Theorem growth_rate_handler_raises_name_error
        (sparse : bool) (parameters : option (list (string * value)))
        (pencil N target : value) (st st' : state) (e : exn) :
  solve np_abs np_argsort run update_EVP_params sparse parameters pencil N target st
  = (Raise e, st') ->
  e = LinAlgError \/ e = ArpackNoConvergence \/ e = ArpackError ->
  growth_rate np_abs np_argsort run update_EVP_params sparse parameters
              pencil N target st
  = (Raise NameError, st').
Proof.
  intros Hs He. unfold growth_rate, try_except.
  erewrite bindM_fail by exact Hs.
  destruct He as [-> | [-> | ->]]; reflexivity.
Qed.

(** C5, what the code does instead: when [solve] succeeds and leaves an
    empty accepted set, [np.max] of the empty array raises [ValueError],
    no handler of [growth_rate] catches it, and the call raises. *)
Theorem growth_rate_empty_accepted_raises_value_error
        (sparse : bool) (parameters : option (list (string * value)))
        (pencil N target : value) (st st' : state)
        (g : list complex -> list float) :
  solve np_abs np_argsort run update_EVP_params sparse parameters pencil N target st
  = (Ok tt, st') ->
  lookup "evalues" (obj st') = Some (VComplexArray []) ->
  lookup "grow_func" (obj st') = Some (VArrayFun g) ->
  g [] = [] ->
  growth_rate np_abs np_argsort run update_EVP_params sparse parameters
              pencil N target st
  = (Raise ValueError, st').
Proof.
  intros Hs Hev Hg Hempty. unfold growth_rate, try_except.
  erewrite bindM_step by exact Hs.
  assert (Hgo : grow_of_evalues st' = (Ok (g []), st')).
  { unfold grow_of_evalues.
    erewrite bindM_step by (apply getattr_ok; exact Hg).
    erewrite bindM_step by (apply getattr_ok; exact Hev).
    reflexivity. }
  erewrite bindM_step by exact Hgo.
  rewrite Hempty. reflexivity.
Qed.

End SolveClaims.

Lemma growth_rate_handler_raises_name_error_witness :
  fst (growth_rate cabs NpySort.argsort dense_failure updates_ok false None
                   (VInt 0) (VInt 15) (VInt 0) default_instance)
  = Raise NameError.
Proof.
  rewrite (growth_rate_handler_raises_name_error cabs NpySort.argsort updates_ok
             dense_failure false None (VInt 0) (VInt 15) (VInt 0) default_instance
             (snd (solve cabs NpySort.argsort dense_failure updates_ok false None
                         (VInt 0) (VInt 15) (VInt 0) default_instance))
             LinAlgError).
  - reflexivity.
  - vm_compute. reflexivity.
  - left. reflexivity.
Defined.

Lemma growth_rate_empty_accepted_raises_value_error_witness :
  fst (growth_rate cabs NpySort.argsort drifting_solves updates_ok false None
                   (VInt 0) (VInt 15) (VInt 0) default_instance)
  = Raise ValueError.
Proof.
  rewrite (growth_rate_empty_accepted_raises_value_error cabs NpySort.argsort
             updates_ok drifting_solves false None (VInt 0) (VInt 15) (VInt 0)
             default_instance
             (snd (solve cabs NpySort.argsort drifting_solves updates_ok false None
                         (VInt 0) (VInt 15) (VInt 0) default_instance))
             (map re)).
  - reflexivity.
  - vm_compute. reflexivity.
  - vm_compute. reflexivity.
  - vm_compute. reflexivity.
  - reflexivity.
Defined.

(** * The pseudospectrum loop *)

Lemma foldM_app {A S} (f : S -> A -> res S) xs ys s :
  foldM f (xs ++ ys) s = (s' <- foldM f xs s ;; foldM f ys s').
Proof.
  revert s; induction xs as [|x xs IH]; intros s; simpl; [reflexivity|].
  destruct (f s x); simpl; [apply IH|reflexivity].
Qed.

Lemma foldM_map {A B S} (f : S -> B -> res S) (h : A -> B) xs s :
  foldM f (map h xs) s = foldM (fun s a => f s (h a)) xs s.
Proof.
  revert s; induction xs as [|x xs IH]; intros s; simpl; [reflexivity|].
  destruct (f s (h x)); simpl; [apply IH|reflexivity].
Qed.

Lemma foldM_ext {A S} (f f' : S -> A -> res S) xs s :
  (forall s x, f s x = f' s x) -> foldM f xs s = foldM f' xs s.
Proof.
  intros H. revert s; induction xs as [|x xs IH]; intros s; simpl; [reflexivity|].
  rewrite H. destruct (f' s x); simpl; [apply IH|reflexivity].
Qed.

(** A loop within a loop is one loop over the pairs, the outer index
    varying slowest. *)
Lemma foldM_nested {A B S} (g : A -> S -> B -> res S) (outer : list A) (inner : list B) s :
  foldM (fun st a => foldM (g a) inner st) outer s
  = foldM (fun st p => g (fst p) st (snd p)) (list_prod outer inner) s.
Proof.
  revert s; induction outer as [|a outer IH]; intros s; simpl; [reflexivity|].
  rewrite foldM_app, foldM_map.
  assert (E : foldM (fun s0 (b : B) => (fun st p => g (fst p) st (snd p)) s0 (a, b))
                    inner s
              = foldM (g a) inner s) by reflexivity.
  rewrite E.
  destruct (foldM (g a) inner s); simpl; [apply IH|reflexivity].
Qed.

Lemma setitem2_ok R a b j i v :
  rect R a b -> (j < a)%nat -> (i < b)%nat ->
  exists R', setitem2 R (Z.of_nat j) (Z.of_nat i) v = Ok R' /\ rect R' a b /\
             get2 R' j i = Some v /\
             forall j' i', (j', i') <> (j, i) -> get2 R' j' i' = get2 R j' i'.
Proof.
  intros [Hl Hr] Hj Hi.
  destruct (nth_error R j) as [r|] eqn:Er.
  2:{ apply nth_error_None in Er. lia. }
  assert (Hrl : List.length r = b).
  { rewrite Forall_forall in Hr. apply Hr. eapply nth_error_In; eauto. }
  exists (Np.update R j (Np.update r i v)).
  split; [|split; [|split]].
  - unfold setitem2.
    rewrite (getitem_nth R _ r) by (unfold Np.len; lia). rewrite bind_ok.
    rewrite Nat2Z.id. rewrite (nth_error_nth _ _ r Er).
    unfold Np.setitem. rewrite norm_index_nonneg by (unfold Np.len; lia).
    rewrite bind_ok, Nat2Z.id.
    rewrite norm_index_nonneg by (unfold Np.len; lia). now rewrite Nat2Z.id.
  - split; [now rewrite length_update|].
    apply Forall_forall. intros x Hx.
    apply In_nth_error in Hx as (k & Hk).
    destruct (Nat.eq_dec k j) as [->|Hne].
    + rewrite nth_error_update_eq in Hk by lia. injection Hk as <-.
      now rewrite length_update.
    + rewrite nth_error_update_neq in Hk by exact Hne.
      rewrite Forall_forall in Hr. apply Hr. eapply nth_error_In; eauto.
  - unfold get2. rewrite nth_error_update_eq by lia.
    apply nth_error_update_eq. lia.
  - intros j' i' Hne. unfold get2.
    destruct (Nat.eq_dec j' j) as [->|Hj'].
    + rewrite nth_error_update_eq by lia. rewrite Er.
      apply nth_error_update_neq. congruence.
    + now rewrite nth_error_update_neq by exact Hj'.
Qed.

(** A run of in-range assignments [R[j, i] = V j i]: every assigned entry
    holds its value, the others are untouched, and the assignments are
    recorded in order. *)
Lemma writes_run (V : nat -> nat -> float) (ws : list (nat * nat)) R tr a b :
  rect R a b ->
  (forall p, In p ws -> (fst p < a)%nat /\ (snd p < b)%nat) ->
  exists R',
    foldM (fun st p =>
             R' <- setitem2 (fst st) (Z.of_nat (fst p)) (Z.of_nat (snd p))
                            (V (fst p) (snd p)) ;;
             Ok (R', snd st ++ [(Z.of_nat (fst p), Z.of_nat (snd p))]))
          ws (R, tr)
    = Ok (R', tr ++ map (fun p => (Z.of_nat (fst p), Z.of_nat (snd p))) ws) /\
    rect R' a b /\
    forall j i, (In (j, i) ws -> get2 R' j i = Some (V j i)) /\
                (~ In (j, i) ws -> get2 R' j i = get2 R j i).
Proof.
  revert R tr; induction ws as [|[j0 i0] ws IH]; intros R tr HR Hb.
  - exists R. split; [simpl; now rewrite app_nil_r|]. split; [exact HR|].
    intros j i. split; [intros []|reflexivity].
  - destruct (Hb (j0, i0) (or_introl eq_refl)) as [Hj Hi]. cbn [fst snd] in Hj, Hi.
    destruct (setitem2_ok R a b j0 i0 (V j0 i0) HR Hj Hi) as (R1 & E1 & HR1 & G1 & O1).
    destruct (IH R1 (tr ++ [(Z.of_nat j0, Z.of_nat i0)]) HR1) as (R' & E' & HR' & G').
    { intros p Hp. apply Hb. now right. }
    exists R'. split; [|split; [exact HR'|]].
    + cbn [foldM fst snd]. rewrite E1. cbn [Py.bind]. rewrite E'.
      now rewrite <- app_assoc.
    + intros j i. destruct (G' j i) as [Gin Gout]. split.
      * intros [E|Hin]; [|now apply Gin].
        injection E as <- <-.
        assert (dec : forall x y : nat * nat, {x = y} + {x <> y})
          by (decide equality; apply Nat.eq_dec).
        destruct (in_dec dec (j0, i0) ws) as [Hin|Hnin]; [now apply Gin|].
        rewrite (Gout Hnin). exact G1.
      * intros Hn. rewrite Gout by (intros Hin; apply Hn; now right).
        apply O1. intros E. apply Hn. left. now symmetry.
Qed.

Lemma enumerate_seq {A} (xs : list A) (d : A) :
  enumerate xs = map (fun k => (Z.of_nat k, nth k xs d)) (seq 0 (List.length xs)).
Proof.
  unfold enumerate, Np.arange, Np.len, Np.range.
  rewrite Z.sub_0_r, Nat2Z.id.
  enough (G : forall (pre : list A),
             combine (map (fun k => 0 + Z.of_nat k) (seq (List.length pre) (List.length xs))) xs
             = map (fun k => (Z.of_nat k, nth k (pre ++ xs) d))
                   (seq (List.length pre) (List.length xs))).
  { exact (G []). }
  induction xs as [|x xs IH]; intros pre; simpl; [reflexivity|].
  f_equal.
  - f_equal. rewrite app_nth2 by lia. now rewrite Nat.sub_diag.
  - specialize (IH (pre ++ [x])). rewrite <- app_assoc in IH. simpl in IH.
    rewrite length_app in IH. simpl in IH. rewrite Nat.add_1_r in IH. exact IH.
Qed.

Lemma list_prod_map {A B C D} (f : A -> C) (g : B -> D) l l' :
  list_prod (map f l) (map g l')
  = map (fun p => (f (fst p), g (snd p))) (list_prod l l').
Proof.
  induction l as [|a l IH]; simpl; [reflexivity|].
  rewrite map_app, IH. f_equal. rewrite !map_map. reflexivity.
Qed.

Lemma length_eye n : List.length (eye n) = Z.to_nat n.
Proof. unfold eye. now rewrite length_map, length_arange. Qed.

Lemma eye_rows n r : In r (eye n) -> List.length r = Z.to_nat n.
Proof.
  unfold eye. intros H. apply in_map_iff in H as (k & <- & _).
  now rewrite length_map, length_arange.
Qed.

Lemma sub_matrix_square z L :
  square L ->
  sub_matrix (scale z (eye (Np.len L))) L = Ok (shift_matrix z L).
Proof.
  intros Hsq. unfold sub_matrix, shift_matrix.
  assert (Hl : List.length (scale z (eye (Np.len L))) = List.length L).
  { unfold scale. rewrite length_map, length_eye. unfold Np.len. lia. }
  rewrite Hl, Nat.eqb_refl.
  apply mapM_ok. intros [r l] Hin. cbn [fst snd].
  unfold sub_rows.
  assert (Hr : List.length r = List.length L).
  { apply in_combine_l in Hin. unfold scale in Hin.
    apply in_map_iff in Hin as (e & <- & He).
    rewrite length_map. rewrite (eye_rows _ _ He). unfold Np.len. lia. }
  assert (Hll : List.length l = List.length L).
  { apply in_combine_r in Hin. unfold square in Hsq.
    rewrite Forall_forall in Hsq. now apply Hsq. }
  rewrite Hr, Hll, Nat.eqb_refl. reflexivity.
Qed.

Section PseudoTheory.

Variable linalg_norm : matrix -> Z -> float.

Lemma pseudo_loop_square L xx yy norm :
  square L ->
  List.length xx = List.length yy ->
  exists R,
    pseudo_loop linalg_norm L (xx, yy) norm
    = Ok (R, list_prod (Np.arange (Np.len yy)) (Np.arange (Np.len xx))) /\
    forall j i, (j < List.length yy)%nat -> (i < List.length xx)%nat ->
      get2 R j i = Some (stored linalg_norm L norm (nth i xx F64.nan) (nth j yy F64.nan)).
Proof.
  intros Hsq Hlen.
  unfold pseudo_loop. cbn [fst snd].
  rewrite (foldM_nested
             (fun jy st ix =>
                A <- sub_matrix (scale (grid_point (snd ix) (snd jy)) (eye (Np.len L))) L ;;
                R' <- setitem2 (fst st) (fst jy) (fst ix) (linalg_norm A norm) ;;
                Ok (R', snd st ++ [(fst jy, fst ix)]))).
  rewrite (enumerate_seq yy F64.nan), (enumerate_seq xx F64.nan).
  rewrite list_prod_map, foldM_map. cbn [fst snd].
  set (V := fun j i => stored linalg_norm L norm (nth i xx F64.nan) (nth j yy F64.nan)).
  rewrite (foldM_ext _
             (fun st p =>
                R' <- setitem2 (fst st) (Z.of_nat (fst p)) (Z.of_nat (snd p))
                               (V (fst p) (snd p)) ;;
                Ok (R', snd st ++ [(Z.of_nat (fst p), Z.of_nat (snd p))]))).
  2:{ intros s p. rewrite sub_matrix_square by exact Hsq. reflexivity. }
  destruct (writes_run V (list_prod (seq 0 (List.length yy)) (seq 0 (List.length xx)))
              (repeat (Np.zeros (Np.len yy)) (Z.to_nat (Np.len xx))) []
              (List.length xx) (List.length yy)) as (R' & E & _ & G).
  { split.
    - rewrite repeat_length. unfold Np.len. lia.
    - apply Forall_forall. intros r Hr. apply repeat_spec in Hr. subst r.
      unfold Np.zeros. rewrite repeat_length. unfold Np.len. lia. }
  { intros [j i] Hp. apply in_prod_iff in Hp as [Hj Hi].
    apply in_seq in Hj. apply in_seq in Hi. cbn [fst snd]. lia. }
  exists R'. split.
  - rewrite E. cbn [app]. f_equal. f_equal.
    unfold Np.arange, Np.range, Np.len. rewrite !Z.sub_0_r, !Nat2Z.id.
    rewrite list_prod_map. reflexivity.
  - intros j i Hj Hi. apply (G j i).
    apply in_prod_iff. split; apply in_seq; lia.
Qed.

End PseudoTheory.

Section PseudoClaims.

Variable linalg_norm : matrix -> Z -> float.

(** C7, as the code has it, on grids with as many real as imaginary
    points: for a square [Gmu] the computation returns an array [R] in
    which position [[j, i]] (row: index of [y], column: index of [x])
    holds [np.linalg.norm(z*I - Gmu, ord=-2)] for [z = x + iy], the norm
    of the matrix itself and of order [-2], the default of [_pseudo]; the
    entries are assigned row by row, the imaginary points in the outer
    loop and the real points in the inner one. *)
Theorem pseudo_stores_norm_of_order_minus_2 (Gmu : matrix) (xx yy : list float) :
  square Gmu ->
  List.length xx = List.length yy ->
  exists R,
    calc_ps_grid linalg_norm Gmu (xx, yy) = Ok R /\
    pseudo_loop linalg_norm Gmu (xx, yy) norm_default
    = Ok (R, list_prod (Np.arange (Np.len yy)) (Np.arange (Np.len xx))) /\
    forall j i y x,
      nth_error yy j = Some y -> nth_error xx i = Some x ->
      exists A,
        sub_matrix (scale (grid_point x y) (eye (Np.len Gmu))) Gmu = Ok A /\
        get2 R j i = Some (linalg_norm A (-2)).
Proof.
  intros Hsq Hlen.
  destruct (pseudo_loop_square linalg_norm Gmu xx yy norm_default Hsq Hlen)
    as (R & E & G).
  exists R. split; [|split; [exact E|]].
  - unfold calc_ps_grid, _pseudo. now rewrite E.
  - intros j i y x Hy Hx. exists (shift_matrix (grid_point x y) Gmu).
    split; [now apply sub_matrix_square|].
    assert (Hj : (j < List.length yy)%nat) by (apply nth_error_Some; congruence).
    assert (Hi : (i < List.length xx)%nat) by (apply nth_error_Some; congruence).
    rewrite (G j i Hj Hi). unfold stored.
    rewrite (nth_error_nth _ _ F64.nan Hy), (nth_error_nth _ _ F64.nan Hx).
    reflexivity.
Qed.

End PseudoClaims.

Lemma pseudo_stores_norm_of_order_minus_2_witness :
  exists R,
    calc_ps_grid diag_norm diag_1_2 ([F64.zero; F64.one], [F64.zero; F64.one]) = Ok R /\
    get2 R 0 0 = Some F64.one.
Proof.
  destruct (pseudo_stores_norm_of_order_minus_2 diag_norm diag_1_2
              [F64.zero; F64.one] [F64.zero; F64.one])
    as (R & E & _ & G).
  - repeat constructor.
  - reflexivity.
  - exists R. split; [exact E|].
    destruct (G 0%nat 0%nat F64.zero F64.zero eq_refl eq_refl) as (A & EA & ->).
    vm_compute in EA. injection EA as <-. vm_compute. reflexivity.
Defined.

(** C7 as stated fails: at [z = 0] the matrix [z*I - diag(1, 2)] has
    2-norm 2, and the computation stores 1, its norm of order [-2] (the
    smallest singular value). *)
Lemma pseudo_does_not_store_the_2_norm :
  calc_ps_grid diag_norm diag_1_2 ([F64.zero], [F64.zero]) = Ok [[F64.one]] /\
  (A <- sub_matrix (scale (grid_point F64.zero F64.zero) (eye 2)) diag_1_2 ;;
   Ok (diag_norm A 2, diag_norm A (-2)))
  = Ok (F64.of_Z 2, F64.one).
Proof.
  split; vm_compute; reflexivity.
Qed.

(** The array is allocated with [len(xx)] rows of [len(yy)] entries and
    indexed the other way round: with two real and three imaginary points
    the third row does not exist. *)
Lemma pseudo_rectangular_grid_raises :
  _pseudo diag_norm diag_1_2
          ([F64.zero; F64.one], [F64.zero; F64.one; F64.of_Z 2]) norm_default
  = Raise IndexError.
Proof. vm_compute. reflexivity. Qed.

(** * Further properties of the rejection engine *)

Lemma leb_ltb_trans a b x :
  F64.leb a b = true -> F64.ltb b x = true -> F64.ltb a x = true.
Proof.
  unfold F64.leb, F64.ltb, SFleb, SFltb.
  destruct a as [sa|sa| |sa ma ea], b as [sb|sb| |sb mb eb], x as [sx|sx| |sx mx ex];
    simpl; try discriminate; auto;
    repeat match goal with s : bool |- _ => destruct s end;
    simpl; try discriminate; auto;
    norm_cmp;
    repeat match goal with
           | |- context [Z.compare ?a ?b] => destruct (Z.compare_spec a b)
           end;
    simpl; try discriminate; auto; try lia; subst;
    repeat match goal with
           | |- context [Pos.compare ?a ?b] => destruct (Pos.compare_spec a b)
           end;
    simpl; try discriminate; auto; try lia.
Qed.

Lemma map_fst_finite_rows ev : map fst (finite_rows ev) = filter Np.isfinite ev.
Proof.
  unfold finite_rows, tagged.
  assert (G : forall zs, List.length zs = List.length ev ->
             map fst (Np.compress (map Np.isfinite ev) (map tag (combine ev zs)))
             = filter Np.isfinite ev).
  { induction ev as [|e ev IH]; intros [|z zs] Hl; simpl in Hl; try discriminate;
      [reflexivity|].
    cbn [combine map Np.compress filter].
    destruct (Np.isfinite e); cbn [map]; [f_equal|]; apply IH; lia. }
  apply G. rewrite length_arange. unfold Np.len. lia.
Qed.

Lemma compress_mask_incl {A} (m1 m2 : list bool) (xs : list A) x :
  Forall2 (fun a b => b = true -> a = true) m1 m2 ->
  In x (Np.compress m2 xs) -> In x (Np.compress m1 xs).
Proof.
  intros H. revert xs. induction H as [|a b m1 m2 Hab H IH]; intros [|y ys]; simpl;
    try tauto.
  destruct b.
  - rewrite (Hab eq_refl). simpl. intros [->|Hin]; [now left|right; now apply IH].
  - intros Hin. destruct a; [right|]; now apply IH.
Qed.

Lemma compress_mask_length {A} (m1 m2 : list bool) (xs : list A) :
  Forall2 (fun a b => b = true -> a = true) m1 m2 ->
  (List.length (Np.compress m2 xs) <= List.length (Np.compress m1 xs))%nat.
Proof.
  intros H. revert xs. induction H as [|a b m1 m2 Hab H IH]; intros [|y ys]; simpl;
    try lia.
  specialize (IH ys). destruct b.
  - rewrite (Hab eq_refl). simpl. lia.
  - destruct a; simpl; lia.
Qed.

Lemma combine_map_same {A B C} (f : A -> B) (g : A -> C) l :
  combine (map f l) (map g l) = map (fun x => (f x, g x)) l.
Proof. induction l; simpl; congruence. Qed.

Lemma compress_nth_in {A} (mask : list bool) (xs : list A) j d :
  (j < List.length xs)%nat -> nth j mask false = true ->
  In (nth j xs d) (Np.compress mask xs).
Proof.
  revert xs j; induction mask as [|b mask IH]; intros [|x xs] j Hj Hm;
    simpl in Hj; try lia.
  - destruct j; discriminate.
  - destruct j as [|j]; cbn [nth] in *.
    + subst b. now left.
    + cbn [Np.compress]. destruct b; [right|]; apply IH; auto; lia.
Qed.

Lemma ForallOrdPairs_nth {A} (R : A -> A -> Prop) (l : list A) d :
  (forall i j, (i < j < List.length l)%nat -> R (nth i l d) (nth j l d)) ->
  ForallOrdPairs R l.
Proof.
  induction l as [|x l IH]; intros H; constructor.
  - apply Forall_forall. intros y Hy. apply (In_nth _ _ d) in Hy as (k & Hk & <-).
    apply (H 0%nat (S k)). cbn [List.length]. lia.
  - apply IH. intros i j Hij. apply (H (S i) (S j)). cbn [List.length]. lia.
Qed.

Lemma ForallOrdPairs_compress {A} (R : A -> A -> Prop) mask (l : list A) :
  ForallOrdPairs R l -> ForallOrdPairs R (Np.compress mask l).
Proof.
  intros H. revert mask. induction H as [|x l Hx H IH]; intros [|b mask];
    cbn [Np.compress]; try constructor.
  destruct b; [constructor|]; auto.
  apply Forall_forall. intros y Hy. apply compress_incl in Hy.
  rewrite Forall_forall in Hx. now apply Hx.
Qed.

Lemma ForallOrdPairs_map {A B} (R : B -> B -> Prop) (f : A -> B) (l : list A) :
  ForallOrdPairs (fun a b => R (f a) (f b)) l -> ForallOrdPairs R (map f l).
Proof.
  induction 1 as [|x l Hx H IH]; cbn [map]; constructor; [|exact IH].
  apply Forall_forall. intros y Hy. apply in_map_iff in Hy as (a & <- & Ha).
  rewrite Forall_forall in Hx. now apply Hx.
Qed.

(** ** What a computation leaves untouched *)

Lemma same_except_refl names s : same_except names s s.
Proof. intros n _. reflexivity. Qed.

Lemma same_except_trans names s1 s2 s3 :
  same_except names s1 s2 -> same_except names s2 s3 -> same_except names s1 s3.
Proof. intros H1 H2 n Hn. rewrite (H2 n Hn). apply H1, Hn. Qed.

Lemma ww_ret {A} names (a : A) : writes_within names (ret a).
Proof. intros s. apply same_except_refl. Qed.

Lemma ww_raise {A} names e : writes_within names (@raise A e).
Proof. intros s. apply same_except_refl. Qed.

Lemma ww_lift {A} names (c : res A) : writes_within names (lift c).
Proof. intros s. apply same_except_refl. Qed.

Lemma ww_getattr names n : writes_within names (getattr n).
Proof. intros s. unfold getattr. destruct (lookup n (obj s)); apply same_except_refl. Qed.

Lemma ww_warning names msg : writes_within names (warning msg).
Proof. intros s n _. reflexivity. Qed.

Lemma ww_setattr names n v : In n names -> writes_within names (setattr n v).
Proof.
  intros Hin s m Hm. cbn [setattr snd obj lookup].
  destruct (String.eqb m n) eqn:E; [|reflexivity].
  apply String.eqb_eq in E. subst m. contradiction.
Qed.

Lemma ww_bind {A B} names (c : M A) (k : A -> M B) :
  writes_within names c -> (forall a, writes_within names (k a)) ->
  writes_within names (bindM c k).
Proof.
  intros Hc Hk s. unfold bindM. specialize (Hc s).
  destruct (c s) as [[a|e] s1]; cbn [snd] in Hc; [|exact Hc].
  eapply same_except_trans; [exact Hc|apply Hk].
Qed.

Ltac frame_step :=
  first
    [ apply ww_ret | apply ww_raise | apply ww_lift | apply ww_getattr
    | apply ww_warning
    | apply ww_setattr; cbn [In]; tauto
    | apply ww_bind; [|intros ?]
    | match goal with
      | |- writes_within _ (if ?b then _ else _) => destruct b
      | |- writes_within _ (match ?r with pair _ _ => _ end) => destruct r
      end ].

Lemma rw_bind {A B} (I : state -> Prop) names (c : M A) (k : A -> M B) :
  writes_within names c ->
  (forall s s', I s -> same_except names s s' -> I s') ->
  (forall a, raise_within I names (k a)) ->
  raise_within I names (bindM c k).
Proof.
  intros Hc HI Hk s e Is. unfold bindM. pose proof (Hc s) as Fs.
  destruct (c s) as [[a|e'] s1]; cbn [snd] in Fs; [|intros _; exact Fs].
  intros E. eapply same_except_trans; [exact Fs|].
  eapply Hk; [|exact E]. eapply HI; eauto.
Qed.

Lemma rw_getattr {A} (I : state -> Prop) names n v (k : value -> M A) :
  (forall s, I s -> lookup n (obj s) = Some v) ->
  raise_within I names (k v) ->
  raise_within I names (bindM (getattr n) k).
Proof.
  intros HI Hk s e Is. rewrite (bindM_step _ _ _ _ _ (getattr_ok _ _ _ (HI s Is))).
  now apply Hk.
Qed.

Lemma bindM_ok_inv {A B} (c : M A) (k : A -> M B) s b s' :
  bindM c k s = (Ok b, s') -> exists a s1, c s = (Ok a, s1) /\ k a s1 = (Ok b, s').
Proof.
  unfold bindM. destruct (c s) as [[a|e] s1]; [|discriminate].
  intros H. now exists a, s1.
Qed.

Lemma getattr_inv n s v s' :
  getattr n s = (Ok v, s') -> lookup n (obj s) = Some v /\ s' = s.
Proof.
  unfold getattr. destruct (lookup n (obj s)); [|discriminate].
  now intros [= -> ->].
Qed.

Lemma lift_inv {A} (c : res A) s a s' : lift c s = (Ok a, s') -> c = Ok a /\ s' = s.
Proof. unfold lift. now intros [= -> ->]. Qed.

(** One attribute read off a state some of whose bindings are known. *)
Ltac look H :=
  apply getattr_ok; cbn [obj lookup String.eqb Ascii.eqb Bool.eqb]; exact H.

Section EngineFacts.

Variable np_abs : complex -> float.
Variable np_argsort : list float -> list nat.

(** A run of the engine that returns had its look-ups in range. *)
Lemma discard_ok_inv st low hi uo thr r st' :
  holds st low hi uo thr ->
  argsort_ok np_argsort (finite_rows low) ->
  argsort_ok np_argsort (finite_rows hi) ->
  _discard_spurious_eigenvalues np_abs np_argsort st = (Ok r, st') ->
  (2 <= n_finite low <= n_finite hi)%nat /\
  r = (map fst (kept_rows np_abs np_argsort low hi uo thr),
       map position (kept_rows np_abs np_argsort low hi uo thr)) /\
  st' = final_state np_abs np_argsort st low hi.
Proof.
  intros H Pl Ph E.
  destruct (Nat.lt_ge_cases (n_finite low) 2) as [Hlt|Hge].
  { rewrite (discard_few_low np_abs np_argsort _ _ _ _ _ H Pl Hlt) in E. discriminate. }
  destruct (Nat.lt_ge_cases (n_finite hi) (n_finite low)) as [Hs|Hs].
  { pose proof (discard_short_hi np_abs np_argsort _ _ _ _ _ H Pl Ph Hge Hs) as F.
    rewrite E in F. discriminate. }
  rewrite (discard_run_ok np_abs np_argsort _ _ _ _ _ H Pl Ph Hge Hs) in E.
  injection E as <- <-. rewrite map_map. repeat split; auto.
Qed.

Lemma kept_rows_in low hi uo thr r :
  argsort_ok np_argsort (finite_rows low) ->
  In r (kept_rows np_abs np_argsort low hi uo thr) -> In r (finite_rows low).
Proof.
  intros Pl Hr. apply compress_incl in Hr. now apply (sort_rows_incl _ _ _ Pl) in Hr.
Qed.

(** X1: whenever the engine returns, it returns as many indices as
    values, no more values than there are finite low-resolution
    eigenvalues, and every value is finite (never a NaN or an infinity)
    and is an entry of the raw low-resolution array. *)
Theorem accepted_are_finite_raw_entries st low hi uo thr vals idxs st' :
  holds st low hi uo thr ->
  argsort_ok np_argsort (finite_rows low) ->
  argsort_ok np_argsort (finite_rows hi) ->
  _discard_spurious_eigenvalues np_abs np_argsort st = (Ok (vals, idxs), st') ->
  List.length vals = List.length idxs /\
  (List.length vals <= n_finite low)%nat /\
  Forall (fun v => Np.isfinite v = true /\ In v low) vals.
Proof.
  intros H Pl Ph E.
  destruct (discard_ok_inv _ _ _ _ _ _ _ H Pl Ph E) as (Hn & Er & _).
  injection Er as -> ->.
  split; [now rewrite !length_map|]. split.
  - rewrite length_map. unfold kept_rows.
    etransitivity; [apply length_compress_le|].
    unfold sorted_rows. rewrite length_sort_rows by exact Pl.
    now rewrite length_finite_rows.
  - apply Forall_forall. intros v Hv. apply in_map_iff in Hv as (r & <- & Hr).
    apply (kept_rows_in _ _ _ _ _ Pl) in Hr. split.
    + now apply (finite_rows_finite low).
    + unfold finite_rows in Hr. apply compress_incl in Hr.
      apply tagged_in in Hr as (k & Hk & ->). cbn [fst]. apply nth_In. exact Hk.
Qed.

Lemma kept_positions_nodup low hi uo thr :
  argsort_ok np_argsort (finite_rows low) ->
  Z.of_nat (List.length low) <= 2 ^ 53 ->
  NoDup (map position (kept_rows np_abs np_argsort low hi uo thr)).
Proof.
  intros Pl Hlen. unfold kept_rows. rewrite map_compress. apply NoDup_compress.
  unfold sorted_rows.
  apply (Permutation_NoDup (Permutation_map position (sort_rows_perm _ _ Pl))).
  unfold finite_rows. rewrite map_compress. apply NoDup_compress.
  rewrite positions_tagged by exact Hlen. apply NoDup_arange.
Qed.

(** X2: on arrays of at most [2^53] entries the indices the engine
    returns are positions of the raw low-resolution array, and no
    position is returned twice. *)
Theorem accepted_indices_are_distinct_positions st low hi uo thr vals idxs st' :
  holds st low hi uo thr ->
  argsort_ok np_argsort (finite_rows low) ->
  argsort_ok np_argsort (finite_rows hi) ->
  Z.of_nat (List.length low) <= 2 ^ 53 ->
  _discard_spurious_eigenvalues np_abs np_argsort st = (Ok (vals, idxs), st') ->
  NoDup idxs /\ Forall (fun i => 0 <= i < Np.len low) idxs.
Proof.
  intros H Pl Ph Hlen E.
  destruct (discard_ok_inv _ _ _ _ _ _ _ H Pl Ph E) as (_ & Er & _).
  injection Er as -> ->. split.
  - apply (kept_positions_nodup low hi uo thr Pl Hlen).
  - apply Forall_forall. intros i Hi. apply in_map_iff in Hi as (r & <- & Hr).
    apply (kept_rows_in _ _ _ _ _ Pl) in Hr.
    unfold finite_rows in Hr. apply compress_incl in Hr.
    apply tagged_in in Hr as (k & Hk & ->).
    unfold position. cbn [snd c_of_Z c_of_float re]. rewrite to_int_of_Z by lia.
    unfold Np.len. lia.
Qed.

Lemma sorted_rows_ordered ev :
  argsort_ok np_argsort (finite_rows ev) ->
  argsort_ascending np_argsort (finite_rows ev) ->
  ForallOrdPairs (fun a b => F64.leb (re (fst a)) (re (fst b)) = true)
                 (sorted_rows np_argsort ev).
Proof.
  intros P Asc. apply (ForallOrdPairs_nth _ _ drow). intros i j Hij.
  set (srt := sorted_rows np_argsort ev) in *.
  assert (Hk : forall k, (k < List.length srt)%nat ->
                 nth k (map (fun r => re (fst r)) srt) F64.nan
                 = re (fst (nth k srt drow))).
  { intros k L.
    rewrite (nth_indep _ F64.nan (re (fst drow))) by (rewrite length_map; exact L).
    now rewrite (map_nth (fun r => re (fst r))). }
  rewrite <- (Hk i), <- (Hk j) by lia.
  apply ascending_pairs.
  - apply Forall_forall. intros x Hx. apply in_map_iff in Hx as (r & <- & Hr).
    apply (sort_rows_incl _ _ _ P) in Hr. apply finite_rows_finite in Hr.
    unfold Np.isfinite in Hr. now apply andb_prop in Hr as [Hr _].
  - unfold srt, sorted_rows. rewrite sorted_keys by exact P. exact Asc.
  - now rewrite length_map.
Qed.

(** X3: the accepted eigenvalues come out in the order of the sort, not
    in the order of the solver: whenever [np.argsort] returns keys in
    ascending order, the real part of an accepted eigenvalue is at most
    the real part of every accepted eigenvalue after it. *)
Theorem accepted_eigenvalues_are_sorted_by_real_part
        st low hi uo thr vals idxs st' :
  holds st low hi uo thr ->
  argsort_ok np_argsort (finite_rows low) ->
  argsort_ok np_argsort (finite_rows hi) ->
  argsort_ascending np_argsort (finite_rows low) ->
  _discard_spurious_eigenvalues np_abs np_argsort st = (Ok (vals, idxs), st') ->
  ForallOrdPairs (fun a b => F64.leb (re a) (re b) = true) vals.
Proof.
  intros H Pl Ph Asc E.
  destruct (discard_ok_inv _ _ _ _ _ _ _ H Pl Ph E) as (_ & Er & _).
  injection Er as -> _.
  apply ForallOrdPairs_map. unfold kept_rows. apply ForallOrdPairs_compress.
  now apply sorted_rows_ordered.
Qed.

Lemma discard_writes_within :
  writes_within ["delta_ordinal"; "delta_near"]
                (_discard_spurious_eigenvalues np_abs np_argsort).
Proof. unfold _discard_spurious_eigenvalues. repeat frame_step. Qed.

(** With fewer finite high-resolution eigenvalues the run raises before
    it binds an attribute. *)
Lemma discard_short_hi_obj st low hi uo thr :
  holds st low hi uo thr ->
  argsort_ok np_argsort (finite_rows low) ->
  argsort_ok np_argsort (finite_rows hi) ->
  (2 <= n_finite low)%nat ->
  (n_finite hi < n_finite low)%nat ->
  obj (snd (_discard_spurious_eigenvalues np_abs np_argsort st)) = obj st.
Proof.
  intros (Hlow & Hhi & Huo & Hthr) Pl Ph Hn Hnh.
  assert (Nl : low <> []) by (apply n_finite_nonempty; lia).
  pose proof (length_sorted_values np_argsort low Pl) as Ll.
  pose proof (length_sorted_values np_argsort hi Ph) as Lh.
  unfold _discard_spurious_eigenvalues.
  step_with Hlow. step_with Hhi. step_refl. step_refl.
  rewrite (asarray_zip_tagged low Nl).
  step_by ltac:(rewrite getitem_mask_tagged).
  destruct hi as [|h0 hi'].
  { step_refl.
    step_by ltac:(rewrite (sort_by_real_ok _ _ Pl)).
    reflexivity. }
  set (hi := h0 :: hi') in *.
  rewrite (asarray_zip_tagged hi) by discriminate.
  step_by ltac:(rewrite getitem_mask_tagged).
  step_by ltac:(rewrite (sort_by_real_ok _ _ Pl)).
  step_by ltac:(rewrite (sort_by_real_ok _ _ Ph)).
  step_refl. step_refl.
  fold (sorted_rows np_argsort low) (sorted_rows np_argsort hi).
  fold (sorted_values np_argsort low) (sorted_values np_argsort hi).
  step_by ltac:(rewrite compute_sigmas_closed by lia).
  fold (sigmas_of np_abs np_argsort low).
  erewrite bindM_step by apply sigma_step. cbv beta.
  erewrite bindM_fail
    by (rewrite lift_run, ordinal_delta_short;
        [reflexivity|apply length_sigmas_of|lia]).
  reflexivity.
Qed.

(** X4: the engine binds no attribute other than [delta_ordinal] and
    [delta_near], whatever the instance holds (the eigenvalue arrays it
    reads are neither sorted nor filtered in place); and a run that
    raises, on an instance with the attributes the engine reads, has bound
    no attribute at all, so that drift ratios left by an earlier run are
    not replaced. *)
Theorem engine_binds_only_the_drift_ratios st :
  (forall n, n <> "delta_ordinal" -> n <> "delta_near" ->
     lookup n (obj (snd (_discard_spurious_eigenvalues np_abs np_argsort st)))
     = lookup n (obj st)) /\
  (forall low hi uo thr e,
     holds st low hi uo thr ->
     argsort_ok np_argsort (finite_rows low) ->
     argsort_ok np_argsort (finite_rows hi) ->
     fst (_discard_spurious_eigenvalues np_abs np_argsort st) = Raise e ->
     obj (snd (_discard_spurious_eigenvalues np_abs np_argsort st)) = obj st).
Proof.
  split.
  - intros n H1 H2. apply discard_writes_within. cbn [In]. intuition congruence.
  - intros low hi uo thr e H Pl Ph E.
    destruct (Nat.lt_ge_cases (n_finite low) 2) as [Hlt|Hge].
    { now rewrite (discard_few_low np_abs np_argsort _ _ _ _ _ H Pl Hlt). }
    destruct (Nat.lt_ge_cases (n_finite hi) (n_finite low)) as [Hs|Hs].
    { eapply discard_short_hi_obj; eauto. }
    rewrite (discard_run_ok np_abs np_argsort _ _ _ _ _ H Pl Ph Hge Hs) in E.
    discriminate.
Qed.

Lemma accept_mask_mono low hi uo thr1 thr2 :
  F64.leb thr1 thr2 = true ->
  Forall2 (fun a b => b = true -> a = true)
          (accept_mask np_abs np_argsort low hi uo thr1)
          (accept_mask np_abs np_argsort low hi uo thr2).
Proof.
  intros Hle. unfold accept_mask. apply Forall2_map_same.
  intros x _. now apply leb_ltb_trans.
Qed.

(** X5: raising [drift_threshold] never accepts more.  Of two runs on the
    same eigenvalues, the one with the higher threshold returns a subset
    of the (value, index) pairs of the other. *)
Theorem higher_threshold_accepts_fewer st1 st2 low hi uo thr1 thr2
        vals1 idxs1 st1' vals2 idxs2 st2' :
  holds st1 low hi uo thr1 ->
  holds st2 low hi uo thr2 ->
  argsort_ok np_argsort (finite_rows low) ->
  argsort_ok np_argsort (finite_rows hi) ->
  F64.leb thr1 thr2 = true ->
  _discard_spurious_eigenvalues np_abs np_argsort st1 = (Ok (vals1, idxs1), st1') ->
  _discard_spurious_eigenvalues np_abs np_argsort st2 = (Ok (vals2, idxs2), st2') ->
  (List.length vals2 <= List.length vals1)%nat /\
  incl (combine vals2 idxs2) (combine vals1 idxs1).
Proof.
  intros H1 H2 Pl Ph Hle E1 E2.
  destruct (discard_ok_inv _ _ _ _ _ _ _ H1 Pl Ph E1) as (_ & Er1 & _).
  destruct (discard_ok_inv _ _ _ _ _ _ _ H2 Pl Ph E2) as (_ & Er2 & _).
  injection Er1 as -> ->. injection Er2 as -> ->.
  pose proof (accept_mask_mono low hi uo thr1 thr2 Hle) as Hm. split.
  - rewrite !length_map. unfold kept_rows. now apply compress_mask_length.
  - rewrite !combine_map_same. intros p Hp.
    apply in_map_iff in Hp as (r & <- & Hr). apply in_map_iff. exists r.
    split; [reflexivity|]. unfold kept_rows in *.
    eapply compress_mask_incl; eauto.
Qed.

(** The sorted values are a function of the finite entries alone. *)
Lemma sorted_values_filter ev :
  sorted_values np_argsort ev
  = map (fun k => nth k (filter Np.isfinite ev) czero)
        (np_argsort (map re (filter Np.isfinite ev))).
Proof.
  unfold sorted_values, sorted_rows, sort_rows, sort_keys.
  rewrite map_fst_finite_rows, map_map. apply map_ext. intros k.
  rewrite <- map_fst_finite_rows. change czero with (fst drow). apply eq_sym, map_nth.
Qed.

Lemma argsort_ok_filter ev ev' :
  filter Np.isfinite ev = filter Np.isfinite ev' ->
  argsort_ok np_argsort (finite_rows ev) -> argsort_ok np_argsort (finite_rows ev').
Proof.
  intros E. unfold argsort_ok, sort_keys.
  rewrite !map_fst_finite_rows, !length_finite_rows. unfold n_finite. now rewrite E.
Qed.

Lemma kept_rows_filter low hi hi' uo thr :
  filter Np.isfinite hi = filter Np.isfinite hi' ->
  kept_rows np_abs np_argsort low hi uo thr = kept_rows np_abs np_argsort low hi' uo thr.
Proof.
  intros E. unfold kept_rows, accept_mask, inverse_drift, delta_ordinal_of, delta_near_of.
  now rewrite (sorted_values_filter hi), (sorted_values_filter hi'), E.
Qed.

Lemma kept_rows_low_filter low low' hi uo thr :
  filter Np.isfinite low = filter Np.isfinite low' ->
  map fst (kept_rows np_abs np_argsort low hi uo thr)
  = map fst (kept_rows np_abs np_argsort low' hi uo thr).
Proof.
  intros E. unfold kept_rows. rewrite !map_compress.
  fold (sorted_values np_argsort low) (sorted_values np_argsort low').
  unfold accept_mask, inverse_drift, delta_ordinal_of, delta_near_of, sigmas_of.
  now rewrite (sorted_values_filter low), (sorted_values_filter low'), E.
Qed.

(** X6: NaN and infinite entries of the two eigenvalue arrays are
    ignored.  Two runs whose arrays have the same finite entries in the
    same order return the same values, or raise the same exception; when
    only the high-resolution arrays differ, the indices are the same too. *)
Theorem nonfinite_entries_are_ignored st st' low low' hi hi' uo thr :
  holds st low hi uo thr ->
  holds st' low' hi' uo thr ->
  argsort_ok np_argsort (finite_rows low) ->
  argsort_ok np_argsort (finite_rows hi) ->
  filter Np.isfinite low = filter Np.isfinite low' ->
  filter Np.isfinite hi = filter Np.isfinite hi' ->
  accepted_values (fst (_discard_spurious_eigenvalues np_abs np_argsort st))
  = accepted_values (fst (_discard_spurious_eigenvalues np_abs np_argsort st')) /\
  (low = low' ->
   fst (_discard_spurious_eigenvalues np_abs np_argsort st)
   = fst (_discard_spurious_eigenvalues np_abs np_argsort st')).
Proof.
  intros H H' Pl Ph El E.
  pose proof (argsort_ok_filter _ _ E Ph) as Ph'.
  pose proof (argsort_ok_filter _ _ El Pl) as Pl'.
  assert (En : n_finite hi = n_finite hi') by (unfold n_finite; now rewrite E).
  assert (Enl : n_finite low = n_finite low') by (unfold n_finite; now rewrite El).
  destruct (Nat.lt_ge_cases (n_finite low) 2) as [Hlt|Hge].
  { rewrite (discard_few_low np_abs np_argsort _ _ _ _ _ H Pl Hlt).
    rewrite (discard_few_low np_abs np_argsort _ _ _ _ _ H' Pl') by lia.
    split; reflexivity. }
  destruct (Nat.lt_ge_cases (n_finite hi) (n_finite low)) as [Hs|Hs].
  { rewrite (discard_short_hi np_abs np_argsort _ _ _ _ _ H Pl Ph Hge Hs).
    rewrite (discard_short_hi np_abs np_argsort _ _ _ _ _ H' Pl' Ph') by lia.
    split; reflexivity. }
  rewrite (discard_run_ok np_abs np_argsort _ _ _ _ _ H Pl Ph Hge Hs).
  rewrite (discard_run_ok np_abs np_argsort _ _ _ _ _ H' Pl' Ph') by lia.
  cbn [fst accepted_values Py.bind].
  rewrite (kept_rows_filter low hi hi' uo thr E). split.
  - now rewrite (kept_rows_low_filter low low' hi' uo thr El).
  - now intros <-.
Qed.

End EngineFacts.

Lemma accepted_are_finite_raw_entries_witness :
  List.length [c_of_Z 1; c_of_Z 2] = List.length [2; 3] /\
  (List.length [c_of_Z 1; c_of_Z 2] <= n_finite low_4n12)%nat /\
  Forall (fun v => Np.isfinite v = true /\ In v low_4n12) [c_of_Z 1; c_of_Z 2].
Proof.
  apply (accepted_are_finite_raw_entries cabs NpySort.argsort
           (engine_state low_4n12 high_5n21 false f_1e6)
           low_4n12 high_5n21 false f_1e6 [c_of_Z 1; c_of_Z 2] [2; 3]
           (snd (_discard_spurious_eigenvalues cabs NpySort.argsort
                   (engine_state low_4n12 high_5n21 false f_1e6)))).
  - apply engine_state_holds.
  - vm_compute. reflexivity.
  - vm_compute. reflexivity.
  - vm_compute. reflexivity.
Defined.

Lemma accepted_indices_are_distinct_positions_witness :
  NoDup [2; 3] /\ Forall (fun i => 0 <= i < Np.len low_4n12) [2; 3].
Proof.
  apply (accepted_indices_are_distinct_positions cabs NpySort.argsort
           (engine_state low_4n12 high_5n21 false f_1e6)
           low_4n12 high_5n21 false f_1e6 [c_of_Z 1; c_of_Z 2] [2; 3]
           (snd (_discard_spurious_eigenvalues cabs NpySort.argsort
                   (engine_state low_4n12 high_5n21 false f_1e6)))).
  - apply engine_state_holds.
  - vm_compute. reflexivity.
  - vm_compute. reflexivity.
  - vm_compute. discriminate.
  - vm_compute. reflexivity.
Defined.

Lemma accepted_eigenvalues_are_sorted_by_real_part_witness :
  ForallOrdPairs (fun a b => F64.leb (re a) (re b) = true)
                 [c_of_Z 1; c_of_Z 2; c_of_Z 4].
Proof.
  apply (accepted_eigenvalues_are_sorted_by_real_part cabs NpySort.argsort
           (engine_state low_412 high_521 false F64.one)
           low_412 high_521 false F64.one [c_of_Z 1; c_of_Z 2; c_of_Z 4] [1; 2; 0]
           (snd (_discard_spurious_eigenvalues cabs NpySort.argsort
                   (engine_state low_412 high_521 false F64.one)))).
  - apply engine_state_holds.
  - vm_compute. reflexivity.
  - vm_compute. reflexivity.
  - vm_compute. reflexivity.
  - vm_compute. reflexivity.
Defined.

Lemma higher_threshold_accepts_fewer_witness :
  (List.length [c_of_Z 1; c_of_Z 2] <= List.length [c_of_Z 1; c_of_Z 2; c_of_Z 4])%nat /\
  incl (combine [c_of_Z 1; c_of_Z 2] [1; 2])
       (combine [c_of_Z 1; c_of_Z 2; c_of_Z 4] [1; 2; 0]).
Proof.
  apply (higher_threshold_accepts_fewer cabs NpySort.argsort
           (engine_state low_412 high_521 false F64.one)
           (engine_state low_412 high_521 false f_1e6)
           low_412 high_521 false F64.one f_1e6
           [c_of_Z 1; c_of_Z 2; c_of_Z 4] [1; 2; 0]
           (snd (_discard_spurious_eigenvalues cabs NpySort.argsort
                   (engine_state low_412 high_521 false F64.one)))
           [c_of_Z 1; c_of_Z 2] [1; 2]
           (snd (_discard_spurious_eigenvalues cabs NpySort.argsort
                   (engine_state low_412 high_521 false f_1e6)))).
  - apply engine_state_holds.
  - apply engine_state_holds.
  - vm_compute. reflexivity.
  - vm_compute. reflexivity.
  - vm_compute. reflexivity.
  - vm_compute. reflexivity.
  - vm_compute. reflexivity.
Defined.

Lemma nonfinite_entries_are_ignored_witness :
  accepted_values
    (fst (_discard_spurious_eigenvalues cabs NpySort.argsort
            (engine_state low_412 high_521 false f_1e6)))
  = accepted_values
      (fst (_discard_spurious_eigenvalues cabs NpySort.argsort
              (engine_state low_4n12 high_5n21 false f_1e6))).
Proof.
  apply (nonfinite_entries_are_ignored cabs NpySort.argsort
           (engine_state low_412 high_521 false f_1e6)
           (engine_state low_4n12 high_5n21 false f_1e6)
           low_412 low_4n12 high_521 high_5n21 false f_1e6).
  - apply engine_state_holds.
  - apply engine_state_holds.
  - vm_compute. reflexivity.
  - vm_compute. reflexivity.
  - vm_compute. reflexivity.
  - vm_compute. reflexivity.
Defined.

(** ** An eigenvalue that the high-resolution solve reproduces *)

Lemma round_aux_sign_clear m e l :
  sign_clear (binary_round_aux F64.prec F64.emax false m e l) = true.
Proof.
  unfold binary_round_aux.
  destruct (shr_fexp F64.prec F64.emax m e l) as [mrs1 e1].
  destruct (shr_fexp F64.prec F64.emax _ e1 loc_Exact) as [mrs2 e2].
  destruct (shr_m mrs2); [reflexivity| |reflexivity].
  destruct (e2 <=? F64.emax - F64.prec); reflexivity.
Qed.

Lemma div_sign_clear x m e :
  sign_clear x = true -> sign_clear (F64.div x (S754_finite false m e)) = true.
Proof.
  destruct x as [s|s| |s mx ex]; cbn [sign_clear]; intros H;
    try (apply negb_true_iff in H; subst s); try reflexivity.
  unfold F64.div, SFdiv.
  destruct (SFdiv_core_binary F64.prec F64.emax (Z.pos mx) ex (Z.pos m) e) as [[mz ez] lz].
  apply round_aux_sign_clear.
Qed.

Lemma sub_self x : F64.is_finite x = true -> F64.sub x x = F64.zero.
Proof.
  destruct x as [s|s| |s m e]; try discriminate; intros _.
  - destruct s; reflexivity.
  - unfold F64.sub, SFsub. now rewrite Z.sub_diag.
Qed.

Lemma csub_self a : Np.isfinite a = true -> csub a a = czero.
Proof.
  unfold Np.isfinite, csub, czero. intros H. apply andb_prop in H as [Hr Hi].
  now rewrite (sub_self _ Hr), (sub_self _ Hi).
Qed.

(** Among ratios that are not negative, a zero is the minimum [np.nanmin]
    returns. *)
Lemma fmin_zero_absorbs l x :
  sign_clear x = true ->
  Forall (fun y => sign_clear y = true) l ->
  x = F64.zero \/ In F64.zero l ->
  fold_left Np.fmin l x = F64.zero.
Proof.
  revert x; induction l as [|y l IH]; intros x Hx Hl Hz.
  - destruct Hz as [->|[]]. reflexivity.
  - inversion Hl as [|? ? Hy Hl']; subst. cbn [fold_left].
    destruct Hz as [->|[->|Hin]].
    + apply IH; [| exact Hl' | left].
      * destruct y as [s|s| |s m e]; cbn [sign_clear] in Hy;
          try (apply negb_true_iff in Hy; subst s); reflexivity.
      * destruct y as [s|s| |s m e]; cbn [sign_clear] in Hy;
          try (apply negb_true_iff in Hy; subst s); reflexivity.
    + apply IH; [| exact Hl' | left].
      * destruct x as [s|s| |s m e]; cbn [sign_clear] in Hx;
          try (apply negb_true_iff in Hx; subst s); reflexivity.
      * destruct x as [s|s| |s m e]; cbn [sign_clear] in Hx;
          try (apply negb_true_iff in Hx; subst s); reflexivity.
    + apply IH; [| exact Hl' | now right].
      destruct (fmin_cases x y) as [-> | ->]; assumption.
Qed.

Section Reproduced.

Variable np_abs : complex -> float.
Variable np_argsort : list float -> list nat.

Lemma sorted_values_perm ev :
  argsort_ok np_argsort (finite_rows ev) ->
  Permutation (filter Np.isfinite ev) (sorted_values np_argsort ev).
Proof.
  intros P. rewrite <- map_fst_finite_rows. unfold sorted_values, sorted_rows.
  apply Permutation_map. now apply sort_rows_perm.
Qed.

Lemma item_sorted_values ev j :
  item (sorted_values np_argsort ev) j = fst (nth j (sorted_rows np_argsort ev) drow).
Proof. unfold item, sorted_values. change czero with (fst drow). apply map_nth. Qed.

(** X7: an eigenvalue that the high-resolution solve reproduces exactly
    is accepted.  Take the finite low-resolution eigenvalue at sorted
    position [j], with a positive finite spacing; let it occur among the
    high-resolution eigenvalues (nearest metric), or at the same sorted
    position (ordinal metric); let [np.abs] be zero at zero and not
    negative on the differences it is applied to.  Then the inverse drift
    at [j] is [+inf], and the eigenvalue is among the accepted ones for
    every threshold below [+inf]. *)
Theorem reproduced_eigenvalue_is_accepted st low hi uo thr j :
  holds st low hi uo thr ->
  argsort_ok np_argsort (finite_rows low) ->
  argsort_ok np_argsort (finite_rows hi) ->
  (2 <= n_finite low <= n_finite hi)%nat ->
  (j < n_finite low)%nat ->
  (if uo
   then item (sorted_values np_argsort hi) j = item (sorted_values np_argsort low) j
   else In (item (sorted_values np_argsort low) j) hi) ->
  F64.is_finite (nth j (sigmas_of np_abs np_argsort low) F64.nan) = true ->
  F64.ltb F64.zero (nth j (sigmas_of np_abs np_argsort low) F64.nan) = true ->
  np_abs czero = F64.zero ->
  (forall h, In h hi ->
     sign_clear (np_abs (csub (item (sorted_values np_argsort low) j) h)) = true) ->
  F64.ltb thr F64.inf = true ->
  exists vals idxs st',
    _discard_spurious_eigenvalues np_abs np_argsort st = (Ok (vals, idxs), st') /\
    nth j (inverse_drift np_abs np_argsort low hi uo) F64.nan = F64.inf /\
    In (item (sorted_values np_argsort low) j) vals.
Proof.
  intros H Pl Ph [Hn Hnh] Hj Hmatch Hfin Hpos Habs0 Hsign Hthr.
  pose proof (length_sorted_values np_argsort low Pl) as Ll.
  pose proof (length_sorted_values np_argsort hi Ph) as Lh.
  set (a := item (sorted_values np_argsort low) j) in *.
  assert (Lr : List.length (sorted_rows np_argsort low) = n_finite low).
  { unfold sorted_values in Ll. now rewrite length_map in Ll. }
  assert (Fa : Np.isfinite a = true).
  { unfold a. rewrite item_sorted_values.
    apply (finite_rows_finite low). apply (sort_rows_incl _ _ _ Pl).
    apply nth_In. fold (sorted_rows np_argsort low). lia. }
  destruct (nth j (sigmas_of np_abs np_argsort low) F64.nan) as [s|s| |s m e] eqn:Es;
    try discriminate.
  destruct s; [cbv in Hpos; discriminate|].
  assert (Ez : F64.div (np_abs (csub a a)) (S754_finite false m e) = F64.zero).
  { rewrite (csub_self a Fa), Habs0. reflexivity. }
  assert (Ei : nth j (inverse_drift np_abs np_argsort low hi uo) F64.nan = F64.inf).
  { unfold inverse_drift.
    change F64.nan with (F64.div F64.one F64.nan) at 1. rewrite map_nth.
    enough (Ed : nth j (if uo then delta_ordinal_of np_abs np_argsort low hi
                        else delta_near_of np_abs np_argsort low hi) F64.nan = F64.zero)
      by (rewrite Ed; reflexivity).
    destruct uo.
    - unfold delta_ordinal_of. rewrite nth_map_seq by lia.
      unfold ordinal_at. rewrite Es, Hmatch. exact Ez.
    - unfold delta_near_of. rewrite nth_map_seq by lia.
      unfold nearest_at, ratios. rewrite Es. fold a.
      assert (Hin : In a (sorted_values np_argsort hi)).
      { apply (Permutation_in _ (sorted_values_perm hi Ph)).
        apply filter_In. split; assumption. }
      assert (Hall : Forall (fun y => sign_clear y = true)
                       (map (fun h => F64.div (np_abs (csub a h)) (S754_finite false m e))
                            (sorted_values np_argsort hi))).
      { apply Forall_forall. intros y Hy. apply in_map_iff in Hy as (h & <- & Hh).
        apply div_sign_clear. apply Hsign.
        apply (Permutation_in _ (Permutation_sym (sorted_values_perm hi Ph))) in Hh.
        now apply filter_In in Hh as [Hh _]. }
      assert (Hz : In F64.zero
                     (map (fun h => F64.div (np_abs (csub a h)) (S754_finite false m e))
                          (sorted_values np_argsort hi))).
      { apply in_map_iff. exists a. split; [exact Ez|exact Hin]. }
      destruct (map _ (sorted_values np_argsort hi)) as [|x l]; [destruct Hz|].
      inversion Hall as [|? ? Hx Hl]; subst. cbn [fold_fmin].
      apply fmin_zero_absorbs; [exact Hx|exact Hl|].
      destruct Hz as [->|Hz]; [now left|now right]. }
  eexists _, _, _. split; [apply discard_run_ok; eassumption|].
  split; [exact Ei|].
  apply in_map_iff. exists (nth j (sorted_rows np_argsort low) drow).
  split; [symmetry; apply item_sorted_values|].
  unfold kept_rows. apply compress_nth_in.
  { apply Nat.lt_le_trans with (n_finite low); [exact Hj|].
    apply Nat.eq_le_incl. symmetry. exact Lr. }
  unfold accept_mask.
  assert (Hlen : (j < List.length (inverse_drift np_abs np_argsort low hi uo))%nat).
  { unfold inverse_drift. rewrite length_map.
    destruct uo; unfold delta_ordinal_of, delta_near_of;
      rewrite length_map, length_seq; lia. }
  rewrite (nth_indep _ false (F64.ltb thr F64.nan)) by (now rewrite length_map).
  rewrite (map_nth (fun x => F64.ltb thr x)). rewrite Ei. exact Hthr.
Qed.

End Reproduced.

Lemma reproduced_eigenvalue_is_accepted_witness :
  exists vals idxs st',
    _discard_spurious_eigenvalues cabs NpySort.argsort
      (engine_state low_412 high_521 false f_1e6)
    = (Ok (vals, idxs), st') /\
    In (c_of_Z 2) vals.
Proof.
  destruct (reproduced_eigenvalue_is_accepted cabs NpySort.argsort
              (engine_state low_412 high_521 false f_1e6)
              low_412 high_521 false f_1e6 1%nat)
    as (vals & idxs & st' & E & _ & Hin).
  - apply engine_state_holds.
  - vm_compute. reflexivity.
  - vm_compute. reflexivity.
  - vm_compute. lia.
  - vm_compute. lia.
  - vm_compute. tauto.
  - vm_compute. reflexivity.
  - vm_compute. reflexivity.
  - vm_compute. reflexivity.
  - intros h Hh. repeat (destruct Hh as [<-|Hh]; [vm_compute; reflexivity|]). destruct Hh.
  - vm_compute. reflexivity.
  - exists vals, idxs, st'. split; [exact E|]. exact Hin.
Defined.

(** * Further properties of [solve] and [growth_rate] *)

Lemma default_instance_rejecting : rejecting default_instance false f_1e6.
Proof.
  split; [exists (VBool true); split; reflexivity|].
  split; [eexists; reflexivity|]. split; [eexists; reflexivity|].
  split; reflexivity.
Qed.

Section SolveFacts.

Variable np_abs : complex -> float.
Variable np_argsort : list float -> list nat.
Variable run : string -> bool -> res (list complex).
Variable update_EVP_params : string -> string -> value -> res unit.

Lemma set_parameters_ok ps st :
  (forall o k v, In (k, v) ps -> update_EVP_params o k v = Ok tt) ->
  (exists r b, lookup "reject" (obj st) = Some r /\ truthy r = Ok b) ->
  _set_parameters update_EVP_params ps st = (Ok tt, st).
Proof.
  intros Hu (r & b & Hr & Hb). induction ps as [|[k v] ps IH]; [reflexivity|].
  cbn [_set_parameters].
  erewrite bindM_step by (rewrite lift_run, Hu by (now left); reflexivity).
  erewrite bindM_step by (apply getattr_ok; exact Hr).
  erewrite bindM_step by (rewrite lift_run, Hb; reflexivity).
  erewrite bindM_step.
  2:{ destruct b; [rewrite lift_run, Hu by (now left)|]; reflexivity. }
  apply IH. intros o k' v' Hin. apply Hu. now right.
Qed.

Lemma set_parameters_ww names ps :
  writes_within names (_set_parameters update_EVP_params ps).
Proof.
  induction ps as [|[k v] ps IH]; cbn [_set_parameters]; [apply ww_ret|].
  repeat frame_step. exact IH.
Qed.

Lemma reject_spurious_ok st low hi uo thr :
  holds st low hi uo thr ->
  argsort_ok np_argsort (finite_rows low) ->
  argsort_ok np_argsort (finite_rows hi) ->
  (2 <= n_finite low <= n_finite hi)%nat ->
  _reject_spurious np_abs np_argsort st
  = (Ok tt,
     mkState
       (("evalues", VComplexArray (map fst (kept_rows np_abs np_argsort low hi uo thr)))
        :: ("evalues_index",
            VIntArray (map position (kept_rows np_abs np_argsort low hi uo thr)))
        :: ("evalues_good",
            VComplexArray (map fst (kept_rows np_abs np_argsort low hi uo thr)))
        :: obj (final_state np_abs np_argsort st low hi))
       (logged (final_state np_abs np_argsort st low hi))).
Proof.
  intros H Pl Ph [Hn Hnh]. unfold _reject_spurious.
  erewrite bindM_step by (apply discard_run_ok; eassumption).
  cbv beta iota. rewrite map_map. reflexivity.
Qed.

(** A rejection whose engine raises, raises. *)
Lemma reject_spurious_raise_fst st e :
  fst (_discard_spurious_eigenvalues np_abs np_argsort st) = Raise e ->
  fst (_reject_spurious np_abs np_argsort st) = Raise e.
Proof.
  unfold _reject_spurious, bindM.
  destruct (_discard_spurious_eigenvalues np_abs np_argsort st) as [[r|e'] s1];
    cbn [fst]; [discriminate|]. now intros [= ->].
Qed.

(** The statements of [solve] up to the rejection, on an instance that
    rejects and whose two solver runs return. *)
Lemma solve_prefix sparse parameters pencil N target st uo thr low hi :
  rejecting st uo thr ->
  (forall o k v, update_EVP_params o k v = Ok tt) ->
  run "solver" sparse = Ok low ->
  run "hires_solver" sparse = Ok hi ->
  exists s,
    solve np_abs np_argsort run update_EVP_params sparse parameters pencil N target st
    = _reject_spurious np_abs np_argsort s /\
    holds s low hi uo thr /\
    obj s = ("evalues_high", VComplexArray hi)
              :: ("hires_solver.eigenvalues", VComplexArray hi)
              :: ("evalues_low", VComplexArray low)
              :: ("solver.eigenvalues", VComplexArray low)
              :: ("solver_kwargs", VObject "kwargs")
              :: ("target", target) :: ("N", N) :: ("pencil", pencil)
              :: obj st /\
    logged s = logged st.
Proof.
  intros ((r & Hr & Ht) & (s1 & Hs1) & (s2 & Hs2) & Huo & Hthr) Hu Rl Rh.
  eexists. split; [|split; [|split]].
  - unfold solve.
    erewrite bindM_step.
    2:{ destruct parameters as [[|p ps]|]; try reflexivity.
        apply set_parameters_ok; [intros; apply Hu|eauto]. }
    do 4 (erewrite bindM_step by reflexivity).
    unfold _run_solver at 1.
    erewrite bindM_step.
    2:{ erewrite bindM_step by (look Hs1).
        erewrite bindM_step by (rewrite lift_run, Rl; reflexivity).
        reflexivity. }
    erewrite bindM_step by reflexivity.
    erewrite bindM_step by reflexivity.
    erewrite bindM_step by (look Hr).
    erewrite bindM_step by (rewrite lift_run, Ht; reflexivity).
    unfold _run_solver.
    erewrite bindM_step.
    2:{ erewrite bindM_step by (look Hs2).
        erewrite bindM_step by (rewrite lift_run, Rh; reflexivity).
        reflexivity. }
    erewrite bindM_step by reflexivity.
    erewrite bindM_step by reflexivity.
    reflexivity.
  - repeat split; cbn [obj lookup String.eqb Ascii.eqb Bool.eqb]; assumption.
  - reflexivity.
  - reflexivity.
Qed.

Lemma solve_run_ok sparse parameters pencil N target st uo thr low hi :
  rejecting st uo thr ->
  (forall o k v, update_EVP_params o k v = Ok tt) ->
  run "solver" sparse = Ok low ->
  run "hires_solver" sparse = Ok hi ->
  argsort_ok np_argsort (finite_rows low) ->
  argsort_ok np_argsort (finite_rows hi) ->
  (2 <= n_finite low <= n_finite hi)%nat ->
  solve np_abs np_argsort run update_EVP_params sparse parameters pencil N target st
  = (Ok tt, solved_state np_abs np_argsort st low hi uo thr pencil N target).
Proof.
  intros Hrj Hu Rl Rh Pl Ph Hn.
  destruct (solve_prefix sparse parameters pencil N target st uo thr low hi
              Hrj Hu Rl Rh) as (s & -> & Hs & Ho & Hl).
  rewrite (reject_spurious_ok s low hi uo thr Hs Pl Ph Hn).
  unfold solved_state, final_state. cbn [obj logged]. now rewrite Ho, Hl.
Qed.

(** X8: on an instance that rejects, when both solver runs return, at
    least two low-resolution eigenvalues are finite and at least as many
    high-resolution ones are, [solve] returns and leaves: the raw arrays
    in [evalues_low] and [evalues_high]; the accepted eigenvalues in
    [evalues] and in [evalues_good]; in [evalues_index], for each accepted
    eigenvalue, a position at which [evalues_low] holds it; and [pencil],
    [N] and [target] as passed.  The accepted eigenvalues are the sorted
    finite low-resolution eigenvalues whose inverse drift is greater than
    [drift_threshold], with the positions their rows carry: what the
    engine returns on every instance that holds the two arrays, the metric
    and the threshold. *)
Theorem solve_publishes_accepted_eigenvalues
        (sparse : bool) (parameters : option (list (string * value)))
        (pencil N target : value) (st : state) (uo : bool) (thr : float)
        (low hi : list complex) :
  rejecting st uo thr ->
  (forall o k v, update_EVP_params o k v = Ok tt) ->
  run "solver" sparse = Ok low ->
  run "hires_solver" sparse = Ok hi ->
  argsort_ok np_argsort (finite_rows low) ->
  argsort_ok np_argsort (finite_rows hi) ->
  (2 <= n_finite low <= n_finite hi)%nat ->
  Z.of_nat (List.length low) <= 2 ^ 53 ->
  exists vals idxs st',
    solve np_abs np_argsort run update_EVP_params sparse parameters pencil N target st
    = (Ok tt, st') /\
    lookup "evalues_low" (obj st') = Some (VComplexArray low) /\
    lookup "evalues_high" (obj st') = Some (VComplexArray hi) /\
    lookup "evalues" (obj st') = Some (VComplexArray vals) /\
    lookup "evalues_good" (obj st') = Some (VComplexArray vals) /\
    lookup "evalues_index" (obj st') = Some (VIntArray idxs) /\
    lookup "pencil" (obj st') = Some pencil /\
    lookup "N" (obj st') = Some N /\
    lookup "target" (obj st') = Some target /\
    Forall2 (fun v i => 0 <= i /\ Np.getitem low i = Ok v) vals idxs /\
    vals = map fst
             (map snd
                (filter (fun p => F64.ltb thr (fst p))
                        (combine (inverse_drift np_abs np_argsort low hi uo)
                                 (sorted_rows np_argsort low)))) /\
    idxs = map position
             (map snd
                (filter (fun p => F64.ltb thr (fst p))
                        (combine (inverse_drift np_abs np_argsort low hi uo)
                                 (sorted_rows np_argsort low)))) /\
    forall s, holds s low hi uo thr ->
      fst (_discard_spurious_eigenvalues np_abs np_argsort s) = Ok (vals, idxs).
Proof.
  intros Hrj Hu Rl Rh Pl Ph Hn Hlen.
  eexists _, _, _. split; [eapply solve_run_ok; eassumption|].
  cbn [obj solved_state lookup String.eqb Ascii.eqb Bool.eqb].
  do 8 (split; [reflexivity|]).
  split; [|split; [|split]].
  - apply Forall2_map_same. intros rw Hrw.
    eapply kept_rows_index; eauto.
  - unfold kept_rows, accept_mask. now rewrite compress_map_filter.
  - unfold kept_rows, accept_mask. now rewrite compress_map_filter.
  - intros s Hs. destruct Hn as [Hn Hnh].
    rewrite (discard_run_ok np_abs np_argsort s low hi uo thr Hs Pl Ph Hn Hnh).
    cbn [fst]. now rewrite map_map.
Qed.

(** X9: on an instance that rejects, [solve] raises [IndexError] when
    the low-resolution solve returns fewer than two finite eigenvalues (a
    solve for a single eigenvalue, say), and when the high-resolution
    solve returns fewer finite eigenvalues than the low-resolution one. *)
Theorem solve_raises_index_error_on_too_few_eigenvalues
        (sparse : bool) (parameters : option (list (string * value)))
        (pencil N target : value) (st : state) (uo : bool) (thr : float)
        (low hi : list complex) :
  rejecting st uo thr ->
  (forall o k v, update_EVP_params o k v = Ok tt) ->
  run "solver" sparse = Ok low ->
  run "hires_solver" sparse = Ok hi ->
  argsort_ok np_argsort (finite_rows low) ->
  argsort_ok np_argsort (finite_rows hi) ->
  (n_finite low < 2)%nat \/ (n_finite hi < n_finite low)%nat ->
  fst (solve np_abs np_argsort run update_EVP_params sparse parameters
             pencil N target st) = Raise IndexError.
Proof.
  intros Hrj Hu Rl Rh Pl Ph Hn.
  destruct (solve_prefix sparse parameters pencil N target st uo thr low hi
              Hrj Hu Rl Rh) as (s & -> & Hs & _ & _).
  apply reject_spurious_raise_fst.
  destruct (Nat.lt_ge_cases (n_finite low) 2) as [Hlt|Hge].
  - now rewrite (discard_few_low np_abs np_argsort _ _ _ _ _ Hs Pl Hlt).
  - apply (discard_short_hi np_abs np_argsort _ _ _ _ _ Hs Pl Ph Hge). lia.
Qed.

Lemma reject_spurious_raise I names :
  incl ["delta_ordinal"; "delta_near"] names ->
  raise_within I names (_reject_spurious np_abs np_argsort).
Proof.
  intros Hincl s e _. unfold _reject_spurious, bindM.
  pose proof (discard_writes_within np_abs np_argsort s) as F.
  destruct (_discard_spurious_eigenvalues np_abs np_argsort s) as [[[evg indx]|e'] s1];
    cbn [snd] in F.
  - cbn. discriminate.
  - intros _ n Hn. apply F. intros Hin. apply Hn. now apply Hincl.
Qed.

Lemma solve_raise r sparse parameters pencil N target :
  truthy r = Ok true ->
  raise_within (fun s => lookup "reject" (obj s) = Some r) solve_scratch
               (solve np_abs np_argsort run update_EVP_params sparse parameters
                      pencil N target).
Proof.
  intros Ht. unfold solve, _run_solver, solve_scratch.
  assert (HI : forall s s',
             lookup "reject" (obj s) = Some r ->
             same_except solve_scratch s s' -> lookup "reject" (obj s') = Some r).
  { intros s s' Hs F. rewrite F; [exact Hs|].
    unfold solve_scratch. cbn [In]. intuition discriminate. }
  unfold solve_scratch in HI.
  apply rw_bind; [|exact HI|intros _].
  { destruct parameters as [[|p ps]|]; try apply ww_ret. apply set_parameters_ww. }
  do 4 (apply rw_bind; [repeat frame_step|exact HI|intros _]).
  apply rw_bind; [repeat frame_step|exact HI|intros _].
  apply rw_bind; [repeat frame_step|exact HI|intros ev].
  apply rw_bind; [repeat frame_step|exact HI|intros _].
  apply (rw_getattr _ _ _ r); [auto|].
  intros s e Is. rewrite (bindM_step _ _ _ true s) by (rewrite lift_run, Ht; reflexivity).
  revert s e Is.
  change (raise_within (fun s => lookup "reject" (obj s) = Some r)
            ["pencil"; "N"; "target"; "solver_kwargs"; "solver.eigenvalues";
             "evalues_low"; "hires_solver.eigenvalues"; "evalues_high";
             "delta_ordinal"; "delta_near"]
            ((getattr "hires_solver" ;;;
              ev <~ lift (run "hires_solver" sparse) ;;
              setattr ("hires_solver" ++ ".eigenvalues") (VComplexArray ev)) ;;;
             ev <~ getattr "hires_solver.eigenvalues" ;;
             setattr "evalues_high" ev ;;;
             _reject_spurious np_abs np_argsort)).
  apply rw_bind; [repeat frame_step|exact HI|intros _].
  apply rw_bind; [repeat frame_step|exact HI|intros ev'].
  apply rw_bind; [repeat frame_step|exact HI|intros _].
  apply reject_spurious_raise. intros n Hn. cbn [In] in *. tauto.
Qed.

Lemma solve_low_stored sparse parameters pencil N target st s1 low :
  (forall o k v, update_EVP_params o k v = Ok tt) ->
  (exists r b, lookup "reject" (obj st) = Some r /\ truthy r = Ok b) ->
  lookup "solver" (obj st) = Some s1 ->
  run "solver" sparse = Ok low ->
  lookup "evalues_low"
         (obj (snd (solve np_abs np_argsort run update_EVP_params sparse parameters
                          pencil N target st)))
  = Some (VComplexArray low).
Proof.
  intros Hu Hr Hs1 Rl. unfold solve.
  erewrite bindM_step.
  2:{ destruct parameters as [[|p ps]|]; try reflexivity.
      apply set_parameters_ok; [intros; apply Hu|exact Hr]. }
  do 4 (erewrite bindM_step by reflexivity).
  unfold _run_solver at 1.
  erewrite bindM_step.
  2:{ erewrite bindM_step by (look Hs1).
      erewrite bindM_step by (rewrite lift_run, Rl; reflexivity).
      reflexivity. }
  erewrite bindM_step by reflexivity.
  erewrite bindM_step by reflexivity.
  match goal with |- lookup ?n (obj (snd (?c ?s))) = _ =>
    assert (W : writes_within
                  ["hires_solver.eigenvalues"; "evalues_high"; "delta_ordinal";
                   "delta_near"; "evalues_good"; "evalues_index"; "evalues"] c)
  end.
  { unfold _run_solver. repeat frame_step. }
  rewrite W; [reflexivity|].
  cbn [In]. intuition discriminate.
Qed.

(** X10: a [solve] that raises, on an instance that rejects, publishes
    nothing: [evalues], [evalues_good] and [evalues_index] are bound as
    they were before the call, or as little.  The instance is left in a
    mixed state all the same: once the low-resolution solve has returned,
    [evalues_low] holds its eigenvalues, next to the [evalues] of the
    call before. *)
Theorem failed_solve_keeps_previous_results
        (sparse : bool) (parameters : option (list (string * value)))
        (pencil N target : value) (st : state) (r : value) (e : exn) :
  lookup "reject" (obj st) = Some r ->
  truthy r = Ok true ->
  fst (solve np_abs np_argsort run update_EVP_params sparse parameters
             pencil N target st) = Raise e ->
  (forall n, In n ["evalues"; "evalues_good"; "evalues_index"] ->
     lookup n (obj (snd (solve np_abs np_argsort run update_EVP_params sparse
                               parameters pencil N target st)))
     = lookup n (obj st)) /\
  (forall s1 low,
     (forall o k v, update_EVP_params o k v = Ok tt) ->
     lookup "solver" (obj st) = Some s1 ->
     run "solver" sparse = Ok low ->
     lookup "evalues_low"
            (obj (snd (solve np_abs np_argsort run update_EVP_params sparse
                             parameters pencil N target st)))
     = Some (VComplexArray low)).
Proof.
  intros Hr Ht E. split.
  - intros n Hn.
    apply (solve_raise r sparse parameters pencil N target Ht st e Hr E).
    unfold solve_scratch. cbn [In] in *.
    intros H. destruct Hn as [<-|[<-|[<-|[]]]];
      repeat (destruct H as [H|H]; [discriminate|]); exact H.
  - intros s1 low Hu Hs1 Rl. eapply solve_low_stored; eauto.
Qed.

End SolveFacts.

Lemma solve_publishes_accepted_eigenvalues_witness :
  exists st',
    solve cabs NpySort.argsort matching_solves updates_ok false None
          (VInt 0) (VInt 15) (VInt 0) default_instance = (Ok tt, st') /\
    lookup "evalues" (obj st') = Some (VComplexArray [c_of_Z 1; c_of_Z 2]) /\
    lookup "evalues_index" (obj st') = Some (VIntArray [1; 2]).
Proof.
  destruct (solve_publishes_accepted_eigenvalues cabs NpySort.argsort
              matching_solves updates_ok false None (VInt 0) (VInt 15) (VInt 0)
              default_instance false f_1e6 low_412 high_521)
    as (vals & idxs & st' & E & _ & _ & Hv & _ & Hi & _).
  - apply default_instance_rejecting.
  - reflexivity.
  - reflexivity.
  - reflexivity.
  - vm_compute. reflexivity.
  - vm_compute. reflexivity.
  - vm_compute. lia.
  - vm_compute. discriminate.
  - exists st'. split; [exact E|].
    assert (Es : st' = snd (solve cabs NpySort.argsort matching_solves updates_ok false
                                  None (VInt 0) (VInt 15) (VInt 0) default_instance))
      by (now rewrite E).
    rewrite Es. split; vm_compute; reflexivity.
Defined.

Lemma solve_raises_index_error_on_too_few_eigenvalues_witness :
  fst (solve cabs NpySort.argsort single_solves updates_ok true None
             (VInt 0) (VInt 1) (VInt 0) default_instance) = Raise IndexError.
Proof.
  apply (solve_raises_index_error_on_too_few_eigenvalues cabs NpySort.argsort
           single_solves updates_ok true None (VInt 0) (VInt 1) (VInt 0)
           default_instance false f_1e6 [c_of_Z 1] [c_of_Z 1]).
  - apply default_instance_rejecting.
  - reflexivity.
  - reflexivity.
  - reflexivity.
  - vm_compute. reflexivity.
  - vm_compute. reflexivity.
  - left. vm_compute. lia.
Defined.

Lemma failed_solve_keeps_previous_results_witness :
  lookup "evalues"
         (obj (snd (solve cabs NpySort.argsort hires_failure updates_ok true None
                          (VInt 0) (VInt 15) (VInt 0) default_instance)))
  = Some VNone /\
  lookup "evalues_low"
         (obj (snd (solve cabs NpySort.argsort hires_failure updates_ok true None
                          (VInt 0) (VInt 15) (VInt 0) default_instance)))
  = Some (VComplexArray low_412).
Proof.
  destruct (failed_solve_keeps_previous_results cabs NpySort.argsort hires_failure
              updates_ok true None (VInt 0) (VInt 15) (VInt 0) default_instance
              (VBool true) ArpackNoConvergence) as [Hkeep Hlow].
  - reflexivity.
  - reflexivity.
  - vm_compute. reflexivity.
  - split.
    + rewrite (Hkeep "evalues") by (now left). reflexivity.
    + apply (Hlow (VObject "solver")); reflexivity.
Defined.

(** ** The growth rate *)

Lemma where_from_all_false k mask :
  forallb negb mask = true -> Np.where_from k mask = [].
Proof.
  revert k; induction mask as [|b mask IH]; intros k H; [reflexivity|].
  cbn [forallb] in H. apply andb_prop in H as [Hb H]. destruct b; [discriminate|].
  cbn [Np.where_from]. now apply IH.
Qed.

Lemma where_from_first k mask i :
  nth i mask false = true ->
  (forall j, (j < i)%nat -> nth j mask false = false) ->
  exists rest, Np.where_from k mask = (k + Z.of_nat i) :: rest.
Proof.
  revert k i; induction mask as [|b mask IH]; intros k i Hi Hlt.
  - destruct i; discriminate.
  - destruct i as [|i].
    + cbn [nth] in Hi. subst b. cbn [Np.where_from]. rewrite Z.add_0_r. now eexists.
    + pose proof (Hlt 0%nat ltac:(lia)) as H0. cbn [nth] in H0. subst b.
      cbn [Np.where_from]. cbn [nth] in Hi.
      destruct (IH (k + 1) i Hi) as (rest & E).
      { intros j Hj. apply (Hlt (S j)). lia. }
      exists rest. rewrite E. f_equal. lia.
Qed.

Lemma where_from_head k mask i rest :
  Np.where_from k mask = i :: rest ->
  exists j, i = k + Z.of_nat j /\ nth j mask false = true /\
            forall j', (j' < j)%nat -> nth j' mask false = false.
Proof.
  revert k; induction mask as [|b mask IH]; intros k H; [discriminate|].
  cbn [Np.where_from] in H. destruct b.
  - injection H as <- _. exists 0%nat. split; [lia|]. split; [reflexivity|]. intros; lia.
  - destruct (IH _ H) as (j & -> & Hj & Hlt). exists (S j).
    split; [lia|]. split; [exact Hj|].
    intros [|j'] Hj'; [reflexivity|]. apply Hlt. lia.
Qed.

Lemma first_true (mask : list bool) :
  existsb (fun b => b) mask = true ->
  exists i, nth i mask false = true /\ forall j, (j < i)%nat -> nth j mask false = false.
Proof.
  induction mask as [|b mask IH]; [discriminate|].
  cbn [existsb]. destruct b.
  - intros _. exists 0%nat. split; [reflexivity|]. intros; lia.
  - cbn [orb]. intros H. destruct (IH H) as (i & Hi & Hlt). exists (S i).
    split; [exact Hi|]. intros [|j] Hj; [reflexivity|]. apply Hlt. lia.
Qed.

Lemma f64_ltb_leb x y : F64.ltb x y = true -> F64.leb x y = true.
Proof.
  unfold F64.ltb, F64.leb, SFltb, SFleb.
  destruct (SFcompare x y) as [[]|]; auto.
Qed.

Lemma f64_leb_refl x : F64.is_finite x = true -> F64.leb x x = true.
Proof.
  intros H. apply leb_total; [exact H|exact H|].
  unfold F64.ltb, SFltb. destruct x as [s|s| |s m e]; try discriminate; [reflexivity|].
  cbn [SFcompare]. destruct s; norm_cmp; rewrite Z.compare_refl, Pos.compare_refl;
    reflexivity.
Qed.

Lemma f64_eqb_refl x : F64.is_finite x = true -> F64.eqb x x = true.
Proof.
  intros H. unfold F64.eqb, SFeqb. destruct x as [s|s| |s m e]; try discriminate;
    [reflexivity|].
  cbn [SFcompare]. destruct s; norm_cmp; rewrite Z.compare_refl, Pos.compare_refl;
    reflexivity.
Qed.

Lemma eqb_nan_r x : F64.eqb x F64.nan = false.
Proof. destruct x; reflexivity. Qed.

Lemma maximum_cases x y : Np.maximum x y = x \/ Np.maximum x y = y.
Proof. unfold Np.maximum. destruct (F64.leb y x || F64.is_nan x); auto. Qed.

Lemma maximum_upper x y :
  F64.is_finite x = true -> F64.is_finite y = true ->
  F64.leb x (Np.maximum x y) = true /\ F64.leb y (Np.maximum x y) = true.
Proof.
  intros Fx Fy. unfold Np.maximum.
  replace (F64.is_nan x) with false by (destruct x; try discriminate; reflexivity).
  rewrite orb_false_r. destruct (F64.leb y x) eqn:E.
  - split; [now apply f64_leb_refl|exact E].
  - split; [|now apply f64_leb_refl].
    apply leb_total; [exact Fx|exact Fy|].
    destruct (F64.ltb y x) eqn:L; [|reflexivity].
    apply f64_ltb_leb in L. congruence.
Qed.

(** [np.max] of finite values: an entry that no entry exceeds. *)
Lemma fold_maximum l x :
  F64.is_finite x = true -> Forall (fun y => F64.is_finite y = true) l ->
  let m := fold_left Np.maximum l x in
  In m (x :: l) /\ F64.is_finite m = true /\
  Forall (fun y => F64.leb y m = true) (x :: l).
Proof.
  revert x; induction l as [|y l IH]; intros x Fx Fl; cbn zeta.
  - cbn [fold_left]. split; [now left|]. split; [exact Fx|].
    constructor; [now apply f64_leb_refl|constructor].
  - inversion Fl as [|? ? Fy Fl']; subst. cbn [fold_left].
    assert (Fm : F64.is_finite (Np.maximum x y) = true)
      by (destruct (maximum_cases x y) as [-> | ->]; assumption).
    destruct (IH (Np.maximum x y) Fm Fl') as (Hin & Ff & Hall).
    destruct (maximum_upper x y Fx Fy) as [Ux Uy].
    inversion Hall as [|? ? Hm Hl]; subst.
    split; [|split; [exact Ff|]].
    + destruct Hin as [E|Hin]; [|right; now right].
      rewrite <- E. destruct (maximum_cases x y) as [-> | ->]; [now left|right; now left].
    + constructor; [|constructor; [|exact Hl]].
      * eapply leb_trans; [exact Fx|exact Fm|exact Ff|exact Ux|exact Hm].
      * eapply leb_trans; [exact Fy|exact Fm|exact Ff|exact Uy|exact Hm].
Qed.

(** [np.max] of values one of which is a NaN. *)
Lemma fold_maximum_nan l x :
  F64.is_nan x = true \/ Exists (fun y => F64.is_nan y = true) l ->
  fold_left Np.maximum l x = F64.nan.
Proof.
  revert x; induction l as [|y l IH]; intros x H; cbn [fold_left].
  - destruct H as [H|H]; [|inversion H]. destruct x; try discriminate; reflexivity.
  - apply IH. destruct H as [H|H].
    + left. unfold Np.maximum. rewrite H, orb_true_r. exact H.
    + inversion H as [? ? Hy|? ? Hl]; subst; [left|now right].
      destruct y; try discriminate. unfold Np.maximum. destruct x; reflexivity.
Qed.

Lemma nth_mask (h : float -> bool) l i :
  h F64.nan = false -> nth i (map h l) false = h (nth i l F64.nan).
Proof. intros E. rewrite <- E at 1. apply map_nth. Qed.

Lemma grow_of_evalues_ok st ev g :
  lookup "evalues" (obj st) = Some (VComplexArray ev) ->
  lookup "grow_func" (obj st) = Some (VArrayFun g) ->
  grow_of_evalues st = (Ok (g ev), st).
Proof.
  intros Hev Hg. unfold grow_of_evalues.
  erewrite bindM_step by (apply getattr_ok; exact Hg).
  erewrite bindM_step by (apply getattr_ok; exact Hev).
  reflexivity.
Qed.

Lemma grow_of_evalues_state s gv s' : grow_of_evalues s = (Ok gv, s') -> s' = s.
Proof.
  unfold grow_of_evalues. intros H.
  apply bindM_ok_inv in H as (a1 & s1 & H1 & H).
  apply getattr_inv in H1 as [_ ->].
  apply bindM_ok_inv in H as (a2 & s2 & H2 & H).
  apply getattr_inv in H2 as [_ ->].
  apply bindM_ok_inv in H as (a3 & s3 & H3 & H).
  apply lift_inv in H3 as [_ ->].
  apply bindM_ok_inv in H as (a4 & s4 & H4 & H).
  apply lift_inv in H4 as [_ ->].
  unfold ret in H. now injection H.
Qed.

Lemma failure_handler_raises msg s :
  fst (failure_handler msg s) = Raise NameError.
Proof. reflexivity. Qed.

Section GrowthFacts.

Variable np_abs : complex -> float.
Variable np_argsort : list float -> list nat.
Variable run : string -> bool -> res (list complex).
Variable update_EVP_params : string -> string -> value -> res unit.

(** X11: when [solve] returns and leaves a non-empty [evalues] whose
    growth values are finite (as the real parts of accepted eigenvalues
    are), [growth_rate] returns [(m, i, freq)] and leaves the instance as
    [solve] left it: [m] is a growth value that none exceeds, [i] is the
    first position of [evalues] (not of the solver's array) whose growth
    value equals [m], and [freq] is [freq_func] of the eigenvalue at [i]. *)
Theorem growth_rate_returns_first_maximum
        (sparse : bool) (parameters : option (list (string * value)))
        (pencil N target : value) (st st' : state)
        (ev : list complex) (g : list complex -> list float) (f : complex -> float) :
  solve np_abs np_argsort run update_EVP_params sparse parameters pencil N target st
  = (Ok tt, st') ->
  lookup "evalues" (obj st') = Some (VComplexArray ev) ->
  lookup "grow_func" (obj st') = Some (VArrayFun g) ->
  lookup "freq_func" (obj st') = Some (VScalarFun f) ->
  g ev <> [] ->
  List.length (g ev) = List.length ev ->
  Forall (fun x => F64.is_finite x = true) (g ev) ->
  exists m i,
    growth_rate np_abs np_argsort run update_EVP_params sparse parameters
                pencil N target st
    = (Ok (VFloat m, VInt (Z.of_nat i), VFloat (f (item ev i))), st') /\
    (i < List.length ev)%nat /\
    In m (g ev) /\
    Forall (fun x => F64.leb x m = true) (g ev) /\
    F64.eqb (nth i (g ev) F64.nan) m = true /\
    forall k, (k < i)%nat -> F64.eqb (nth k (g ev) F64.nan) m = false.
Proof.
  intros Hs Hev Hg Hf Hne Hlen Hfin.
  pose proof (grow_of_evalues_ok st' ev g Hev Hg) as Hgo.
  destruct (g ev) as [|x l] eqn:Eg; [congruence|].
  inversion Hfin as [|? ? Fx Fl]; subst.
  destruct (fold_maximum l x Fx Fl) as (Hin & Fm & Hall).
  set (m := fold_left Np.maximum l x) in *.
  set (mask := map (fun y => F64.eqb y m) (x :: l)).
  assert (Hex : existsb (fun b => b) mask = true).
  { apply existsb_exists. exists (F64.eqb m m). split; [|now apply f64_eqb_refl].
    unfold mask. now apply (in_map (fun y => F64.eqb y m)). }
  destruct (first_true mask Hex) as (i & Hi & Hlt).
  destruct (where_from_first 0 mask i Hi Hlt) as (rest & Ew).
  assert (Hil : (i < List.length ev)%nat).
  { rewrite <- Hlen. destruct (Nat.lt_ge_cases i (List.length (x :: l))) as [L|G];
      [exact L|].
    rewrite nth_overflow in Hi by (unfold mask; rewrite length_map; exact G).
    discriminate. }
  exists m, i. split; [|split; [exact Hil|split; [exact Hin|split; [exact Hall|split]]]].
  - unfold growth_rate, try_except.
    erewrite bindM_step by exact Hs.
    erewrite bindM_step by exact Hgo.
    erewrite bindM_step by reflexivity. cbv beta.
    erewrite bindM_step by exact Hgo.
    erewrite bindM_step by (apply getattr_ok; exact Hf).
    erewrite bindM_step by (apply getattr_ok; exact Hev).
    fold m. fold mask. unfold Np.where_. rewrite Ew.
    erewrite bindM_step by reflexivity.
    erewrite bindM_step by reflexivity.
    erewrite bindM_step
      by (rewrite lift_run, (getitem_nth ev _ czero) by (unfold Np.len; lia);
          reflexivity).
    erewrite bindM_step by reflexivity.
    erewrite bindM_step by reflexivity.
    cbv beta. unfold ret. rewrite Z.add_0_l, Nat2Z.id. reflexivity.
  - unfold mask in Hi. now rewrite nth_mask in Hi by reflexivity.
  - intros k Hk. specialize (Hlt k Hk). unfold mask in Hlt.
    now rewrite nth_mask in Hlt by reflexivity.
Qed.

(** X12: when [solve] returns and one of the growth values is a NaN,
    [np.max] is NaN, no growth value equals it, [gr_indx] is empty, and
    [growth_rate] raises [IndexError] at [gr_indx[0]], which no handler
    catches. *)
Theorem growth_rate_nan_growth_raises_index_error
        (sparse : bool) (parameters : option (list (string * value)))
        (pencil N target : value) (st st' : state)
        (ev : list complex) (g : list complex -> list float) (ff : value) :
  solve np_abs np_argsort run update_EVP_params sparse parameters pencil N target st
  = (Ok tt, st') ->
  lookup "evalues" (obj st') = Some (VComplexArray ev) ->
  lookup "grow_func" (obj st') = Some (VArrayFun g) ->
  lookup "freq_func" (obj st') = Some ff ->
  Exists (fun x => F64.is_nan x = true) (g ev) ->
  growth_rate np_abs np_argsort run update_EVP_params sparse parameters
              pencil N target st
  = (Raise IndexError, st').
Proof.
  intros Hs Hev Hg Hf Hnan.
  pose proof (grow_of_evalues_ok st' ev g Hev Hg) as Hgo.
  destruct (g ev) as [|x l] eqn:Eg; [inversion Hnan|].
  assert (Em : fold_left Np.maximum l x = F64.nan).
  { apply fold_maximum_nan. inversion Hnan; subst; [now left|now right]. }
  unfold growth_rate, try_except.
  erewrite bindM_step by exact Hs.
  erewrite bindM_step by exact Hgo.
  erewrite bindM_step by reflexivity. cbv beta.
  erewrite bindM_step by exact Hgo.
  erewrite bindM_step by (apply getattr_ok; exact Hf).
  erewrite bindM_step by (apply getattr_ok; exact Hev).
  rewrite Em. unfold Np.where_.
  rewrite where_from_all_false.
  2:{ rewrite forallb_forall. intros b Hb. apply in_map_iff in Hb as (y & <- & _).
      now rewrite eqb_nan_r. }
  reflexivity.
Qed.

(** X13: [growth_rate] returns only when [solve] has returned, and never
    returns a NaN growth rate: the first component of a returned triple
    is a float that is not a NaN, the second a non-negative integer.  The
    triple [(nan, nan, nan)] of the docstring is returned by no call. *)
Theorem growth_rate_never_returns_nan
        (sparse : bool) (parameters : option (list (string * value)))
        (pencil N target : value) (st st' : state) (a b c : value) :
  growth_rate np_abs np_argsort run update_EVP_params sparse parameters
              pencil N target st
  = (Ok (a, b, c), st') ->
  solve np_abs np_argsort run update_EVP_params sparse parameters pencil N target st
  = (Ok tt, st') /\
  exists m i fq,
    a = VFloat m /\ b = VInt i /\ c = VFloat fq /\ F64.is_nan m = false /\ 0 <= i.
Proof.
  unfold growth_rate, try_except.
  match goal with |- (match ?body st with _ => _ end) = _ -> _ =>
    destruct (body st) as [[t|e] s1] eqn:Eb end.
  2:{ cbn [find fst snd existsb].
      destruct (Py.isinstance e LinAlgError || false) eqn:E1.
      { cbn [snd]. intros H. pose proof (failure_handler_raises
          "Dense eigenvalue solver failed for parameters {}" s1) as F.
        rewrite H in F. discriminate. }
      destruct (Py.isinstance e ArpackNoConvergence
                || (Py.isinstance e ArpackError || false)) eqn:E2.
      { cbn [snd]. intros H. pose proof (failure_handler_raises
          "Sparse eigenvalue solver failed to converge for parameters {}" s1) as F.
        rewrite H in F. discriminate. }
      discriminate. }
  intros H. injection H as -> ->.
  apply bindM_ok_inv in Eb as ([] & s2 & Hs & Eb).
  apply bindM_ok_inv in Eb as (g1 & s3 & Hg1 & Eb).
  pose proof (grow_of_evalues_state _ _ _ Hg1) as ->.
  apply bindM_ok_inv in Eb as (m & s4 & Hm & Eb).
  apply lift_inv in Hm as [Hm ->].
  apply bindM_ok_inv in Eb as (g2 & s5 & Hg2 & Eb).
  pose proof (grow_of_evalues_state _ _ _ Hg2) as ->.
  apply bindM_ok_inv in Eb as (ff & s6 & Hff & Eb).
  apply getattr_inv in Hff as [_ ->].
  apply bindM_ok_inv in Eb as (ev & s7 & Hev & Eb).
  apply getattr_inv in Hev as [_ ->].
  apply bindM_ok_inv in Eb as (i0 & s8 & Hi0 & Eb).
  apply lift_inv in Hi0 as [Hi0 ->].
  apply bindM_ok_inv in Eb as (arr & s9 & Harr & Eb).
  apply lift_inv in Harr as [_ ->].
  apply bindM_ok_inv in Eb as (e0 & s10 & He0 & Eb).
  apply lift_inv in He0 as [_ ->].
  apply bindM_ok_inv in Eb as (f & s11 & Hf & Eb).
  apply lift_inv in Hf as [_ ->].
  apply bindM_ok_inv in Eb as (i1 & s12 & Hi1 & Eb).
  apply lift_inv in Hi1 as [Hi1 ->].
  unfold ret in Eb. injection Eb as <- <- <- <-.
  split; [exact Hs|].
  exists m, i1, (f e0). repeat split.
  - unfold Np.where_ in Hi1.
    destruct (Np.where_from 0 (map (fun x => F64.eqb x m) g2)) as [|w rest] eqn:Ew;
      [discriminate|].
    apply where_from_head in Ew as (j & _ & Hj & _).
    destruct m; try reflexivity.
    rewrite nth_mask in Hj by reflexivity. now rewrite eqb_nan_r in Hj.
  - unfold Np.where_ in Hi1.
    destruct (Np.where_from 0 (map (fun x => F64.eqb x m) g2)) as [|w rest] eqn:Ew;
      [discriminate|].
    apply where_from_head in Ew as (j & -> & _).
    rewrite (getitem_nth _ 0 0) in Hi1
      by (unfold Np.len; cbn [List.length]; lia).
    change (Z.to_nat 0) with O in Hi1. cbn [nth] in Hi1. injection Hi1 as <-. lia.
Qed.

End GrowthFacts.

Lemma growth_rate_returns_first_maximum_witness :
  fst (growth_rate cabs NpySort.argsort matching_solves updates_ok false None
                   (VInt 0) (VInt 15) (VInt 0) default_instance)
  = Ok (VFloat (F64.of_Z 2), VInt 1, VFloat F64.zero).
Proof.
  destruct (growth_rate_returns_first_maximum cabs NpySort.argsort matching_solves
              updates_ok false None (VInt 0) (VInt 15) (VInt 0) default_instance
              (snd (solve cabs NpySort.argsort matching_solves updates_ok false None
                          (VInt 0) (VInt 15) (VInt 0) default_instance))
              [c_of_Z 1; c_of_Z 2] (map re) im)
    as (m & i & E & _).
  - vm_compute. reflexivity.
  - vm_compute. reflexivity.
  - vm_compute. reflexivity.
  - vm_compute. reflexivity.
  - discriminate.
  - reflexivity.
  - repeat constructor.
  - vm_compute. reflexivity.
Defined.

Lemma growth_rate_nan_growth_raises_index_error_witness :
  fst (growth_rate cabs NpySort.argsort reproduced_solves updates_ok false None
                   (VInt 0) (VInt 15) (VInt 0) masked_growth_instance)
  = Raise IndexError.
Proof.
  rewrite (growth_rate_nan_growth_raises_index_error cabs NpySort.argsort
             reproduced_solves updates_ok false None (VInt 0) (VInt 15) (VInt 0)
             masked_growth_instance
             (snd (solve cabs NpySort.argsort reproduced_solves updates_ok false None
                         (VInt 0) (VInt 15) (VInt 0) masked_growth_instance))
             [c_of_Z (-1); c_of_Z 1; c_of_Z 2]
             masked_growth default_freq_func).
  - reflexivity.
  - vm_compute. reflexivity.
  - vm_compute. reflexivity.
  - vm_compute. reflexivity.
  - vm_compute. reflexivity.
  - left. vm_compute. reflexivity.
Defined.

Lemma growth_rate_never_returns_nan_witness :
  exists m,
    fst (growth_rate cabs NpySort.argsort matching_solves updates_ok false None
                     (VInt 0) (VInt 15) (VInt 0) default_instance)
    = Ok (VFloat m, VInt 1, VFloat F64.zero) /\
    F64.is_nan m = false.
Proof.
  destruct (growth_rate_never_returns_nan cabs NpySort.argsort matching_solves
              updates_ok false None (VInt 0) (VInt 15) (VInt 0) default_instance
              (snd (growth_rate cabs NpySort.argsort matching_solves updates_ok false
                                None (VInt 0) (VInt 15) (VInt 0) default_instance))
              (VFloat (F64.of_Z 2)) (VInt 1) (VFloat F64.zero))
    as (_ & m & i & fq & Ea & _ & _ & Hm & _).
  - vm_compute. reflexivity.
  - exists m. split; [|exact Hm].
    injection Ea as <-. vm_compute. reflexivity.
Defined.

(** * Further properties of [_pseudo] *)

Lemma setitem_out {A} (a : list A) i x :
  Np.len a <= i \/ i < - Np.len a -> Np.setitem a i x = Raise IndexError.
Proof. intros H. unfold Np.setitem. now rewrite norm_index_out. Qed.

Lemma setitem2_out R a b j i v :
  rect R a b -> ~ ((j < a)%nat /\ (i < b)%nat) ->
  setitem2 R (Z.of_nat j) (Z.of_nat i) v = Raise IndexError.
Proof.
  intros [Hl Hr] Hn. unfold setitem2.
  destruct (Nat.lt_ge_cases j a) as [Hj|Hj].
  - destruct (nth_error R j) as [r|] eqn:Er.
    2:{ apply nth_error_None in Er. lia. }
    rewrite (getitem_nth R _ r) by (unfold Np.len; lia). rewrite bind_ok.
    rewrite Nat2Z.id, (nth_error_nth _ _ r Er).
    assert (Hrl : List.length r = b).
    { rewrite Forall_forall in Hr. apply Hr. eapply nth_error_In; eauto. }
    rewrite setitem_out; [reflexivity|]. unfold Np.len. lia.
  - rewrite getitem_out; [reflexivity|]. unfold Np.len. lia.
Qed.

(** A run of assignments into an array of [a] rows of [b] entries returns
    exactly when every assignment is in range, and raises [IndexError]
    otherwise. *)
Lemma writes_outcome (V : nat -> nat -> float) (ws : list (nat * nat)) R tr a b :
  rect R a b ->
  match foldM (fun st p =>
                 R' <- setitem2 (fst st) (Z.of_nat (fst p)) (Z.of_nat (snd p))
                                (V (fst p) (snd p)) ;;
                 Ok (R', snd st ++ [(Z.of_nat (fst p), Z.of_nat (snd p))]))
              ws (R, tr) with
  | Ok r => rect (fst r) a b /\ forall p, In p ws -> (fst p < a)%nat /\ (snd p < b)%nat
  | Raise e => e = IndexError /\ exists p, In p ws /\ ~ ((fst p < a)%nat /\ (snd p < b)%nat)
  end.
Proof.
  revert R tr; induction ws as [|[j0 i0] ws IH]; intros R tr HR.
  - cbn [foldM fst]. split; [exact HR|intros p []].
  - cbn [foldM fst snd].
    destruct (Nat.lt_ge_cases j0 a) as [Hj|Hj];
      [destruct (Nat.lt_ge_cases i0 b) as [Hi|Hi]|].
    + destruct (setitem2_ok R a b j0 i0 (V j0 i0) HR Hj Hi) as (R1 & E1 & HR1 & _).
      rewrite E1. cbn [Py.bind].
      specialize (IH R1 (tr ++ [(Z.of_nat j0, Z.of_nat i0)]) HR1).
      destruct (foldM _ ws _) as [r|e].
      * destruct IH as [Hr Hall]. split; [exact Hr|].
        intros p [<-|Hp]; [cbn [fst snd]; lia|now apply Hall].
      * destruct IH as [He (p & Hp & Hn)]. split; [exact He|].
        exists p. split; [now right|exact Hn].
    + rewrite (setitem2_out R a b) by (try exact HR; lia). cbn [Py.bind].
      split; [reflexivity|]. exists (j0, i0). split; [now left|cbn [fst snd]; lia].
    + rewrite (setitem2_out R a b) by (try exact HR; lia). cbn [Py.bind].
      split; [reflexivity|]. exists (j0, i0). split; [now left|cbn [fst snd]; lia].
Qed.

Section PseudoFacts.

Variable linalg_norm : matrix -> Z -> float.

(** The two loops as one run of assignments. *)
Lemma pseudo_loop_flat L xx yy norm :
  square L ->
  pseudo_loop linalg_norm L (xx, yy) norm
  = foldM (fun st p =>
             R' <- setitem2 (fst st) (Z.of_nat (fst p)) (Z.of_nat (snd p))
                            (stored linalg_norm L norm (nth (snd p) xx F64.nan)
                                    (nth (fst p) yy F64.nan)) ;;
             Ok (R', snd st ++ [(Z.of_nat (fst p), Z.of_nat (snd p))]))
          (list_prod (seq 0 (List.length yy)) (seq 0 (List.length xx)))
          (repeat (Np.zeros (Np.len yy)) (Z.to_nat (Np.len xx)), []).
Proof.
  intros Hsq. unfold pseudo_loop. cbn [fst snd].
  rewrite (foldM_nested
             (fun jy st ix =>
                A <- sub_matrix (scale (grid_point (snd ix) (snd jy)) (eye (Np.len L))) L ;;
                R' <- setitem2 (fst st) (fst jy) (fst ix) (linalg_norm A norm) ;;
                Ok (R', snd st ++ [(fst jy, fst ix)]))).
  rewrite (enumerate_seq yy F64.nan), (enumerate_seq xx F64.nan).
  rewrite list_prod_map, foldM_map. cbn [fst snd].
  apply foldM_ext. intros s p. rewrite sub_matrix_square by exact Hsq. reflexivity.
Qed.

Lemma grid_rect (xx yy : list float) :
  rect (repeat (Np.zeros (Np.len yy)) (Z.to_nat (Np.len xx)))
       (List.length xx) (List.length yy).
Proof.
  split.
  - rewrite repeat_length. unfold Np.len. lia.
  - apply Forall_forall. intros r Hr. apply repeat_spec in Hr. subst r.
    unfold Np.zeros. rewrite repeat_length. unfold Np.len. lia.
Qed.

(** X14: for a square matrix and any order of norm, [_pseudo] returns
    exactly when the grid has as many real as imaginary points or one of
    the two lists is empty; what it returns has [len(xx)] rows of
    [len(yy)] entries; and on two non-empty lists of different lengths it
    raises [IndexError], the array being allocated as [(len(xx), len(yy))]
    and indexed as [R[j, i]] with [j] over [yy]. *)
Theorem pseudo_returns_on_square_or_empty_grids (L : matrix) (xx yy : list float)
        (norm : Z) :
  square L ->
  ((exists R, _pseudo linalg_norm L (xx, yy) norm = Ok R)
   <-> (List.length xx = List.length yy \/ xx = [] \/ yy = [])) /\
  (forall R, _pseudo linalg_norm L (xx, yy) norm = Ok R ->
     rect R (List.length xx) (List.length yy)) /\
  (List.length xx <> List.length yy -> xx <> [] -> yy <> [] ->
   _pseudo linalg_norm L (xx, yy) norm = Raise IndexError).
Proof.
  intros Hsq. unfold _pseudo. rewrite (pseudo_loop_flat L xx yy norm Hsq).
  pose proof (writes_outcome
                (fun j i => stored linalg_norm L norm (nth i xx F64.nan) (nth j yy F64.nan))
                (list_prod (seq 0 (List.length yy)) (seq 0 (List.length xx)))
                _ [] _ _ (grid_rect xx yy)) as W.
  cbv beta in W.
  destruct (foldM _ _ _) as [r|e].
  - destruct W as [Hr Hall]. cbn [Py.bind].
    assert (Hc : List.length xx = List.length yy \/ xx = [] \/ yy = []).
    { destruct xx as [|x xx']; [right; now left|].
      destruct yy as [|y yy']; [right; now right|]. left.
      cbn [List.length] in *.
      destruct (Hall (List.length yy', List.length xx')) as [H1 H2].
      { apply in_prod_iff. split; apply in_seq; lia. }
      cbn [fst snd] in H1, H2. lia. }
    split; [split; [intros _; exact Hc|intros _; now eexists]|].
    split; [now intros R [= <-]|].
    intros Hne Hx Hy. destruct Hc as [Hc|[Hc|Hc]]; congruence.
  - destruct W as [-> ([j i] & Hp & Hn)]. cbn [Py.bind fst snd] in *.
    apply in_prod_iff in Hp as [Hj Hi]. apply in_seq in Hj. apply in_seq in Hi.
    split; [split|split].
    + intros [R HR]. discriminate.
    + intros [Hc|[-> | ->]]; cbn [List.length] in *; exfalso; lia.
    + intros R HR. discriminate.
    + reflexivity.
Qed.

End PseudoFacts.

Lemma pseudo_returns_on_square_or_empty_grids_witness :
  _pseudo diag_norm diag_1_2 ([F64.zero; F64.one], [F64.zero; F64.one; F64.of_Z 2]) 2
  = Raise IndexError.
Proof.
  apply (pseudo_returns_on_square_or_empty_grids diag_norm diag_1_2
           [F64.zero; F64.one] [F64.zero; F64.one; F64.of_Z 2] 2).
  - repeat constructor.
  - cbn [List.length]. lia.
  - discriminate.
  - discriminate.
Defined.

(** * Mode selection *)

Lemma new_fresh reject b factor scales drift_threshold use_ordinal grow_func freq_func :
  truthy reject = Ok b ->
  new reject factor scales drift_threshold use_ordinal grow_func freq_func
  = mkState (fresh_obj reject b factor scales drift_threshold use_ordinal
                       grow_func freq_func) [].
Proof.
  intros H. unfold new, __init__.
  do 4 (erewrite bindM_step by reflexivity).
  erewrite bindM_step by reflexivity.
  erewrite bindM_step by (rewrite lift_run, H; reflexivity).
  destruct b; reflexivity.
Qed.

Lemma getitem_Forall2 {A B} (R : A -> B -> Prop) (l1 : list A) (l2 : list B) k v :
  Forall2 R l1 l2 -> Np.getitem l1 k = Ok v ->
  exists i, Np.getitem l2 k = Ok i /\ R v i.
Proof.
  intros F. pose proof (Forall2_length F) as Hl. unfold Np.getitem, Np.len.
  rewrite <- Hl.
  destruct (Np.norm_index (Z.of_nat (List.length l1)) k) as [p|]; [|discriminate].
  clear Hl. revert p. induction F as [|x y l1 l2 Hxy F IH]; intros [|p]; cbn [nth_error];
    try discriminate.
  - intros [= <-]. now exists y.
  - apply IH.
Qed.

Section ModeFacts.

Variable np_abs : complex -> float.
Variable np_argsort : list float -> list nat.
Variable run : string -> bool -> res (list complex).
Variable update_EVP_params : string -> string -> value -> res unit.
Variable set_state : Z -> M unit.
Variable fields : list string.
Variable set_scales : string -> value -> M unit.

(** X15: the constructor does not bind [evalues_index].  On an instance
    fresh from it, whatever the arguments, [_set_eigenmode] and
    [eigenmode] raise [AttributeError] for every index, before the solver
    or [scales] is touched; with [all_modes=True] the index goes to
    [solver.set_state] as it is. *)
Theorem eigenmode_before_solve_raises_attribute_error
        (reject factor scales drift_threshold use_ordinal grow_func freq_func : value)
        (b : bool) (index : Z) (new_scales : value) :
  truthy reject = Ok b ->
  let st := new reject factor scales drift_threshold use_ordinal grow_func freq_func in
  lookup "evalues_index" (obj st) = None /\
  _set_eigenmode set_state index false st = (Raise AttributeError, st) /\
  eigenmode set_state fields set_scales index new_scales false st
  = (Raise AttributeError, st) /\
  _set_eigenmode set_state index true st = set_state index st.
Proof.
  intros H. cbv zeta. rewrite (new_fresh _ _ _ _ _ _ _ _ H).
  destruct b; repeat split.
Qed.

(** X16: after a [solve] that returned, [_set_eigenmode(k)] for a valid
    index [k] into [evalues] (negative ones included) is
    [solver.set_state(i)] for a position [i] of the low-resolution
    solver's array at which that array holds the eigenvalue [evalues[k]]:
    the mode selected is the mode of the accepted eigenvalue. *)
Theorem eigenmode_selects_the_accepted_eigenvalue
        (sparse : bool) (parameters : option (list (string * value)))
        (pencil N target : value) (st : state) (uo : bool) (thr : float)
        (low hi : list complex) :
  rejecting st uo thr ->
  (forall o k v, update_EVP_params o k v = Ok tt) ->
  run "solver" sparse = Ok low ->
  run "hires_solver" sparse = Ok hi ->
  argsort_ok np_argsort (finite_rows low) ->
  argsort_ok np_argsort (finite_rows hi) ->
  (2 <= n_finite low <= n_finite hi)%nat ->
  Z.of_nat (List.length low) <= 2 ^ 53 ->
  exists vals st',
    solve np_abs np_argsort run update_EVP_params sparse parameters pencil N target st
    = (Ok tt, st') /\
    lookup "evalues" (obj st') = Some (VComplexArray vals) /\
    forall k v,
      Np.getitem vals k = Ok v ->
      exists i,
        0 <= i /\ Np.getitem low i = Ok v /\
        _set_eigenmode set_state k false st' = set_state i st'.
Proof.
  intros Hrj Hu Rl Rh Pl Ph Hn Hlen.
  pose proof Hrj as (_ & (s1 & Hs1) & _).
  eexists _, _. split; [eapply solve_run_ok; eassumption|].
  split; [reflexivity|]. intros k v Hk.
  assert (F : Forall2 (fun v i => 0 <= i /\ Np.getitem low i = Ok v)
                (map fst (kept_rows np_abs np_argsort low hi uo thr))
                (map position (kept_rows np_abs np_argsort low hi uo thr))).
  { apply Forall2_map_same. intros rw Hrw. eapply kept_rows_index; eauto. }
  destruct (getitem_Forall2 _ _ _ _ _ F Hk) as (i & Ei & Hi0 & Hi).
  exists i. split; [exact Hi0|]. split; [exact Hi|].
  unfold _set_eigenmode.
  erewrite bindM_step.
  2:{ erewrite bindM_step by reflexivity.
      erewrite bindM_step by reflexivity.
      rewrite lift_run, Ei. reflexivity. }
  erewrite bindM_step by (look Hs1).
  reflexivity.
Qed.

End ModeFacts.

Lemma eigenmode_before_solve_raises_attribute_error_witness :
  eigenmode record_state ["u"; "w"] keep_scales 0 (VInt 2) false default_instance
  = (Raise AttributeError, default_instance).
Proof.
  apply (eigenmode_before_solve_raises_attribute_error record_state ["u"; "w"]
           keep_scales (VBool true) default_factor default_scales
           default_drift_threshold (VBool false) default_grow_func default_freq_func
           true 0 (VInt 2)).
  reflexivity.
Defined.

Lemma eigenmode_selects_the_accepted_eigenvalue_witness :
  exists st',
    solve cabs NpySort.argsort matching_solves updates_ok false None
          (VInt 0) (VInt 15) (VInt 0) default_instance = (Ok tt, st') /\
    exists i,
      Np.getitem low_412 i = Ok (c_of_Z 2) /\
      _set_eigenmode record_state (-1) false st' = record_state i st'.
Proof.
  destruct (eigenmode_selects_the_accepted_eigenvalue cabs NpySort.argsort
              matching_solves updates_ok record_state false None
              (VInt 0) (VInt 15) (VInt 0) default_instance false f_1e6
              low_412 high_521)
    as (vals & st' & E & Hv & Hsel).
  - apply default_instance_rejecting.
  - reflexivity.
  - reflexivity.
  - reflexivity.
  - vm_compute. reflexivity.
  - vm_compute. reflexivity.
  - vm_compute. lia.
  - vm_compute. discriminate.
  - exists st'. split; [exact E|].
    assert (Ev : vals = [c_of_Z 1; c_of_Z 2]).
    { assert (Es : st' = snd (solve cabs NpySort.argsort matching_solves updates_ok
                                    false None (VInt 0) (VInt 15) (VInt 0)
                                    default_instance)) by (now rewrite E).
      rewrite Es in Hv. vm_compute in Hv. injection Hv as <-.
      vm_compute. reflexivity. }
    destruct (Hsel (-1) (c_of_Z 2)) as (i & _ & Hi & Hset).
    + rewrite Ev. vm_compute. reflexivity.
    + exists i. split; [exact Hi|exact Hset].
Defined.

(** * Figures *)

(** X17: [spectrum] raises [ValueError] for every [spectype] other than
    ['low'], ['high'] and ['good'], whatever the instance holds and
    without drawing; and on an instance fresh from the constructor it
    raises [AttributeError] for each of the three ([evalues_low] and
    [evalues_high] are [None], [evalues_good] is not bound). *)
Theorem spectrum_needs_a_known_type_and_a_solve
        (figtitle spectype : string) (xlog ylog : bool) (real_label imag_label : string) :
  (forall st,
     spectype <> "low" -> spectype <> "high" -> spectype <> "good" ->
     spectrum figtitle spectype xlog ylog real_label imag_label st
     = (Raise ValueError, st)) /\
  (forall reject b factor scales drift_threshold use_ordinal grow_func freq_func,
     truthy reject = Ok b ->
     spectype = "low" \/ spectype = "high" \/ spectype = "good" ->
     let st := new reject factor scales drift_threshold use_ordinal grow_func freq_func in
     spectrum figtitle spectype xlog ylog real_label imag_label st
     = (Raise AttributeError, st)).
Proof.
  split.
  - intros st H1 H2 H3. unfold spectrum.
    apply String.eqb_neq in H1, H2, H3. now rewrite H1, H2, H3.
  - intros reject b factor scales thr uo g f H Hs. cbv zeta.
    rewrite (new_fresh _ _ _ _ _ _ _ _ H).
    destruct Hs as [-> | [-> | ->]]; destruct b; reflexivity.
Qed.

Lemma plot_body_ok s dn dor thr :
  lookup "delta_near" (obj s) = Some (VFloatArray dn) ->
  lookup "delta_ordinal" (obj s) = Some (VFloatArray dor) ->
  lookup "drift_threshold" (obj s) = Some (VFloat thr) ->
  List.length dor = List.length dn ->
  plot_drift_ratios_body s = (Ok (drift_figure dn dor thr), s).
Proof.
  intros Hn Ho Ht Hlen. unfold drift_figure.
  assert (Lm : List.length (Np.arange (Np.len dn)) = List.length dn)
    by (rewrite length_arange; unfold Np.len; lia).
  assert (Hin : inverse_of "delta_near" s = (Ok (map (F64.div F64.one) dn), s)).
  { unfold inverse_of. erewrite bindM_step by (apply getattr_ok; exact Hn). reflexivity. }
  assert (Hio : inverse_of "delta_ordinal" s = (Ok (map (F64.div F64.one) dor), s)).
  { unfold inverse_of. erewrite bindM_step by (apply getattr_ok; exact Ho). reflexivity. }
  assert (Hgn : good_of "delta_near" s
                = (Ok (map (fun x => F64.ltb thr x) (map (F64.div F64.one) dn)), s)).
  { unfold good_of. erewrite bindM_step by exact Hin.
    erewrite bindM_step by (apply getattr_ok; exact Ht). reflexivity. }
  assert (Hgo : good_of "delta_ordinal" s
                = (Ok (map (fun x => F64.ltb thr x) (map (F64.div F64.one) dor)), s)).
  { unfold good_of. erewrite bindM_step by exact Hio.
    erewrite bindM_step by (apply getattr_ok; exact Ht). reflexivity. }
  assert (Hh : forall name d fmt label,
             lookup name (obj s) = Some (VFloatArray d) ->
             List.length d = List.length dn ->
             highlighted (Np.arange (Np.len dn))
                         (map (fun x => F64.ltb thr x) (map (F64.div F64.one) d))
                         name fmt label s
             = (Ok (Semilogy
                      (Np.compress (map (fun x => F64.ltb thr x)
                                        (map (F64.div F64.one) d))
                                   (Np.arange (Np.len dn)))
                      (map (F64.div F64.one)
                           (Np.compress (map (fun x => F64.ltb thr x)
                                             (map (F64.div F64.one) d)) d))
                      fmt (Some label)), s)).
  { intros name d fmt label Hd Hl. unfold highlighted, getitem_mask1, semilogy.
    rewrite !length_map, Lm, Hl, Nat.eqb_refl.
    erewrite bindM_step by reflexivity.
    erewrite bindM_step by (apply getattr_ok; exact Hd).
    erewrite bindM_step by reflexivity.
    rewrite Hl, Nat.eqb_refl.
    erewrite bindM_step by reflexivity.
    rewrite length_map.
    rewrite !(length_compress (fun x => F64.ltb thr x) (map (F64.div F64.one) d))
      by (rewrite ?length_map; lia).
    rewrite Nat.eqb_refl. reflexivity. }
  unfold plot_drift_ratios_body.
  erewrite bindM_step by (apply getattr_ok; exact Hn).
  erewrite bindM_step by reflexivity.
  erewrite bindM_step by exact Hin.
  unfold semilogy at 1. rewrite length_map, Lm, Nat.eqb_refl.
  erewrite bindM_step by reflexivity.
  erewrite bindM_step by exact Hio.
  unfold semilogy at 1. rewrite length_map, Lm, Hlen, Nat.eqb_refl.
  erewrite bindM_step by reflexivity.
  erewrite bindM_step by exact Hgn.
  erewrite bindM_step by exact Hgo.
  erewrite bindM_step by (apply Hh; [exact Hn|reflexivity]).
  erewrite bindM_step by (apply Hh; [exact Ho|exact Hlen]).
  erewrite bindM_step by (apply getattr_ok; exact Ht).
  reflexivity.
Qed.

(** X18: on an instance fresh from the constructor [plot_drift_ratios]
    raises [NotImplementedError] only when [reject] is the object [False]
    ([self.reject is False]); for every other value of [reject], a false
    one like [0] included, it raises [AttributeError], [delta_near] not
    being bound before a [solve]. *)
Theorem drift_plot_before_solve
        (reject factor scales drift_threshold use_ordinal grow_func freq_func : value)
        (b : bool) :
  truthy reject = Ok b ->
  plot_drift_ratios
    (new reject factor scales drift_threshold use_ordinal grow_func freq_func)
  = if is_False reject then RaisesNotImplementedError else Raises AttributeError.
Proof.
  intros H. rewrite (new_fresh _ _ _ _ _ _ _ _ H).
  unfold plot_drift_ratios.
  assert (E : forall s, obj s = fresh_obj reject b factor scales drift_threshold
                                 use_ordinal grow_func freq_func ->
                        getattr "reject" s = (Ok reject, s)).
  { intros s Hs. apply getattr_ok. rewrite Hs. destruct b; reflexivity. }
  rewrite E by reflexivity.
  destruct (is_False reject); [reflexivity|].
  destruct b; reflexivity.
Qed.

Lemma drift_plot_before_solve_witness :
  plot_drift_ratios
    (new (VInt 0) default_factor default_scales default_drift_threshold
         (VBool false) default_grow_func default_freq_func)
  = Raises AttributeError.
Proof.
  apply (drift_plot_before_solve (VInt 0) default_factor default_scales
           default_drift_threshold (VBool false) default_grow_func default_freq_func
           false).
  reflexivity.
Defined.

Lemma compress_positions {A} (mask : list bool) (rows : list A) :
  List.length mask = List.length rows ->
  Forall2 (fun j r => Np.getitem rows j = Ok r)
          (Np.compress mask (Np.arange (Np.len rows))) (Np.compress mask rows).
Proof.
  intros Hl. unfold Np.arange, Np.range, Np.len. rewrite Z.sub_0_r, Nat2Z.id.
  enough (G : forall (pre : list A),
             Forall2 (fun j r => Np.getitem (pre ++ rows) j = Ok r)
                     (Np.compress mask
                        (map (fun k => 0 + Z.of_nat k)
                             (seq (List.length pre) (List.length rows))))
                     (Np.compress mask rows)).
  { exact (G []). }
  revert mask Hl. induction rows as [|r rows IH]; intros [|b mask] Hl pre;
    simpl in Hl; try lia; cbn [List.length seq map Np.compress]; try constructor.
  assert (T : Forall2 (fun j r0 => Np.getitem (pre ++ r :: rows) j = Ok r0)
                (Np.compress mask
                   (map (fun k => 0 + Z.of_nat k)
                        (seq (S (List.length pre)) (List.length rows))))
                (Np.compress mask rows)).
  { specialize (IH mask ltac:(lia) (pre ++ [r])).
    rewrite <- app_assoc in IH. cbn [app] in IH.
    rewrite length_app in IH. cbn [List.length] in IH.
    now rewrite Nat.add_1_r in IH. }
  destruct b; [constructor|]; try exact T.
  rewrite (getitem_nth _ _ r).
  2:{ unfold Np.len. rewrite length_app. cbn [List.length]. lia. }
  f_equal. rewrite Z.add_0_l, Nat2Z.id, app_nth2 by lia.
  now rewrite Nat.sub_diag.
Qed.

Lemma compress_pred {A} (f : A -> bool) (l : list A) :
  Forall (fun y => f y = true) (Np.compress (map f l) l).
Proof.
  induction l as [|x l IH]; cbn [map Np.compress]; [constructor|].
  destruct (f x) eqn:E; [constructor|]; assumption.
Qed.

Lemma Forall2_map_r {A B C} (R : A -> C -> Prop) (f : B -> C) l1 l2 :
  Forall2 (fun a b => R a (f b)) l1 l2 -> Forall2 R l1 (map f l2).
Proof. induction 1; simpl; constructor; auto. Qed.

Lemma getitem_map {A B} (f : A -> B) (rows : list A) j r :
  Np.getitem rows j = Ok r -> Np.getitem (map f rows) j = Ok (f r).
Proof.
  unfold Np.getitem, Np.len. rewrite length_map.
  destruct (Np.norm_index _ j) as [p|]; [|discriminate].
  rewrite nth_error_map. destruct (nth_error rows p); [|discriminate].
  now intros [= <-].
Qed.

Section PlotFacts.

Variable np_abs : complex -> float.
Variable np_argsort : list float -> list nat.
Variable run : string -> bool -> res (list complex).
Variable update_EVP_params : string -> string -> value -> res unit.

(** X19: after a [solve] that returned, [plot_drift_ratios] returns a
    figure in which the series labelled with the metric in use
    (['ordinal'] when [use_ordinal] is set, ['nearest'] otherwise) shows
    the accepted eigenvalues and nothing else: it has one point for each
    entry of [evalues], in order, its mode number being the position of
    that eigenvalue among the sorted finite low-resolution eigenvalues (not
    its index in the solver's array), and every inverse drift it shows is
    above the threshold. *)
Theorem drift_plot_highlights_the_accepted_modes
        (sparse : bool) (parameters : option (list (string * value)))
        (pencil N target : value) (st : state) (uo : bool) (thr : float)
        (low hi : list complex) :
  rejecting st uo thr ->
  (forall o k v, update_EVP_params o k v = Ok tt) ->
  run "solver" sparse = Ok low ->
  run "hires_solver" sparse = Ok hi ->
  argsort_ok np_argsort (finite_rows low) ->
  argsort_ok np_argsort (finite_rows hi) ->
  (2 <= n_finite low <= n_finite hi)%nat ->
  exists vals fig xs ys st',
    solve np_abs np_argsort run update_EVP_params sparse parameters pencil N target st
    = (Ok tt, st') /\
    lookup "evalues" (obj st') = Some (VComplexArray vals) /\
    plot_drift_ratios st' = Returns fig /\
    series (if uo then "ordinal" else "nearest") fig = Some (xs, ys) /\
    Forall2 (fun j v => Np.getitem (sorted_values np_argsort low) j = Ok v) xs vals /\
    Forall (fun y => F64.ltb thr y = true) ys.
Proof.
  intros Hrj Hu Rl Rh Pl Ph Hn.
  pose proof Hrj as ((r & Hr & Ht) & _ & _ & Huo & Hthr).
  pose proof (length_sorted_values np_argsort low Pl) as Ll.
  assert (Ldn : List.length (delta_near_of np_abs np_argsort low hi) = n_finite low)
    by (unfold delta_near_of; rewrite length_map, length_seq; exact Ll).
  assert (Ldo : List.length (delta_ordinal_of np_abs np_argsort low hi) = n_finite low)
    by (unfold delta_ordinal_of; rewrite length_map, length_seq; exact Ll).
  assert (Lr : List.length (sorted_rows np_argsort low) = n_finite low).
  { unfold sorted_values in Ll. now rewrite length_map in Ll. }
  set (st' := solved_state np_abs np_argsort st low hi uo thr pencil N target).
  assert (Eb : plot_drift_ratios st'
               = Returns (drift_figure (delta_near_of np_abs np_argsort low hi)
                                       (delta_ordinal_of np_abs np_argsort low hi) thr)).
  { unfold plot_drift_ratios.
    erewrite (getattr_ok "reject" st' r)
      by (cbn [st' solved_state obj lookup String.eqb Ascii.eqb Bool.eqb]; exact Hr).
    replace (is_False r) with false by (destruct r as [|[]| | | | | | | |]; try reflexivity;
                                       discriminate).
    erewrite (plot_body_ok st' (delta_near_of np_abs np_argsort low hi)
                           (delta_ordinal_of np_abs np_argsort low hi) thr);
      [reflexivity|reflexivity|reflexivity| |congruence].
    cbn [st' solved_state obj lookup String.eqb Ascii.eqb Bool.eqb]. exact Hthr. }
  assert (Hlen_n : Np.len (delta_near_of np_abs np_argsort low hi)
                   = Np.len (sorted_rows np_argsort low))
    by (unfold Np.len; rewrite Ldn; f_equal; symmetry; exact Lr).
  destruct uo.
  - eexists _, _, _, _, st'. split; [eapply solve_run_ok; eassumption|].
    split; [reflexivity|]. split; [exact Eb|].
    split; [reflexivity|]. split.
    + apply Forall2_map_r. rewrite Hlen_n.
      unfold kept_rows, accept_mask, inverse_drift.
      eapply Forall2_impl; [|apply compress_positions].
      * intros j rw Hj. cbv beta. unfold sorted_values. now apply getitem_map.
      * rewrite !length_map. etransitivity; [exact Ldo|symmetry; exact Lr].
    + rewrite map_compress. apply (compress_pred (fun y => F64.ltb thr y)).
  - eexists _, _, _, _, st'. split; [eapply solve_run_ok; eassumption|].
    split; [reflexivity|]. split; [exact Eb|].
    split; [reflexivity|]. split.
    + apply Forall2_map_r. rewrite Hlen_n.
      unfold kept_rows, accept_mask, inverse_drift.
      eapply Forall2_impl; [|apply compress_positions].
      * intros j rw Hj. cbv beta. unfold sorted_values. now apply getitem_map.
      * rewrite !length_map. etransitivity; [exact Ldn|symmetry; exact Lr].
    + rewrite map_compress. apply (compress_pred (fun y => F64.ltb thr y)).
Qed.

End PlotFacts.

Lemma drift_plot_highlights_the_accepted_modes_witness :
  exists fig st',
    solve cabs NpySort.argsort matching_solves updates_ok false None
          (VInt 0) (VInt 15) (VInt 0) default_instance = (Ok tt, st') /\
    plot_drift_ratios st' = Returns fig /\
    exists ys, series "nearest" fig = Some ([0; 1], ys).
Proof.
  destruct (drift_plot_highlights_the_accepted_modes cabs NpySort.argsort
              matching_solves updates_ok false None (VInt 0) (VInt 15) (VInt 0)
              default_instance false f_1e6 low_412 high_521)
    as (vals & fig & xs & ys & st' & E & Hv & Hf & Hs & Hx & _).
  - apply default_instance_rejecting.
  - reflexivity.
  - reflexivity.
  - reflexivity.
  - vm_compute. reflexivity.
  - vm_compute. reflexivity.
  - vm_compute. lia.
  - exists fig, st'. split; [exact E|]. split; [exact Hf|].
    exists ys. rewrite Hs. f_equal. f_equal.
    assert (Es : st' = snd (solve cabs NpySort.argsort matching_solves updates_ok
                                  false None (VInt 0) (VInt 15) (VInt 0)
                                  default_instance)) by (now rewrite E).
    rewrite Es in Hf. vm_compute in Hf. injection Hf as <-.
    cbn in Hs. injection Hs as <- _. reflexivity.
Defined.

(** * The example script *)

Lemma lstrip_prefix chars pre s :
  Example.all_in chars pre = true ->
  Example.lstrip chars (pre ++ s) = Example.lstrip chars s.
Proof.
  induction pre as [|c pre IH]; cbn [Example.all_in append Example.lstrip];
    [reflexivity|].
  intros H. apply andb_prop in H as [Hc H]. rewrite Hc. now apply IH.
Qed.

Lemma lstrip_first_out chars s :
  Example.first_out chars s = true -> Example.lstrip chars s = s.
Proof.
  destruct s as [|c s]; [discriminate|]. cbn [Example.first_out Example.lstrip].
  intros H. apply negb_true_iff in H. now rewrite H.
Qed.

Lemma rstrip_all_in chars s :
  Example.all_in chars s = true -> Example.rstrip chars s = EmptyString.
Proof.
  induction s as [|c s IH]; cbn [Example.all_in Example.rstrip]; [reflexivity|].
  intros H. apply andb_prop in H as [Hc H]. now rewrite (IH H), Hc.
Qed.

Lemma rstrip_suffix chars s post :
  Example.last_out chars s = true -> Example.all_in chars post = true ->
  Example.rstrip chars (s ++ post) = s.
Proof.
  intros Hs Hp. induction s as [|c s IH]; [discriminate|].
  cbn [append Example.rstrip]. destruct s as [|d s].
  - cbn [append]. rewrite (rstrip_all_in _ _ Hp).
    cbn [Example.last_out] in Hs. apply negb_true_iff in Hs. now rewrite Hs.
  - rewrite IH by exact Hs. reflexivity.
Qed.

(** X20: [sys.argv[0].strip('.py')] removes characters, not the
    extension.  Whenever the path of the script is [pre ++ core ++ post]
    with [pre] and [post] made of the characters ['.'], ['p'] and ['y']
    only, and [core] beginning and ending with other characters, the grid
    is loaded and saved under [core ++ "_stress_free"]: a leading ['.'] of
    ['./script.py'] is lost, as are trailing letters [p] and [y] of the
    script's own name. *)
Theorem file_name_strips_characters_not_the_extension (pre core post : string) :
  Example.all_in ".py" pre = true ->
  Example.all_in ".py" post = true ->
  Example.first_out ".py" core = true ->
  Example.last_out ".py" core = true ->
  Example.file_name (pre ++ core ++ post) = (core ++ "_stress_free")%string.
Proof.
  intros Hpre Hpost Hf Hl. unfold Example.file_name, Example.strip.
  cbn [Example.no_slip Example.stress_free].
  rewrite (lstrip_prefix _ _ _ Hpre).
  rewrite lstrip_first_out.
  - now rewrite (rstrip_suffix _ _ _ Hl Hpost).
  - destruct core; [discriminate|exact Hf].
Qed.

Lemma file_name_strips_characters_not_the_extension_witness :
  Example.file_name "./rayleigh_benard_2d.py" = "/rayleigh_benard_2d_stress_free" /\
  Example.file_name "rayleigh_benard_2d.py" = "rayleigh_benard_2d_stress_free" /\
  Example.file_name "happy.py" = "ha_stress_free".
Proof.
  split; [|split].
  - apply (file_name_strips_characters_not_the_extension "." "/rayleigh_benard_2d" ".py");
      reflexivity.
  - apply (file_name_strips_characters_not_the_extension "" "rayleigh_benard_2d" ".py");
      reflexivity.
  - apply (file_name_strips_characters_not_the_extension "" "ha" "ppy.py"); reflexivity.
Defined.
